(** * tarification.py: decoding and re-encoding of .Civ6Save containers

    A shallow embedding of [src/tarification.py].  Byte strings are lists of
    [Byte.byte], Python integers are [Z], and the functions that read from
    the [input_buffer] (and print, open files, raise) live in a small
    state-and-exception monad over a [world] holding the stream, its cursor
    and the trace of external effects.

    Recursion on nested elements and the [while] loops take a [fuel]
    argument; a computation that uses it up ends in [OutOfFuel], which is
    neither a result nor a Python exception.  The [for _ in range(n)] loops
    recurse on [n] and need none. *)

From Stdlib Require Import String ZArith Lia Bool List.
From Stdlib Require Import Strings.Byte.
Import ListNotations.
Local Open Scope Z_scope.
Set Warnings "-register-all".

(** ** Byte strings *)

Definition bytes := list byte.

Definition byte_to_Z (b : byte) : Z := Z.of_N (Byte.to_N b).

Definition byte_of_Z (z : Z) : byte :=
  match Byte.of_N (Z.to_N z) with
  | Some b => b
  | None => x00
  end.

Fixpoint bytes_eqb (a b : bytes) : bool :=
  match a, b with
  | [], [] => true
  | x :: a', y :: b' => Byte.eqb x y && bytes_eqb a' b'
  | _, _ => false
  end.

(** [int.from_bytes(b, byteorder="little", signed=False)] *)
Fixpoint from_bytes_le (b : bytes) : Z :=
  match b with
  | [] => 0
  | x :: rest => byte_to_Z x + 256 * from_bytes_le rest
  end.

Fixpoint le_digits (k : nat) (x : Z) : bytes :=
  match k with
  | O => []
  | S k' => byte_of_Z (x mod 256) :: le_digits k' (x / 256)
  end.

(** Python slices [b[i:]], [b[:j]] and [b[i:j]] for non-negative bounds. *)
Definition slice_from (i : Z) (b : bytes) : bytes := skipn (Z.to_nat i) b.
Definition slice_to (j : Z) (b : bytes) : bytes :=
  firstn (Z.to_nat (Z.min j (Z.of_nat (length b)))) b.
Definition slice (i j : Z) (b : bytes) : bytes :=
  slice_from i (slice_to j b).

Definition len {A} (l : list A) : Z := Z.of_nat (length l).

(** [b'\0' * k] *)
Definition zeros (k : nat) : bytes := repeat x00 k.

(** ** Exceptions, effects and the monad *)

(** The two [RuntimeError]s that are raised, with the numbers their
    messages show. *)
Inductive runtime_msg :=
| UnexpectedStringHeader (at_ : Z) (header : bytes)
| FinishedBeforeEOF (after_parsing_at file_end_at : Z).

(** Python exceptions; [SystemExit] is what [exit(1)] raises. *)
Inductive exn :=
| AssertionError
| RuntimeError (msg : runtime_msg)
| AttributeError (attr : string)
| NameError (name : string)
| TypeError
| IndexError
| OverflowError
| SystemExit (code : Z).

Inductive outcome (A : Type) :=
| Ok (a : A)
| Raise (e : exn)
| OutOfFuel.
Arguments Ok {A} a.
Arguments Raise {A} e.
Arguments OutOfFuel {A}.

(** [class Marker]: the 4-byte name (shorter at the end of the stream) and
    the type code. *)
Record Marker := mkMarker { name : bytes; type_ : Z }.

(** What the decoder prints, one constructor per [print] call site. *)
Inductive message :=
| MsgBoolFlags (at_ : Z) (buf : bytes)
| MsgBoolValue (at_ : Z) (value : Z)
| MsgIntFlags (at_ : Z) (buf : bytes)
| MsgChunkLength (i total remain : Z)
| MsgErrorAt (at_ : Z)
| MsgFailTag (marker : Marker)
| MsgNewSection (kind : string) (at_ : Z)
| MsgSectionType (t : bytes)
| MsgExpected (count : Z)
| MsgSubsectionCnt (count : Z)
| MsgSubsection (idx subcount : Z)
| MsgChunksRead (chunks total : Z)
| MsgBitmap (t w h : Z)
| MsgNoPairs (count : Z)
| MsgLabel (label : bytes)
| MsgPlus (elements_since : Z)
| MsgSkipped (at_ : Z) (tag : bytes).

(** External effects: a printed line, [open(file, 'wb')], and a write to
    the file just opened. *)
Inductive event :=
| Print (m : message)
| OpenWB (file : string)
| FileWrite (file : string) (content : bytes).

Record world := mkWorld {
  input_buffer : bytes;   (* the whole stream *)
  position : nat;         (* input_buffer.tell() *)
  trace : list event      (* stdout and file system effects, oldest first *)
}.

(** Computations: the world is kept when an exception is raised, so that
    what was printed or written before stays in the trace. *)
Definition M (A : Type) : Type := world -> outcome A * world.

Definition ret {A} (a : A) : M A := fun w => (Ok a, w).

Definition bind {A B} (m : M A) (f : A -> M B) : M B :=
  fun w =>
    match m w with
    | (Ok a, w') => f a w'
    | (Raise e, w') => (Raise e, w')
    | (OutOfFuel, w') => (OutOfFuel, w')
    end.

Definition raise {A} (e : exn) : M A := fun w => (Raise e, w).
Definition out_of_fuel {A} : M A := fun w => (OutOfFuel, w).

Declare Scope py_scope.
Delimit Scope py_scope with py.
Notation "x <- c1 ;; c2" := (bind c1 (fun x => c2))
  (at level 61, c1 at next level, right associativity) : py_scope.
Notation "c1 ;; c2" := (bind c1 (fun _ => c2))
  (at level 61, right associativity) : py_scope.
Local Open Scope py_scope.

Definition emit (e : event) : M unit :=
  fun w => (Ok tt, mkWorld (input_buffer w) (position w) (trace w ++ [e])).

Definition print (m : message) : M unit := emit (Print m).

(** [assert c] *)
Definition assert (c : bool) : M unit :=
  if c then ret tt else raise AssertionError.

(** [input_buffer.read(n)]: up to [n] bytes, fewer only at end of stream. *)
Definition remaining (w : world) : bytes := skipn (position w) (input_buffer w).

Definition read (n : Z) : M bytes :=
  fun w =>
    let got := if n <? 0 then remaining w else slice_to n (remaining w) in
    (Ok got, mkWorld (input_buffer w) (position w + length got) (trace w)).

(** The world after [k] more bytes have been consumed. *)
Definition advance (k : nat) (w : world) : world :=
  mkWorld (input_buffer w) (position w + k) (trace w).

(** [input_buffer.tell()] and [input_buffer.seek(p)] *)
Definition tell : M Z := fun w => (Ok (Z.of_nat (position w)), w).

Definition seek (p : Z) : M unit :=
  fun w => (Ok tt, mkWorld (input_buffer w) (Z.to_nat p) (trace w)).

(** [input_buffer.seek(0, SEEK_END)] *)
Definition seek_end : M unit :=
  fun w => (Ok tt, mkWorld (input_buffer w) (length (input_buffer w)) (trace w)).

(** [for _ in range(n): acc.append(body())] *)
Fixpoint repeatM {A} (n : nat) (body : M A) : M (list A) :=
  match n with
  | O => ret []
  | S n' => x <- body ;; xs <- repeatM n' body ;; ret (x :: xs)
  end.

(** ** Primitives *)

(** [int.from_bytes(input_buffer.read(4), byteorder="little",
    signed=False)]; fewer than 4 bytes at the end of the stream still give
    a number, 0 for none. *)
Definition _parse_int32 : M Z :=
  b <- read 4 ;; ret (from_bytes_le b).

(** [x.to_bytes(length=k, byteorder="little", signed=False)] *)
Definition to_bytes (k : nat) (x : Z) : outcome bytes :=
  if (0 <=? x) && (x <? 256 ^ Z.of_nat k) then Ok (le_digits k x)
  else Raise OverflowError.

Definition _to_bytes (x : Z) : outcome bytes := to_bytes 4 x.

(** ** Data model *)

(** The element classes, in the order of the source.  A list of elements
    holds [None] where a decode has failed, hence the [option]. *)
Record ByteData := mkByteData { b : bytes; b_per_element : Z }.

Inductive GameElement :=
| IntElement (marker : Marker) (value : Z)
| UnknownStringElement (marker : Marker) (header : bytes)
| StringElement (marker : Marker) (content : ByteData)
| UtfStringElement (marker : Marker) (content : ByteData)
| Unknown16Bytes (marker : Marker) (content : bytes)
| TimestampElement (marker : Marker) (epoch : Z)
| Unknown12Bytes (marker : Marker) (content : bytes)
| BooleanElement (marker : Marker) (value : Z)
| CompressedElement (marker : Marker) (header : bytes) (inflated_size : Z)
                    (chunks : list bytes)
| Array0AElement (marker : Marker) (elements : list (option GameElement))
| Array0BElement (marker : Marker) (header : bytes)
                 (content : list (option GameElement)).

(** ** Decoding of elements *)

(** [_parse_marker(input_buffer, *, name=None)]: [name or read(4)] reads
    when [name] is [None] or empty; an empty name gives [None]. *)
Definition _parse_marker (name_arg : option bytes) : M (option Marker) :=
  nm <- match name_arg with
        | Some (x :: r) => ret (x :: r)
        | _ => read 4
        end ;;
  match nm with
  | [] => ret None
  | _ => t <- _parse_int32 ;; ret (Some (mkMarker nm t))
  end.

(** The result of [_read_byte_data] is [ByteData | bytes]. *)
Definition _read_byte_data : M (ByteData + bytes) :=
  lb <- read 3 ;;
  let l := from_bytes_le lb in
  header <- read 1 ;;
  if bytes_eqb header [x21] then
    bpe <- _parse_int32 ;;
    data <- read (l * bpe) ;;
    ret (inl (mkByteData data bpe))
  else if l =? 0 then
    b_per_element_bytes <- read 4 ;;
    supposed_zeroes <- read 4 ;;
    (* a RuntimeError object is built here when [supposed_zeroes] is not
       four zero bytes, but it is not raised *)
    ret (inr (le_digits 3 l ++ header ++ b_per_element_bytes))
  else
    p <- tell ;;
    raise (RuntimeError (UnexpectedStringHeader p header)).

(** The chunk loop of the [0x18] case:
    [while i < len(b) and b[i:] != b'\0\0\xFF\xFF'] *)
Fixpoint chunk_loop (fuel : nat) (bs : bytes) (i : Z) (chunks : list bytes)
  : M (list bytes) :=
  match fuel with
  | O => out_of_fuel
  | S fuel' =>
    if (i <? len bs) && negb (bytes_eqb (slice_from i bs) [x00; x00; xff; xff])
    then
      if len bs - i <? 4 then
        print (MsgChunkLength i (len bs) (len bs - i)) ;;
        raise (SystemExit 1)
      else
        let chunk_len := from_bytes_le (slice i (i + 4) bs) in
        chunk_loop fuel' bs (i + 4 + chunk_len)
                   (chunks ++ [slice (i + 4) (i + 4 + chunk_len) bs])
    else ret chunks
  end.

(** [parse_element(marker, input_buffer)].  [marker] is [None] when
    [_parse_marker] found the stream exhausted; no [case] matches it and the
    result is [None]. *)
Fixpoint parse_element (fuel : nat) (marker : option Marker)
  : M (option GameElement) :=
  match fuel with
  | O => out_of_fuel
  | S fuel' =>
    match marker with
    | None => ret None
    | Some m =>
      let t := type_ m in
      if t =? 0x1 then
        _buf <- read 8 ;;
        if negb (bytes_eqb _buf (zeros 8)) then
          p <- tell ;; print (MsgBoolFlags (p - 8) _buf) ;; ret None
        else
          value <- _parse_int32 ;;
          if value >? 1 then
            p <- tell ;; print (MsgBoolValue (p - 4) value) ;; ret None
          else
            assert (value <=? 1) ;;
            ret (Some (BooleanElement m value))
      else if t =? 0x2 then
        _buf <- read 8 ;;
        if negb (bytes_eqb _buf (zeros 8)) then
          p <- tell ;; print (MsgIntFlags (p - 8) _buf) ;; ret None
        else
          value <- _parse_int32 ;;
          ret (Some (IntElement m value))
      else if t =? 0x3 then
        content <- read 12 ;;
        ret (Some (Unknown12Bytes m content))
      else if (t =? 0x4) || (t =? 0x5) then
        byte_data <- _read_byte_data ;;
        match byte_data with
        | inr raw => ret (Some (UnknownStringElement m raw))
        | inl bd =>
          assert (b_per_element bd =? 1) ;;
          ret (Some (StringElement m bd))
        end
      else if t =? 0x6 then
        byte_data <- _read_byte_data ;;
        match byte_data with
        | inr raw => raise (AttributeError "b_per_element")
        | inl bd =>
          assert (b_per_element bd =? 2) ;;
          ret (Some (UtfStringElement m bd))
        end
      else if t =? 0xA then
        prefix <- read 8 ;;
        assert (bytes_eqb prefix [x00; x00; x00; x05; x00; x00; x00; x00]) ;;
        element_count <- _parse_int32 ;;
        elements <- repeatM (Z.to_nat element_count)
                      (element_marker <- _parse_marker None ;;
                       parse_element fuel' element_marker) ;;
        ret (Some (Array0AElement m elements))
      else if t =? 0xB then
        header <- read 8 ;;
        size <- _parse_int32 ;;
        entries <- repeatM (Z.to_nat size)
                     (entry_type <- _parse_int32 ;;
                      parse_element fuel'
                        (Some (mkMarker [x00; x00; x00; x00] entry_type))) ;;
        ret (Some (Array0BElement m header entries))
      else if t =? 0xD then
        content <- read 16 ;;
        ret (Some (Unknown16Bytes m content))
      else if t =? 0x14 then
        prefix <- read 8 ;;
        assert (bytes_eqb prefix [x00; x00; x00; x80; x00; x00; x00; x00]) ;;
        timestamp <- _parse_int32 ;;
        suffix <- read 4 ;;
        assert (bytes_eqb suffix [x00; x00; x00; x00]) ;;
        ret (Some (TimestampElement m timestamp))
      else if t =? 0x18 then
        byte_data <- _read_byte_data ;;
        emit (OpenWB "debug.bin") ;;
        match byte_data with
        | inr raw => raise (AttributeError "b")
        | inl bd =>
          emit (FileWrite "debug.bin" (b bd)) ;;
          let bs := b bd in
          let header := slice_to 4 bs in
          let inflated_size := from_bytes_le (slice 4 8 bs) in
          chunks <- chunk_loop (S (length bs)) bs 8 [] ;;
          emit (OpenWB "debug2.bin") ;;
          emit (FileWrite "debug2.bin" (concat chunks)) ;;
          ret (Some (CompressedElement m header inflated_size chunks))
        end
      else ret None
    end
  end.

(** The body of the loop of [parse_n_elements]; the value is what the
    iteration appends.  [marker.pretty_str()] on a missing marker is an
    [AttributeError]. *)
Definition parse_one_element (fuel : nat) : M (option GameElement) :=
  marker <- _parse_marker None ;;
  element <- parse_element fuel marker ;;
  match element with
  | Some e => ret (Some e)
  | None =>
    p <- tell ;;
    print (MsgErrorAt p) ;;
    match marker with
    | Some m => print (MsgFailTag m)
    | None => raise (AttributeError "pretty_str")
    end ;;
    ret None
  end.

Definition parse_n_elements (fuel : nat) (n : Z)
  : M (list (option GameElement)) :=
  repeatM (Z.to_nat n) (parse_one_element fuel).

(** ** Encoding of elements

    The results are pure: a byte string or the exception the body raises. *)

Definition obind {A B} (o : outcome A) (f : A -> outcome B) : outcome B :=
  match o with
  | Ok a => f a
  | Raise e => Raise e
  | OutOfFuel => OutOfFuel
  end.

Notation "x <-- c1 ;; c2" := (obind c1 (fun x => c2))
  (at level 61, c1 at next level, right associativity) : py_scope.

(** [Marker.serialize] returns [name + _to_bytes(self.type_)], where [name]
    is not [self.name] but a global the module never defines. *)
Definition Marker_serialize (self : Marker) : outcome bytes :=
  Raise (NameError "name").

(** [ByteData.serialize] starts with [len(b) // b_per_element], both
    undefined globals. *)
Definition ByteData_serialize (self : ByteData) : outcome bytes :=
  Raise (NameError "b").

(** [GameElement.serialize], class by class.  [self.marker.serialize]
    without a call is a bound method, and adding bytes to it is a
    [TypeError]; the array classes fail before they reach their children. *)
Definition serialize (self : GameElement) : outcome bytes :=
  match self with
  | IntElement _ _ => Raise (AttributeError "header")
  | UnknownStringElement m header =>
    mb <-- Marker_serialize m ;; Ok (mb ++ header ++ zeros 4)
  | StringElement m content =>
    mb <-- Marker_serialize m ;;
    cb <-- ByteData_serialize content ;; Ok (mb ++ cb)
  | UtfStringElement m content =>
    mb <-- Marker_serialize m ;;
    cb <-- ByteData_serialize content ;; Ok (mb ++ cb)
  | Unknown16Bytes _ _ => Raise (NameError "content")
  | TimestampElement _ _ => Raise TypeError
  | Unknown12Bytes _ _ => Raise (NameError "content")
  | BooleanElement _ _ => Raise TypeError
  | CompressedElement _ _ _ _ => Raise (NameError "chunks")
  | Array0AElement _ _ => Raise (NameError "elements")
  | Array0BElement m _ _ =>
    mb <-- Marker_serialize m ;; Raise (NameError "header")
  end.

(** [b''.join(element.serialize() for element in elements)]; a [None] left
    by a failed decode has no [serialize]. *)
Fixpoint join_serialize (elements : list (option GameElement))
  : outcome bytes :=
  match elements with
  | [] => Ok []
  | None :: _ => Raise (AttributeError "serialize")
  | Some e :: rest =>
    x <-- serialize e ;; y <-- join_serialize rest ;; Ok (x ++ y)
  end.

(** ** Sections *)

(** [parse_weird_constant_data] stores the builtin [bytes] in the [bytes_]
    field, so the field holds either that type object or a byte string. *)
Inductive bytes_field :=
| BuiltinBytesType
| BytesValue (v : bytes).

Inductive FileSection :=
| RegularFileSection (type_ : Z) (elements : list (option GameElement))
| NamelessSection (type_ : Z) (elements : list (option GameElement))
| EmptyFileSection
| MultiSection (subsections : list (Z * list (option GameElement)))
| CompressedSection (deflated_content : list bytes)
| BitmapSection (type_ : Z) (size : Z * Z) (bmap : list Z)
| PairsSection (entries : list bytes)
| AlmostConstantSection (bytes_ : bytes_field) (flagged_ints : list bytes)
| CustomDataSection (label : bytes) (elements : list (option GameElement)).

(** [reported_size] in [RegularFileSection.serialize]: the length of the
    element list, less 4 when [self.type_ == 1 and reported_size >= 0x40]. *)
Definition reported_size (t : Z) (n : Z) : Z :=
  if (t =? 1) && (n >=? 0x40) then n - 4 else n.

Definition RegularFileSection_serialize (t : Z)
  (elements : list (option GameElement)) : outcome bytes :=
  let reported_size := reported_size t (len elements) in
  tb <-- _to_bytes t ;;
  sb <-- _to_bytes reported_size ;;
  eb <-- join_serialize elements ;;
  Ok (tb ++ sb ++ eb).

Fixpoint join_chunks (l : list bytes) : outcome bytes :=
  match l with
  | [] => Ok []
  | content :: rest =>
    lb <-- _to_bytes (len content) ;;
    y <-- join_chunks rest ;; Ok (lb ++ content ++ y)
  end.

(** [FileSection.serialize]; [None] is what a body without [return]
    gives. *)
Definition section_serialize (self : FileSection) : outcome (option bytes) :=
  match self with
  | RegularFileSection t elements =>
    r <-- RegularFileSection_serialize t elements ;; Ok (Some r)
  | NamelessSection t elements =>
    r <-- RegularFileSection_serialize t elements ;;
    Ok (Some (slice_from 4 r))
  | EmptyFileSection => Ok (Some [x10; x00; x00; x00])
  | MultiSection _ => Raise (AttributeError "elements")
  | CompressedSection deflated_content =>
    _r <-- join_chunks deflated_content ;; Ok None
  | BitmapSection t _ _ =>
    tb <-- _to_bytes t ;; Raise (NameError "size")
  | PairsSection entries =>
    lb <-- _to_bytes (len entries) ;; Raise (NameError "entries")
  | AlmostConstantSection bytes_ flagged_ints =>
    match bytes_ with
    | BuiltinBytesType => Raise TypeError
    | BytesValue v =>
      lb <-- _to_bytes (len v) ;;
      fb <-- _to_bytes (len flagged_ints) ;;
      Ok (Some (lb ++ v ++ fb ++ concat flagged_ints
                   ++ [x01; x00; x00; x00] ++ [x01; x00; x00; x00]
                   ++ [x01; x00; x00; x00]))
    end
  | CustomDataSection label _ =>
    lb <-- _to_bytes (len label) ;; Raise (NameError "label")
  end.

(** ** Decoding of sections *)

(** [count + 4 if (type_[0] == 1 and count > 0x40) else count] *)
Definition regular_count (t0 : byte) (count : Z) : Z :=
  if (byte_to_Z t0 =? 1) && (count >? 0x40) then count + 4 else count.

(** [count + 4 if count > 0x40 else count] *)
Definition nameless_count (count : Z) : Z :=
  if count >? 0x40 then count + 4 else count.

Definition parse_regular_section (fuel : nat) : M FileSection :=
  p <- tell ;;
  print (MsgNewSection "FILE SECTION" p) ;;
  t <- read 4 ;;
  print (MsgSectionType t) ;;
  if bytes_eqb t [x10; x00; x00; x00] then ret EmptyFileSection
  else
    count <- _parse_int32 ;;
    match t with
    | [] => raise IndexError
    | t0 :: _ =>
      let count := regular_count t0 count in
      print (MsgExpected count) ;;
      elements <- parse_n_elements fuel count ;;
      ret (RegularFileSection (byte_to_Z t0) elements)
    end.

Definition parse_nameless_section (fuel : nat) : M FileSection :=
  p <- tell ;;
  print (MsgNewSection "NAMELESS SECTION" p) ;;
  count <- _parse_int32 ;;
  let count := nameless_count count in
  print (MsgExpected count) ;;
  elements <- parse_n_elements fuel count ;;
  ret (NamelessSection (-1) elements).

Definition parse_multisection (fuel : nat) : M FileSection :=
  p <- tell ;;
  print (MsgNewSection "MULTISECTION" p) ;;
  count <- _parse_int32 ;;
  print (MsgSubsectionCnt count) ;;
  res <- repeatM (Z.to_nat count)
           (idx <- _parse_int32 ;;
            subcount <- _parse_int32 ;;
            print (MsgSubsection idx subcount) ;;
            elements <- parse_n_elements fuel subcount ;;
            ret (idx, elements)) ;;
  ret (MultiSection res).

(** [sum(len(d) for d in data)] *)
Definition total_len (data : list bytes) : Z :=
  fold_right (fun d acc => len d + acc) 0 data.

(** The [while True] loop of [parse_compressed]. *)
Fixpoint parse_compressed_loop (fuel : nat) (data : list bytes)
  : M FileSection :=
  match fuel with
  | O => out_of_fuel
  | S fuel' =>
    chunk_size <- _parse_int32 ;;
    chunk <- read chunk_size ;;
    let data := data ++ [chunk] in
    if chunk_size <? 0x10000 then
      print (MsgChunksRead (len data) (total_len data)) ;;
      ret (CompressedSection data)
    else parse_compressed_loop fuel' data
  end.

Definition parse_compressed (fuel : nat) : M FileSection :=
  p <- tell ;;
  print (MsgNewSection "COMPRESSED SECTION" p) ;;
  parse_compressed_loop fuel [].

Definition parse_bmap : M FileSection :=
  p <- tell ;;
  print (MsgNewSection "BITMAP SECTION" p) ;;
  t <- _parse_int32 ;;
  w <- _parse_int32 ;;
  h <- _parse_int32 ;;
  print (MsgBitmap t w h) ;;
  data <- repeatM (Z.to_nat (w * h)) _parse_int32 ;;
  ret (BitmapSection t (w, h) data).

Definition parse_pairs_section : M FileSection :=
  p <- tell ;;
  print (MsgNewSection "PAIRS SECTION" p) ;;
  magic <- read 4 ;;
  assert (bytes_eqb magic [xa5; xa5; x00; x00]) ;;
  count <- _parse_int32 ;;
  print (MsgNoPairs count) ;;
  entries <- repeatM (Z.to_nat count) (read 10) ;;
  ret (PairsSection entries).

Definition parse_weird_constant_data : M FileSection :=
  p <- tell ;;
  print (MsgNewSection "Weird constant data SECTION" p) ;;
  len_bytes <- _parse_int32 ;;
  bytes_ <- read len_bytes ;;
  len_tuples <- _parse_int32 ;;
  tuples <- repeatM (Z.to_nat len_tuples) (read 5) ;;
  trailer <- read 12 ;;
  assert (bytes_eqb trailer
            ([x01; x00; x00; x00] ++ [x01; x00; x00; x00]
               ++ [x01; x00; x00; x00])) ;;
  ret (AlmostConstantSection BuiltinBytesType tuples).

Definition parse_custom_data (fuel : nat) : M FileSection :=
  p <- tell ;;
  print (MsgNewSection "CUSTOMDATA SECTION" p) ;;
  len_label <- _parse_int32 ;;
  label <- read len_label ;;
  print (MsgLabel label) ;;
  count <- _parse_int32 ;;
  print (MsgExpected count) ;;
  elements <- parse_n_elements fuel count ;;
  ret (CustomDataSection label elements).

(** ** The strict document parse *)

(** [isinstance(section, RegularFileSection) and not section.elements];
    [NamelessSection] is a subclass of [RegularFileSection]. *)
Definition regular_and_empty (section : FileSection) : bool :=
  match section with
  | RegularFileSection _ [] => true
  | NamelessSection _ [] => true
  | _ => false
  end.

(** Stage 1, the [while True] loop of [parse_civ6save]. *)
Fixpoint stage1 (loop_fuel fuel : nat) (result : list FileSection)
  : M (list FileSection) :=
  match loop_fuel with
  | O => out_of_fuel
  | S loop_fuel' =>
    section <- parse_regular_section fuel ;;
    let result := result ++ [section] in
    if regular_and_empty section then ret result
    else stage1 loop_fuel' fuel result
  end.

(** Stages 0 to 8: everything before the end-of-file check. *)
Definition parse_stages (fuel : nat) : M (list FileSection) :=
  magic <- read 4 ;;
  assert (bytes_eqb magic [x43; x49; x56; x36]) ;;
  result <- stage1 fuel fuel [] ;;
  s2 <- parse_multisection fuel ;;
  s3 <- parse_nameless_section fuel ;;
  s4 <- parse_compressed fuel ;;
  s5 <- parse_bmap ;;
  s6 <- parse_pairs_section ;;
  s7 <- parse_weird_constant_data ;;
  s8 <- parse_custom_data fuel ;;
  ret (result ++ [s2; s3; s4; s5; s6; s7; s8]).

(** The last lines of [parse_civ6save]: the cursor against the length of
    the stream. *)
Definition check_end_of_file {A} (result : A) : M A :=
  after_parsing_at <- tell ;;
  seek_end ;;
  file_end_at <- tell ;;
  if negb (after_parsing_at =? file_end_at) then
    raise (RuntimeError (FinishedBeforeEOF after_parsing_at file_end_at))
  else ret result.

Definition parse_civ6save (fuel : nat) : M (list FileSection) :=
  result <- parse_stages fuel ;;
  check_end_of_file result.

(** ** The scan fallback *)

(** The body of [while (tag_bytes := input_buffer.read(4)) is not None]:
    [read] returns a byte string, never [None], so the test always holds. *)
Fixpoint scan_loop (loop_fuel fuel : nat) (result : list (GameElement + bytes))
  (elements_since : Z) : M (list (GameElement + bytes)) :=
  match loop_fuel with
  | O => out_of_fuel
  | S loop_fuel' =>
    tag_bytes <- read 4 ;;
    skip_target_pos <- tell ;;
    marker <- _parse_marker (Some tag_bytes) ;;
    element <- parse_element fuel marker ;;
    match element with
    | None =>
      let result := result ++ [inr tag_bytes] in
      (if elements_since =? 0 then ret tt
       else print (MsgPlus elements_since)) ;;
      print (MsgSkipped (skip_target_pos - 4) tag_bytes) ;;
      if bytes_eqb tag_bytes [x00; x00; x01; x00] then ret result
      else seek skip_target_pos ;; scan_loop loop_fuel' fuel result 0
    | Some e =>
      scan_loop loop_fuel' fuel (result ++ [inl e]) (elements_since + 1)
    end
  end.

Definition parse_jack_shit (fuel : nat) : M (list (GameElement + bytes)) :=
  magic <- read 4 ;;
  assert (bytes_eqb magic [x43; x49; x56; x36]) ;;
  scan_loop fuel fuel [] 0.

(** Running a decoder on a fresh stream. *)
Definition start (stream : bytes) : world := mkWorld stream 0 [].
Definition run {A} (m : M A) (stream : bytes) : outcome A * world :=
  m (start stream).

(** ** Sample streams *)

Definition u32 (x : Z) : bytes := le_digits 4 x.

Definition magic : bytes := [x43; x49; x56; x36].

Definition sample_tag : bytes := [x01; x02; x03; x04].

(** A Boolean element (type code 1) with value [v], marker included. *)
Definition sample_bool (v : Z) : bytes :=
  sample_tag ++ u32 0x1 ++ zeros 8 ++ u32 v.

(** An Int32 element (type code 2) with value [v], marker included. *)
Definition sample_int (v : Z) : bytes :=
  sample_tag ++ u32 0x2 ++ zeros 8 ++ u32 v.

(** Stages 2 to 8 at their smallest: no subsections, no elements, one empty
    chunk, an empty bitmap, no pairs, an empty blob with the trailer, and an
    unlabelled custom data section. *)
Definition sample_tail : bytes :=
  u32 0 ++ u32 0 ++ u32 0
  ++ (u32 7 ++ u32 0 ++ u32 0)
  ++ ([xa5; xa5; x00; x00] ++ u32 0)
  ++ (u32 0 ++ u32 0 ++ u32 1 ++ u32 1 ++ u32 1)
  ++ (u32 0 ++ u32 0).

(** A document whose only stage-1 element is a Boolean holding 2. *)
Definition sample_document : bytes :=
  magic
  ++ ([x02; x00; x00; x00] ++ u32 1 ++ sample_bool 2)
  ++ ([x03; x00; x00; x00] ++ u32 0)
  ++ sample_tail.

(** Events that touch the file system. *)
Definition is_file_event (e : event) : bool :=
  match e with
  | Print _ => false
  | OpenWB _ => true
  | FileWrite _ _ => true
  end.

Definition file_events (t : list event) : list event :=
  filter is_file_event t.

(** The count rule as the specification words it: add 4 when the type
    code's low byte is 1 and the raw count is at least [0x40]. *)
Definition spec_regular_count (low_byte raw : Z) : Z :=
  if (low_byte =? 1) && (raw >=? 0x40) then raw + 4 else raw.

(** The world after [parse_n_elements] has reported a failed element: the
    two lines it prints are added to the trace. *)
Definition reported (m : Marker) (w : world) : world :=
  mkWorld (input_buffer w) (position w)
          (trace w ++ [Print (MsgErrorAt (Z.of_nat (position w)));
                       Print (MsgFailTag m)]).

(** The type codes for which [parse_element] has a [case]. *)
Definition has_case (t : Z) : bool :=
  existsb (Z.eqb t)
          [0x1; 0x2; 0x3; 0x4; 0x5; 0x6; 0xA; 0xB; 0xD; 0x14; 0x18].

(** The bodies of the two loops of [parse_element] that decode the children
    of an array: a child of a NamedArray ([0xA]) has a marker of its own, an
    entry of a TypedArray ([0xB]) only a type code. *)
Definition array_child (fuel : nat) : M (option GameElement) :=
  element_marker <- _parse_marker None ;;
  parse_element fuel element_marker.

Definition array_entry (fuel : nat) : M (option GameElement) :=
  entry_type <- _parse_int32 ;;
  parse_element fuel (Some (mkMarker [x00; x00; x00; x00] entry_type)).

(** The world in which the scan resumes after a failed decode at [tag]:
    the cursor is back right after the tag and the skip has been printed. *)
Definition resynchronized (tag : bytes) (elements_since : Z)
  (after_tag after_decode : world) : world :=
  mkWorld (input_buffer after_decode)
          (Z.to_nat (Z.of_nat (position after_tag)))
          (trace after_decode
             ++ (if elements_since =? 0 then []
                 else [Print (MsgPlus elements_since)])
             ++ [Print (MsgSkipped (Z.of_nat (position after_tag) - 4) tag)]).

(** The world after stage 1 has read the 4 bytes [10 00 00 00]. *)
Definition after_sentinel (w : world) : world :=
  mkWorld (input_buffer w) (position w + 4)
          (trace w ++ [Print (MsgNewSection "FILE SECTION"
                                (Z.of_nat (position w)));
                       Print (MsgSectionType [x10; x00; x00; x00])]).

(** A regular section that holds at least one element. *)
Definition nonempty_regular (s : FileSection) : Prop :=
  exists t e es, s = RegularFileSection t (e :: es).

(** Whether the byte [x] occurs in a byte string. *)
Definition has_byte (x : byte) (bs : bytes) : bool :=
  existsb (Byte.eqb x) bs.

(** A CompressedBlob element: marker with type code [0x18], then a ByteData
    of stride 1 holding a 4-byte header, the inflated size and one chunk of
    two bytes. *)
Definition sample_blob : bytes :=
  sample_tag ++ u32 0x18
  ++ [x0e; x00; x00] ++ [x21] ++ u32 1
  ++ ([xd1; xd2; xd3; xd4] ++ u32 5 ++ u32 2 ++ [xe1; xe2]).

(** A stream in which the byte [0x18] does not occur. *)
Definition clean (w : world) : Prop := ~ In x18 (input_buffer w).

(** [quiet P m]: on a stream without the byte [0x18], [m] leaves the stream
    and the file events as they are, and what it returns satisfies [P]. *)
Definition quiet {A} (P : A -> Prop) (m : M A) : Prop :=
  forall w r w',
    clean w -> m w = (r, w') ->
    input_buffer w' = input_buffer w /\
    file_events (trace w') = file_events (trace w) /\
    match r with Ok a => P a | _ => True end.

(** A marker, if any, whose type code is not that of a CompressedBlob. *)
Definition not_a_blob (mk : option Marker) : Prop :=
  forall m, mk = Some m -> type_ m <> 0x18.

(** The number of bytes between the cursor and the end of the stream. *)
Definition bytes_left (w : world) : nat := length (remaining w).

(** [safe k m]: started with fewer than [k] bytes left, [m] does not run
    out of fuel and does not move the cursor backwards. *)
Definition safe {A} (k : nat) (m : M A) : Prop :=
  forall w r w',
    (bytes_left w < k)%nat -> m w = (r, w') ->
    r <> OutOfFuel /\ (bytes_left w' <= bytes_left w)%nat.

(** [consuming k m]: started with fewer than [k] bytes left, [m] returns
    only after it has moved the cursor forwards. *)
Definition consuming {A} (k : nat) (m : M A) : Prop :=
  forall w a w',
    (bytes_left w < k)%nat -> m w = (Ok a, w') ->
    (bytes_left w' < bytes_left w)%nat.

(** The only files the decoder touches are its two dumps. *)
Definition is_debug_dump (e : event) : bool :=
  match e with
  | Print _ => true
  | OpenWB f => String.eqb f "debug.bin" || String.eqb f "debug2.bin"
  | FileWrite f _ => String.eqb f "debug.bin" || String.eqb f "debug2.bin"
  end.

(** [dumps_only m]: [m] only adds to the trace, and what it adds are
    printed lines and accesses to the two dumps. *)
Definition dumps_only {A} (m : M A) : Prop :=
  forall w r w',
    m w = (r, w') ->
    exists evs,
      trace w' = trace w ++ evs /\
      Forall (fun e => is_debug_dump e = true) evs.

(** ** Further functions of the module *)

(** [raw_byte_analysis]: the [for] loop with its two variables, then the
    function.  The input is what the scan returns, elements and raw
    fragments; the output lists the fragments with, before each, the number
    of elements since the previous one when that number is not zero. *)
Fixpoint raw_byte_analysis_loop (l : list (GameElement + bytes))
  (res : list (Z + bytes)) (since_last_elem : Z) : list (Z + bytes) :=
  match l with
  | [] => res
  | inr elem :: rest =>
    let res :=
      if since_last_elem =? 0 then res else res ++ [inl since_last_elem] in
    raw_byte_analysis_loop rest (res ++ [inr elem]) 0
  | inl _ :: rest => raw_byte_analysis_loop rest res (since_last_elem + 1)
  end.

Definition raw_byte_analysis (l : list (GameElement + bytes))
  : list (Z + bytes) :=
  raw_byte_analysis_loop l [] 0.

Section Uncompressed.

(** [CompressedElement._inflate] runs zlib over the chunks; the
    decompressor is outside the module and is taken as given. *)
Variable inflate : list bytes -> outcome bytes.

(** [GameElement.serialize_uncompressed]: every class returns
    [self.serialize()], except [CompressedElement], which serializes its
    marker and then a [ByteData] of the header and the inflated
    content. *)
Definition serialize_uncompressed (self : GameElement) : outcome bytes :=
  match self with
  | CompressedElement m header _ chunks =>
    mb <-- Marker_serialize m ;;
    content <-- inflate chunks ;;
    cb <-- ByteData_serialize (mkByteData (header ++ content) 1) ;;
    Ok (mb ++ cb)
  | _ => serialize self
  end.

End Uncompressed.

(** ** Vocabulary of the further properties *)

(** The marker an element carries. *)
Definition marker_of (e : GameElement) : Marker :=
  match e with
  | IntElement m _ => m
  | UnknownStringElement m _ => m
  | StringElement m _ => m
  | UtfStringElement m _ => m
  | Unknown16Bytes m _ => m
  | TimestampElement m _ => m
  | Unknown12Bytes m _ => m
  | BooleanElement m _ => m
  | CompressedElement m _ _ _ => m
  | Array0AElement m _ => m
  | Array0BElement m _ _ => m
  end.

Definition is_u32 (v : Z) : bool := (0 <=? v) && (v <? 2 ^ 32).

(** What holds of an element that the decoder has built: the class fits the
    type code of the marker, numbers are 32-bit, a Boolean is 0 or 1, the
    strides are those asserted, fixed-size payloads are no longer than
    their size, and the children of an anonymous array carry the all-zero
    name. *)
Fixpoint well_decoded (e : GameElement) : bool :=
  match e with
  | IntElement m v => (type_ m =? 0x2) && is_u32 v
  | UnknownStringElement m header =>
    ((type_ m =? 0x4) || (type_ m =? 0x5)) && (len header <=? 8)
  | StringElement m content =>
    ((type_ m =? 0x4) || (type_ m =? 0x5)) && (b_per_element content =? 1)
  | UtfStringElement m content =>
    (type_ m =? 0x6) && (b_per_element content =? 2)
  | Unknown16Bytes m content => (type_ m =? 0xD) && (len content <=? 16)
  | TimestampElement m epoch => (type_ m =? 0x14) && is_u32 epoch
  | Unknown12Bytes m content => (type_ m =? 0x3) && (len content <=? 12)
  | BooleanElement m v => (type_ m =? 0x1) && ((v =? 0) || (v =? 1))
  | CompressedElement m header inflated_size _ =>
    (type_ m =? 0x18) && (len header <=? 4) && is_u32 inflated_size
  | Array0AElement m elements =>
    (type_ m =? 0xA)
    && forallb (fun o => match o with
                         | None => true
                         | Some x => well_decoded x
                         end) elements
  | Array0BElement m header content =>
    (type_ m =? 0xB) && (len header <=? 8)
    && forallb (fun o => match o with
                         | None => true
                         | Some x =>
                           well_decoded x
                           && bytes_eqb (name (marker_of x))
                                        [x00; x00; x00; x00]
                         end) content
  end.

(** The raw fragments of a scan result or of its analysis, in order. *)
Definition fragments {A} (l : list (A + bytes)) : list bytes :=
  flat_map (fun x => match x with inl _ => [] | inr f => [f] end) l.

(** The counts of an analysis, in order. *)
Definition counts (l : list (Z + bytes)) : list Z :=
  flat_map (fun x => match x with inl n => [n] | inr _ => [] end) l.

(** The number of elements of a scan result. *)
Definition element_count (l : list (GameElement + bytes)) : Z :=
  len (filter (fun x => match x with inl _ => true | inr _ => false end) l).

Definition sum_Z (l : list Z) : Z := fold_right Z.add 0 l.

(** A chunk list that [parse_compressed] stops on at its last chunk: every
    chunk before the last is at least [0x10000] bytes long, the last one is
    shorter. *)
Fixpoint framed (data : list bytes) : bool :=
  match data with
  | [] => false
  | [c] => len c <? 0x10000
  | c :: rest => (0x10000 <=? len c) && (len c <? 2 ^ 32) && framed rest
  end.

(** An anonymous array (type code [0xB]) of two children, body only: the
    8-byte header, the count, a Boolean holding 1 and a named array
    (type code [0xA]) of one Int32 element. *)
Definition sample_nested_body : bytes :=
  [xf0; xf1; xf2; xf3; xf4; xf5; xf6; xf7] ++ u32 2
  ++ (u32 0x1 ++ zeros 8 ++ u32 1)
  ++ (u32 0xA ++ [x00; x00; x00; x05; x00; x00; x00; x00] ++ u32 1
        ++ sample_int 7).

Definition sample_nested : GameElement :=
  Array0BElement (mkMarker sample_tag 0xB)
    [xf0; xf1; xf2; xf3; xf4; xf5; xf6; xf7]
    [Some (BooleanElement (mkMarker [x00; x00; x00; x00] 0x1) 1);
     Some (Array0AElement (mkMarker [x00; x00; x00; x00] 0xA)
             [Some (IntElement (mkMarker sample_tag 0x2) 7)])].

(** A section whose [serialize] does not give a byte string: it raises or
    returns [None]. *)
Definition gives_no_bytes (s : FileSection) : Prop :=
  forall r, section_serialize s <> Ok (Some r).

(** * Properties *)

(** ** Reasoning about the monad *)

Lemma bind_ok {A B} (m : M A) (f : A -> M B) w r w' :
  bind m f w = (Ok r, w') ->
  exists a w1, m w = (Ok a, w1) /\ f a w1 = (Ok r, w').
Proof.
  unfold bind. destruct (m w) as [[a | e |] w1]; intros H; try discriminate.
  exists a, w1. split; [reflexivity | exact H].
Qed.

Lemma bind_step {A B} (m : M A) (f : A -> M B) w a w1 :
  m w = (Ok a, w1) -> bind m f w = f a w1.
Proof. intros H. unfold bind. rewrite H. reflexivity. Qed.

(** Taking apart a hypothesis that says a computation returned. *)
Ltac ok_inv H :=
  lazymatch type of H with
  | bind _ _ _ = (Ok _, _) =>
    let a := fresh "a" in
    let w1 := fresh "w" in
    let H1 := fresh "Hm" in
    let H2 := fresh "Hk" in
    apply bind_ok in H; destruct H as (a & w1 & H1 & H2)
  | ret _ _ = (Ok _, _) =>
    unfold ret in H; injection H as H; subst
  | raise _ _ = (Ok _, _) => discriminate H
  | out_of_fuel _ = (Ok _, _) => discriminate H
  end.

(** Deciding the tests on a type code that is known. *)
Ltac decide_type_tests :=
  repeat match goal with
         | |- context [?a =? ?k] =>
           let v := eval vm_compute in (a =? k) in
           match v with
           | true => change (a =? k) with true
           | false => change (a =? k) with false
           end
         end;
  cbn [orb]; cbv iota.

Lemma repeatM_length {A} (body : M A) n :
  forall w l w', repeatM n body w = (Ok l, w') -> length l = n.
Proof.
  induction n as [| n IH]; intros w l w' H; simpl in H.
  - ok_inv H. subst. reflexivity.
  - ok_inv H. ok_inv Hk. ok_inv Hk0. simpl. f_equal. eauto.
Qed.

(** The first [k] turns of a loop of [k + n] turns. *)
Lemma repeatM_app {A} (body : M A) n k :
  forall w l wk,
    repeatM k body w = (Ok l, wk) ->
    repeatM (k + n) body w
    = bind (repeatM n body) (fun rest => ret (l ++ rest)) wk.
Proof.
  induction k as [| k IH]; intros w l wk H; cbn [repeatM Nat.add] in *.
  - ok_inv H. unfold bind, ret.
    destruct (repeatM n body wk) as [[r | e |] w1]; reflexivity.
  - apply bind_ok in H. destruct H as (x & w1 & Hx & H).
    apply bind_ok in H. destruct H as (xs & w2 & Hxs & H).
    ok_inv H. rewrite (bind_step _ _ _ _ _ Hx).
    unfold bind at 1. rewrite (IH _ _ _ Hxs). unfold bind, ret.
    destruct (repeatM n body wk) as [[r | e |] w3]; reflexivity.
Qed.

(** A loop raises in the turn that follows the turns that returned. *)
Lemma repeatM_raise_inv {A} (body : M A) n :
  forall w e w',
    repeatM n body w = (Raise e, w') ->
    exists k l wk,
      (k < n)%nat /\ repeatM k body w = (Ok l, wk) /\
      body wk = (Raise e, w').
Proof.
  induction n as [| n IH]; intros w e w' H; cbn [repeatM] in H.
  - discriminate H.
  - unfold bind at 1 in H. destruct (body w) as [[x | e0 |] w1] eqn:Hb.
    + unfold bind in H.
      destruct (repeatM n body w1) as [[xs | e1 |] w2] eqn:Hr;
        try discriminate H.
      injection H as -> ->.
      apply IH in Hr. destruct Hr as (k & l & wk & Hlt & Hp & Hs).
      exists (S k), (x :: l), wk. split; [lia |]. split; [| exact Hs].
      cbn [repeatM].
      rewrite (bind_step _ _ _ _ _ Hb), (bind_step _ _ _ _ _ Hp).
      reflexivity.
    + injection H as -> ->. exists 0%nat, [], w.
      split; [lia |]. split; [reflexivity | exact Hb].
    + discriminate H.
Qed.

Lemma repeatM_prefix_raise {A} (body : M A) n k w l wk e w' :
  (k < n)%nat ->
  repeatM k body w = (Ok l, wk) ->
  body wk = (Raise e, w') ->
  repeatM n body w = (Raise e, w').
Proof.
  intros Hlt Hp Hs.
  replace n with (k + S (n - S k))%nat by lia.
  rewrite (repeatM_app _ _ _ _ _ _ Hp). cbn [repeatM].
  unfold bind. rewrite Hs. reflexivity.
Qed.

(** Every entry of the list a loop returns is what its turn returned. *)
Lemma repeatM_ok_nth {A} (body : M A) (d : A) n :
  forall w l w',
    repeatM n body w = (Ok l, w') ->
    forall k, (k < n)%nat ->
      exists wk wk',
        repeatM k body w = (Ok (firstn k l), wk) /\
        body wk = (Ok (nth k l d), wk').
Proof.
  induction n as [| n IH]; intros w l w' H k Hk; [lia |].
  cbn [repeatM] in H.
  apply bind_ok in H. destruct H as (x & w1 & Hx & H).
  apply bind_ok in H. destruct H as (xs & w2 & Hxs & H).
  ok_inv H. destruct k as [| k].
  - exists w, w1. split; [reflexivity | exact Hx].
  - destruct (IH _ _ _ Hxs k ltac:(lia)) as (wk & wk' & Hp & Hs).
    exists wk, wk'. split; [| exact Hs].
    cbn [repeatM firstn].
    rewrite (bind_step _ _ _ _ _ Hx), (bind_step _ _ _ _ _ Hp).
    reflexivity.
Qed.

(** ** Byte strings and reads *)

Lemma byte_to_Z_range x : 0 <= byte_to_Z x < 256.
Proof.
  unfold byte_to_Z. pose proof (Byte.to_N_bounded x) as H. lia.
Qed.

Lemma from_bytes_le_nonneg bs : 0 <= from_bytes_le bs.
Proof.
  induction bs as [| x r IH]; cbn [from_bytes_le]; [lia |].
  pose proof (byte_to_Z_range x). lia.
Qed.

Lemma byte_to_Z_inj x y : byte_to_Z x = byte_to_Z y -> x = y.
Proof.
  unfold byte_to_Z. intros H. apply N2Z.inj in H.
  pose proof (Byte.of_to_N x) as Hx. pose proof (Byte.of_to_N y) as Hy.
  rewrite H in Hx. congruence.
Qed.

Lemma bytes_eqb_eq a : forall c, bytes_eqb a c = true <-> a = c.
Proof.
  induction a as [| x a IH]; intros [| y c]; simpl; split; intros H;
    try reflexivity; try discriminate.
  - apply andb_true_iff in H. destruct H as [Hx Ha].
    apply Byte.byte_dec_bl in Hx. apply IH in Ha. congruence.
  - injection H as -> ->. apply andb_true_iff. split.
    + apply Byte.byte_dec_lb. reflexivity.
    + apply IH. reflexivity.
Qed.

Lemma slice_to_app (a r : bytes) n :
  n = len a -> slice_to n (a ++ r) = a.
Proof.
  intros ->. unfold slice_to, len. rewrite length_app.
  rewrite Z.min_l by lia. rewrite Nat2Z.id.
  rewrite firstn_app, Nat.sub_diag, firstn_all. simpl. apply app_nil_r.
Qed.

Lemma remaining_advance a r w :
  remaining w = a ++ r -> remaining (advance (length a) w) = r.
Proof.
  unfold remaining, advance. simpl. intros H.
  rewrite Nat.add_comm, <- skipn_skipn, H.
  rewrite skipn_app, Nat.sub_diag, skipn_all. reflexivity.
Qed.

(** Reading [n] bytes when at least [n] are left. *)
Lemma read_app a r n w :
  remaining w = a ++ r -> n = len a ->
  read n w = (Ok a, advance (length a) w).
Proof.
  intros H ->. unfold read.
  assert ((len a <? 0) = false) as -> by (apply Z.ltb_ge; unfold len; lia).
  rewrite H. rewrite slice_to_app by reflexivity. reflexivity.
Qed.

(** Reading at the end of the stream gives the empty byte string. *)
Lemma read_eof n w :
  remaining w = [] -> read n w = (Ok [], advance 0 w).
Proof.
  intros H. unfold read. rewrite H.
  destruct (n <? 0); [reflexivity |].
  unfold slice_to. rewrite firstn_nil. reflexivity.
Qed.

(** ** Encoding: the serializers raise *)

Lemma serialize_raises (e : GameElement) : exists x, serialize e = Raise x.
Proof. destruct e; simpl; eauto. Qed.

Lemma join_serialize_ok elements r :
  join_serialize elements = Ok r -> elements = [] /\ r = [].
Proof.
  destruct elements as [| [e |] rest]; simpl; intros H.
  - injection H as <-. split; reflexivity.
  - destruct (serialize_raises e) as [x Hx]. rewrite Hx in H. discriminate.
  - discriminate.
Qed.

(** C1.  A well-formed Boolean element and a MultiSection without
    subsections both decode, and serializing what was decoded raises instead
    of giving the bytes back; no element at all can be serialized. *)
Theorem roundtrip_breaks_in_serialize :
  (forall e : GameElement, exists x, serialize e = Raise x) /\
  fst (run (parse_n_elements 1 1) (sample_bool 1))
    = Ok [Some (BooleanElement (mkMarker sample_tag 1) 1)] /\
  serialize (BooleanElement (mkMarker sample_tag 1) 1) = Raise TypeError /\
  fst (run (parse_multisection 1) (u32 0)) = Ok (MultiSection []) /\
  section_serialize (MultiSection []) = Raise (AttributeError "elements").
Proof.
  split; [exact serialize_raises |].
  repeat split; vm_compute; reflexivity.
Qed.

(** ** The count rule of regular sections *)

Lemma regular_count_spec t0 raw :
  regular_count t0 raw =
  if Byte.eqb t0 x01 && (raw =? 0x40) then 0x40
  else spec_regular_count (byte_to_Z t0) raw.
Proof.
  unfold regular_count, spec_regular_count.
  destruct (Byte.eqb t0 x01) eqn:Et.
  - apply Byte.byte_dec_bl in Et. subst t0.
    change (byte_to_Z x01) with 1. simpl.
    destruct (raw =? 64) eqn:E.
    + apply Z.eqb_eq in E. subst. reflexivity.
    + apply Z.eqb_neq in E.
      destruct (raw >? 64) eqn:E1, (raw >=? 64) eqn:E2; try reflexivity; lia.
  - assert ((byte_to_Z t0 =? 1) = false) as ->.
    { apply Z.eqb_neq. intros H. change 1 with (byte_to_Z x01) in H.
      apply byte_to_Z_inj in H. subst.
      vm_compute in Et. discriminate. }
    reflexivity.
Qed.

(** C3.  The decoder's count is the specified one everywhere except at type
    byte 1 with raw count [0x40], where it keeps [0x40] instead of [0x44];
    the encoder's adjustment then reports [0x3C] for that section.  On a
    stream of type byte 1, raw count [0x40] and 68 elements, the section
    takes 64 of them. *)
Theorem regular_count_misses_0x40 :
  (forall t0 raw,
     regular_count t0 raw =
     if Byte.eqb t0 x01 && (raw =? 0x40) then 0x40
     else spec_regular_count (byte_to_Z t0) raw) /\
  regular_count x01 0x40 = 0x40 /\
  spec_regular_count 1 0x40 = 0x44 /\
  regular_count x01 0x41 = 0x45 /\
  regular_count x02 0x41 = 0x41 /\
  reported_size 1 (regular_count x01 0x40) = 0x3C /\
  fst (run (parse_regular_section 1)
         ([x01; x00; x00; x00] ++ u32 0x40
            ++ concat (repeat (sample_int 7) 68)))
    = Ok (RegularFileSection 1
            (repeat (Some (IntElement (mkMarker sample_tag 2) 7)) 64)).
Proof.
  split; [exact regular_count_spec |].
  repeat split; vm_compute; reflexivity.
Qed.

(** ** Zero-length strings *)

(** C5.  With element count 0 and a header byte other than [0x21], the
    decoder returns the 8 bytes it has read as a header whatever the next
    4 bytes are: they are consumed and not checked. *)
Theorem zero_length_string_tail_unchecked w h bpe tail rest :
  remaining w = [x00; x00; x00] ++ [h] ++ bpe ++ tail ++ rest ->
  h <> x21 -> length bpe = 4%nat -> length tail = 4%nat ->
  _read_byte_data w = (Ok (inr ([x00; x00; x00] ++ [h] ++ bpe)), advance 12 w).
Proof.
  intros Hrem Hh Hb Ht. unfold _read_byte_data.
  rewrite (bind_step _ _ _ _ _ (read_app _ _ 3 _ Hrem eq_refl)).
  apply remaining_advance in Hrem.
  rewrite (bind_step _ _ _ _ _ (read_app _ _ 1 _ Hrem eq_refl)).
  apply remaining_advance in Hrem.
  assert (bytes_eqb [h] [x21] = false) as ->.
  { destruct (bytes_eqb [h] [x21]) eqn:E; [| reflexivity].
    apply bytes_eqb_eq in E. congruence. }
  change (from_bytes_le [x00; x00; x00] =? 0) with true. cbv iota.
  assert (4 = len bpe) as Hb' by (unfold len; lia).
  rewrite (bind_step _ _ _ _ _ (read_app _ _ 4 _ Hrem Hb')).
  apply remaining_advance in Hrem.
  assert (4 = len tail) as Ht' by (unfold len; lia).
  rewrite (bind_step _ _ _ _ _ (read_app _ _ 4 _ Hrem Ht')).
  unfold ret, advance. simpl. rewrite Hb, Ht.
  f_equal. f_equal. lia.
Qed.

Lemma zero_length_string_tail_unchecked_witness :
  _read_byte_data (start ([x00; x00; x00; x00] ++ u32 1 ++ [xff; xff; xff; xff]))
  = (Ok (inr [x00; x00; x00; x00; x01; x00; x00; x00]),
     mkWorld ([x00; x00; x00; x00] ++ u32 1 ++ [xff; xff; xff; xff]) 12 []).
Proof.
  apply (zero_length_string_tail_unchecked
           (start ([x00; x00; x00; x00] ++ u32 1 ++ [xff; xff; xff; xff]))
           x00 (u32 1) [xff; xff; xff; xff] []).
  - reflexivity.
  - discriminate.
  - reflexivity.
  - reflexivity.
Defined.

(** ** The end-of-file check *)

(** C7.  Once the stages have returned their sections, the document parse
    returns them when the cursor is at the end of the stream and raises the
    end-of-file [RuntimeError] at any other cursor position. *)
Theorem end_of_file_postcondition fuel w result w' :
  parse_stages fuel w = (Ok result, w') ->
  fst (parse_civ6save fuel w) =
  if Z.of_nat (position w') =? len (input_buffer w') then Ok result
  else Raise (RuntimeError
                (FinishedBeforeEOF (Z.of_nat (position w'))
                                   (len (input_buffer w')))).
Proof.
  intros H. unfold parse_civ6save. rewrite (bind_step _ _ _ _ _ H).
  unfold check_end_of_file, bind, tell, seek_end, len. simpl.
  destruct (Z.of_nat (position w') =? Z.of_nat (length (input_buffer w')));
    reflexivity.
Qed.

Lemma end_of_file_postcondition_witness :
  fst (parse_civ6save 2 (start (sample_document ++ [x00]))) =
  Raise (RuntimeError (FinishedBeforeEOF 100 101)).
Proof.
  apply (end_of_file_postcondition 2 (start (sample_document ++ [x00]))
           (match fst (parse_stages 2 (start (sample_document ++ [x00])))
            with Ok r => r | _ => [] end)
           (snd (parse_stages 2 (start (sample_document ++ [x00]))))).
  vm_compute. reflexivity.
Defined.

(** ** Boolean elements *)

(** C8.  After 8 zero bytes, a Boolean element decodes to a
    [BooleanElement] exactly when the 4-byte value is 0 or 1; for any other
    value the decode prints the value with its offset and returns [None]. *)
Theorem boolean_decode_domain fuel m w vb rest :
  type_ m = 0x1 ->
  remaining w = zeros 8 ++ vb ++ rest -> length vb = 4%nat ->
  parse_element (S fuel) (Some m) w =
  if (from_bytes_le vb =? 0) || (from_bytes_le vb =? 1)
  then (Ok (Some (BooleanElement m (from_bytes_le vb))), advance 12 w)
  else (Ok None,
        mkWorld (input_buffer w) (position w + 12)
                (trace w ++ [Print (MsgBoolValue
                                      (Z.of_nat (position w + 12) - 4)
                                      (from_bytes_le vb))])).
Proof.
  intros Ht Hrem Hvb. cbn [parse_element]. rewrite Ht.
  change (1 =? 1) with true. cbv iota.
  rewrite (bind_step _ _ _ _ _ (read_app _ _ 8 _ Hrem eq_refl)).
  apply remaining_advance in Hrem.
  change (negb (bytes_eqb (zeros 8) (zeros 8))) with false. cbv iota.
  unfold _parse_int32.
  assert (4 = len vb) as Hvb' by (unfold len; lia).
  rewrite (bind_step _ _ _ _ _
             (bind_step _ _ _ _ _ (read_app _ _ 4 _ Hrem Hvb'))).
  pose proof (from_bytes_le_nonneg vb) as Hv.
  unfold ret at 1.
  destruct (from_bytes_le vb >? 1) eqn:E.
  - assert (((from_bytes_le vb =? 0) || (from_bytes_le vb =? 1)) = false)
      as ->.
    { apply orb_false_iff. split; apply Z.eqb_neq; lia. }
    unfold bind, tell, print, emit, ret, advance. simpl. rewrite Hvb.
    f_equal. f_equal; [lia |]. do 4 f_equal. lia.
  - assert (((from_bytes_le vb =? 0) || (from_bytes_le vb =? 1)) = true)
      as ->.
    { apply orb_true_iff.
      destruct (Z.eq_dec (from_bytes_le vb) 0) as [-> | Hn];
        [left; reflexivity | right; apply Z.eqb_eq; lia]. }
    assert ((from_bytes_le vb <=? 1) = true) as Hle by (apply Z.leb_le; lia).
    unfold bind, assert. rewrite Hle. unfold ret, advance. simpl.
    rewrite Hvb. f_equal. f_equal. lia.
Qed.

Lemma boolean_decode_domain_witness :
  parse_element 1 (Some (mkMarker sample_tag 1)) (start (zeros 8 ++ u32 2))
  = (Ok None,
     mkWorld (zeros 8 ++ u32 2) 12 [Print (MsgBoolValue 8 2)]).
Proof.
  apply (boolean_decode_domain 0 (mkMarker sample_tag 1)
           (start (zeros 8 ++ u32 2)) (u32 2) []).
  - reflexivity.
  - reflexivity.
  - reflexivity.
Defined.

(** ** Element lists *)

Lemma parse_n_elements_returns_n fuel n w l w' :
  0 <= n ->
  parse_n_elements fuel n w = (Ok l, w') ->
  len l = n.
Proof.
  intros Hn H. unfold parse_n_elements in H.
  apply repeatM_length in H. unfold len. lia.
Qed.

Lemma parse_element_without_case fuel nm t w :
  has_case t = false ->
  parse_element (S fuel) (Some (mkMarker nm t)) w = (Ok None, w).
Proof.
  unfold has_case. cbn [existsb]. intros H.
  repeat (apply orb_false_iff in H; destruct H as [? H]).
  cbn [parse_element type_].
  repeat match goal with
         | E : (t =? _) = false |- _ => rewrite E; clear E
         end.
  reflexivity.
Qed.

Lemma section_element_none_reported fuel n k w l wk m w1 w2 :
  parse_n_elements fuel (Z.of_nat k) w = (Ok l, wk) ->
  _parse_marker None wk = (Ok (Some m), w1) ->
  parse_element fuel (Some m) w1 = (Ok None, w2) ->
  parse_n_elements fuel (Z.of_nat (k + S n)) w =
  bind (parse_n_elements fuel (Z.of_nat n))
       (fun rest => ret (l ++ None :: rest)) (reported m w2).
Proof.
  unfold parse_n_elements. rewrite !Nat2Z.id. intros Hp Hm He.
  assert (parse_one_element fuel wk = (Ok None, reported m w2)) as Hone.
  { unfold parse_one_element.
    rewrite (bind_step _ _ _ _ _ Hm), (bind_step _ _ _ _ _ He).
    unfold bind, tell, print, emit, ret, reported. simpl.
    rewrite <- app_assoc. reflexivity. }
  rewrite (repeatM_app _ _ _ _ _ _ Hp). cbn [repeatM].
  unfold bind at 1. rewrite (bind_step _ _ _ _ _ Hone).
  unfold bind, ret.
  destruct (repeatM n (parse_one_element fuel) (reported m w2))
    as [[r | e |] w3]; reflexivity.
Qed.

Lemma array_child_none_kept fuel n k nm w wa wb l wk cm w1 w2 :
  read 8 w = (Ok [x00; x00; x00; x05; x00; x00; x00; x00], wa) ->
  _parse_int32 wa = (Ok (Z.of_nat (k + S n)), wb) ->
  repeatM k (array_child fuel) wb = (Ok l, wk) ->
  _parse_marker None wk = (Ok cm, w1) ->
  parse_element fuel cm w1 = (Ok None, w2) ->
  parse_element (S fuel) (Some (mkMarker nm 0xA)) w =
  bind (repeatM n (array_child fuel))
       (fun rest =>
          ret (Some (Array0AElement (mkMarker nm 0xA) (l ++ None :: rest))))
       w2.
Proof.
  intros Hr Hc Hp Hm He.
  assert (array_child fuel wk = (Ok None, w2)) as Hone.
  { unfold array_child. rewrite (bind_step _ _ _ _ _ Hm). exact He. }
  cbn [parse_element type_]. decide_type_tests.
  rewrite (bind_step _ _ _ _ _ Hr).
  change (bytes_eqb [x00; x00; x00; x05; x00; x00; x00; x00]
            [x00; x00; x00; x05; x00; x00; x00; x00]) with true.
  unfold bind at 1. unfold assert, ret at 1.
  rewrite (bind_step _ _ _ _ _ Hc). rewrite Nat2Z.id.
  unfold bind at 1.
  change (repeatM (k + S n) _ wb)
    with (repeatM (k + S n) (array_child fuel) wb).
  rewrite (repeatM_app _ _ _ _ _ _ Hp). cbn [repeatM].
  unfold bind at 1. rewrite (bind_step _ _ _ _ _ Hone).
  unfold bind, ret.
  destruct (repeatM n (array_child fuel) w2) as [[r | e |] w3];
    reflexivity.
Qed.

Lemma array_entry_none_kept fuel n k nm header w wa wb l wk t w1 w2 :
  read 8 w = (Ok header, wa) ->
  _parse_int32 wa = (Ok (Z.of_nat (k + S n)), wb) ->
  repeatM k (array_entry fuel) wb = (Ok l, wk) ->
  _parse_int32 wk = (Ok t, w1) ->
  parse_element fuel (Some (mkMarker [x00; x00; x00; x00] t)) w1
  = (Ok None, w2) ->
  parse_element (S fuel) (Some (mkMarker nm 0xB)) w =
  bind (repeatM n (array_entry fuel))
       (fun rest =>
          ret (Some (Array0BElement (mkMarker nm 0xB) header
                       (l ++ None :: rest))))
       w2.
Proof.
  intros Hr Hc Hp Ht He.
  assert (array_entry fuel wk = (Ok None, w2)) as Hone.
  { unfold array_entry. rewrite (bind_step _ _ _ _ _ Ht). exact He. }
  cbn [parse_element type_]. decide_type_tests.
  rewrite (bind_step _ _ _ _ _ Hr).
  rewrite (bind_step _ _ _ _ _ Hc). rewrite Nat2Z.id.
  unfold bind at 1.
  change (repeatM (k + S n) _ wb)
    with (repeatM (k + S n) (array_entry fuel) wb).
  rewrite (repeatM_app _ _ _ _ _ _ Hp). cbn [repeatM].
  unfold bind at 1. rewrite (bind_step _ _ _ _ _ Hone).
  unfold bind, ret.
  destruct (repeatM n (array_entry fuel) w2) as [[r | e |] w3];
    reflexivity.
Qed.

(** C6.  Where the decode of an element of a section returns [None],
    [parse_n_elements] prints the cursor offset and the marker, keeps [None]
    at that position and goes on with the remaining elements.  Where the
    decode of a child of an array returns [None], the array keeps [None] at
    that position and goes on with the remaining children, and prints
    nothing of its own: what the trace holds is what the child's decode
    printed.  A type code without a [case], and a missing marker, make the
    decode return [None] with the stream and the trace as they were. *)
Theorem failed_element_reported_and_kept fuel n k w :
  (forall l wk m w1 w2,
     parse_n_elements fuel (Z.of_nat k) w = (Ok l, wk) ->
     _parse_marker None wk = (Ok (Some m), w1) ->
     parse_element fuel (Some m) w1 = (Ok None, w2) ->
     parse_n_elements fuel (Z.of_nat (k + S n)) w =
     bind (parse_n_elements fuel (Z.of_nat n))
          (fun rest => ret (l ++ None :: rest)) (reported m w2)) /\
  (forall nm wa wb l wk cm w1 w2,
     read 8 w = (Ok [x00; x00; x00; x05; x00; x00; x00; x00], wa) ->
     _parse_int32 wa = (Ok (Z.of_nat (k + S n)), wb) ->
     repeatM k (array_child fuel) wb = (Ok l, wk) ->
     _parse_marker None wk = (Ok cm, w1) ->
     parse_element fuel cm w1 = (Ok None, w2) ->
     parse_element (S fuel) (Some (mkMarker nm 0xA)) w =
     bind (repeatM n (array_child fuel))
          (fun rest =>
             ret (Some (Array0AElement (mkMarker nm 0xA)
                          (l ++ None :: rest))))
          w2) /\
  (forall nm header wa wb l wk t w1 w2,
     read 8 w = (Ok header, wa) ->
     _parse_int32 wa = (Ok (Z.of_nat (k + S n)), wb) ->
     repeatM k (array_entry fuel) wb = (Ok l, wk) ->
     _parse_int32 wk = (Ok t, w1) ->
     parse_element fuel (Some (mkMarker [x00; x00; x00; x00] t)) w1
     = (Ok None, w2) ->
     parse_element (S fuel) (Some (mkMarker nm 0xB)) w =
     bind (repeatM n (array_entry fuel))
          (fun rest =>
             ret (Some (Array0BElement (mkMarker nm 0xB) header
                          (l ++ None :: rest))))
          w2) /\
  (forall nm t,
     has_case t = false ->
     parse_element (S fuel) (Some (mkMarker nm t)) w = (Ok None, w)) /\
  parse_element (S fuel) None w = (Ok None, w).
Proof.
  repeat apply conj.
  - intros l wk m w1 w2. apply section_element_none_reported.
  - intros nm wa wb l wk cm w1 w2. apply array_child_none_kept.
  - intros nm header wa wb l wk t w1 w2. apply array_entry_none_kept.
  - intros nm t. apply parse_element_without_case.
  - reflexivity.
Qed.

(** A string element whose header byte is neither [0x21] nor preceded by a
    zero count makes [_read_byte_data] raise, and with it the whole element
    list: there is no list of one entry for this stream. *)
Lemma parse_n_elements_raises :
  ~ exists fuel l w',
      parse_n_elements fuel 1
        (start (sample_tag ++ u32 0x4 ++ [x05; x00; x00; x00])) = (Ok l, w').
Proof.
  intros (fuel & l & w' & H).
  destruct fuel; vm_compute in H; discriminate.
Qed.

Lemma failed_element_reported_and_kept_witness :
  parse_n_elements 1 (Z.of_nat (1 + 2))
    (start (sample_int 7 ++ sample_bool 2 ++ sample_int 9))
  = bind (parse_n_elements 1 (Z.of_nat 1))
         (fun rest =>
            ret ([Some (IntElement (mkMarker sample_tag 2) 7)]
                   ++ None :: rest))
         (reported (mkMarker sample_tag 1)
            (mkWorld (sample_int 7 ++ sample_bool 2 ++ sample_int 9) 40
                     [Print (MsgBoolValue 36 2)])) /\
  parse_element 2 (Some (mkMarker sample_tag 0xA))
    (start ([x00; x00; x00; x05; x00; x00; x00; x00] ++ u32 2
              ++ sample_int 7 ++ sample_tag ++ u32 0x99))
  = bind (repeatM 0 (array_child 1))
         (fun rest =>
            ret (Some (Array0AElement (mkMarker sample_tag 0xA)
                         ([Some (IntElement (mkMarker sample_tag 2) 7)]
                            ++ None :: rest))))
         (mkWorld ([x00; x00; x00; x05; x00; x00; x00; x00] ++ u32 2
                     ++ sample_int 7 ++ sample_tag ++ u32 0x99) 40 []) /\
  parse_element 2 (Some (mkMarker sample_tag 0xB))
    (start (zeros 8 ++ u32 1 ++ u32 0x99))
  = bind (repeatM 0 (array_entry 1))
         (fun rest =>
            ret (Some (Array0BElement (mkMarker sample_tag 0xB) (zeros 8)
                         ([] ++ None :: rest))))
         (mkWorld (zeros 8 ++ u32 1 ++ u32 0x99) 16 []) /\
  parse_element 1 (Some (mkMarker sample_tag 0x99)) (start (u32 7))
  = (Ok None, start (u32 7)).
Proof.
  repeat apply conj.
  - apply (proj1 (failed_element_reported_and_kept 1 1 1
                    (start (sample_int 7 ++ sample_bool 2 ++ sample_int 9)))
             [Some (IntElement (mkMarker sample_tag 2) 7)]
             (mkWorld (sample_int 7 ++ sample_bool 2 ++ sample_int 9) 20 [])
             (mkMarker sample_tag 1)
             (mkWorld (sample_int 7 ++ sample_bool 2 ++ sample_int 9) 28 [])).
    + reflexivity.
    + reflexivity.
    + reflexivity.
  - apply (proj1 (proj2 (failed_element_reported_and_kept 1 0 1
             (start ([x00; x00; x00; x05; x00; x00; x00; x00] ++ u32 2
                       ++ sample_int 7 ++ sample_tag ++ u32 0x99))))
             sample_tag
             (mkWorld ([x00; x00; x00; x05; x00; x00; x00; x00] ++ u32 2
                         ++ sample_int 7 ++ sample_tag ++ u32 0x99) 8 [])
             (mkWorld ([x00; x00; x00; x05; x00; x00; x00; x00] ++ u32 2
                         ++ sample_int 7 ++ sample_tag ++ u32 0x99) 12 [])
             [Some (IntElement (mkMarker sample_tag 2) 7)]
             (mkWorld ([x00; x00; x00; x05; x00; x00; x00; x00] ++ u32 2
                         ++ sample_int 7 ++ sample_tag ++ u32 0x99) 32 [])
             (Some (mkMarker sample_tag 0x99))
             (mkWorld ([x00; x00; x00; x05; x00; x00; x00; x00] ++ u32 2
                         ++ sample_int 7 ++ sample_tag ++ u32 0x99) 40 [])).
    + reflexivity.
    + reflexivity.
    + reflexivity.
    + reflexivity.
    + reflexivity.
  - apply (proj1 (proj2 (proj2 (failed_element_reported_and_kept 1 0 0
             (start (zeros 8 ++ u32 1 ++ u32 0x99)))))
             sample_tag (zeros 8)
             (mkWorld (zeros 8 ++ u32 1 ++ u32 0x99) 8 [])
             (mkWorld (zeros 8 ++ u32 1 ++ u32 0x99) 12 [])
             []
             (mkWorld (zeros 8 ++ u32 1 ++ u32 0x99) 12 [])
             0x99
             (mkWorld (zeros 8 ++ u32 1 ++ u32 0x99) 16 [])).
    + reflexivity.
    + reflexivity.
    + reflexivity.
    + reflexivity.
    + reflexivity.
  - apply (proj1 (proj2 (proj2 (proj2
             (failed_element_reported_and_kept 0 0 0 (start (u32 7))))))
             sample_tag 0x99).
    reflexivity.
Defined.

(** The strict parse of a document whose only element is a Boolean holding
    2 returns its sections, with [None] in the place of that element; and
    an array whose only entry has a type code without a [case] decodes to
    an array holding [None], with nothing printed. *)
Lemma strict_parse_keeps_failed_element :
  fst (run (parse_civ6save 2) sample_document) =
  Ok [RegularFileSection 2 [None]; RegularFileSection 3 [];
      MultiSection []; NamelessSection (-1) []; CompressedSection [[]];
      BitmapSection 7 (0, 0) []; PairsSection [];
      AlmostConstantSection BuiltinBytesType []; CustomDataSection [] []] /\
  run (parse_n_elements 2 1)
      (sample_tag ++ u32 0xB ++ zeros 8 ++ u32 1 ++ u32 0x99)
  = (Ok [Some (Array0BElement (mkMarker sample_tag 0xB) (zeros 8) [None])],
     mkWorld (sample_tag ++ u32 0xB ++ zeros 8 ++ u32 1 ++ u32 0x99) 24 []).
Proof. split; vm_compute; reflexivity. Qed.

(** ** Stage 1 of the strict parse *)

Lemma parse_regular_section_kind fuel w s w' :
  parse_regular_section fuel w = (Ok s, w') ->
  s = EmptyFileSection \/ exists t es, s = RegularFileSection t es.
Proof.
  unfold parse_regular_section. intros H.
  ok_inv H. ok_inv Hk. ok_inv Hk0. ok_inv Hk.
  destruct (bytes_eqb a1 [x10; x00; x00; x00]).
  - ok_inv Hk0. left. reflexivity.
  - ok_inv Hk0. destruct a1 as [| t0 r]; [discriminate Hk |].
    ok_inv Hk. ok_inv Hk0. ok_inv Hk. right. eauto.
Qed.

Lemma parse_regular_section_sentinel fuel w rest :
  remaining w = [x10; x00; x00; x00] ++ rest ->
  parse_regular_section fuel w = (Ok EmptyFileSection, after_sentinel w).
Proof.
  intros Hrem. unfold parse_regular_section.
  unfold bind at 1. unfold tell at 1. unfold bind at 1. unfold print, emit.
  assert (remaining
            (mkWorld (input_buffer w) (position w)
               (trace w ++ [Print (MsgNewSection "FILE SECTION"
                                     (Z.of_nat (position w)))]))
          = [x10; x00; x00; x00] ++ rest) as Hrem' by exact Hrem.
  rewrite (bind_step _ _ _ _ _ (read_app _ _ 4 _ Hrem' eq_refl)).
  unfold bind, ret, advance, after_sentinel. simpl.
  rewrite <- app_assoc. reflexivity.
Qed.

Lemma stage1_shape loop_fuel fuel :
  forall acc w res w',
    stage1 loop_fuel fuel acc w = (Ok res, w') ->
    exists pre t,
      res = acc ++ pre ++ [RegularFileSection t []] /\
      Forall (fun s => s = EmptyFileSection \/ nonempty_regular s) pre.
Proof.
  induction loop_fuel as [| lf IH]; intros acc w res w' H; simpl in H.
  - discriminate H.
  - ok_inv H. destruct (parse_regular_section_kind _ _ _ _ Hm)
      as [-> | (t & es & ->)].
    + simpl in Hk. apply IH in Hk. destruct Hk as (pre & t & -> & Hall).
      exists (EmptyFileSection :: pre), t. split.
      * rewrite <- app_assoc. reflexivity.
      * constructor; [left; reflexivity | exact Hall].
    + destruct es as [| e es]; simpl in Hk.
      * ok_inv Hk. exists [], t. split; [reflexivity | constructor].
      * apply IH in Hk. destruct Hk as (pre & t' & -> & Hall).
        exists (RegularFileSection t (e :: es) :: pre), t'. split.
        -- rewrite <- app_assoc. reflexivity.
        -- constructor; [right; exists t, e, es; reflexivity | exact Hall].
Qed.

(** The sentinel is read first and the loop goes on to the next section;
    a section with count 0 ends it, sentinel or not. *)
Lemma stage1_passes_the_sentinel :
  fst (run (stage1 3 1 [])
         ([x10; x00; x00; x00] ++ [x02; x00; x00; x00] ++ u32 1
            ++ sample_int 7 ++ [x03; x00; x00; x00] ++ u32 0))
  = Ok [EmptyFileSection;
        RegularFileSection 2 [Some (IntElement (mkMarker sample_tag 2) 7)];
        RegularFileSection 3 []] /\
  fst (run (stage1 1 1 []) ([x03; x00; x00; x00] ++ u32 0))
  = Ok [RegularFileSection 3 []].
Proof. split; vm_compute; reflexivity. Qed.

(** ** The scan fallback *)

Lemma scan_loop_shape loop_fuel fuel :
  forall acc es w res w',
    scan_loop loop_fuel fuel acc es w = (Ok res, w') ->
    exists pre, res = acc ++ pre ++ [inr [x00; x00; x01; x00]].
Proof.
  induction loop_fuel as [| lf IH]; intros acc es w res w' H; simpl in H.
  - discriminate H.
  - ok_inv H. ok_inv Hk. ok_inv Hk0. ok_inv Hk.
    destruct a2 as [e |].
    + apply IH in Hk0. destruct Hk0 as (pre & ->).
      exists (inl e :: pre). rewrite <- app_assoc. reflexivity.
    + ok_inv Hk0. ok_inv Hk.
      destruct (bytes_eqb a [x00; x00; x01; x00]) eqn:E.
      * apply bytes_eqb_eq in E. subst a. ok_inv Hk0.
        exists []. reflexivity.
      * ok_inv Hk0. apply IH in Hk. destruct Hk as (pre & ->).
        exists (inr a :: pre). rewrite <- app_assoc. reflexivity.
Qed.

Lemma scan_loop_resynchronizes loop_fuel fuel acc es w tag w1 mk w2 w3 :
  read 4 w = (Ok tag, w1) ->
  _parse_marker (Some tag) w1 = (Ok mk, w2) ->
  parse_element fuel mk w2 = (Ok None, w3) ->
  tag <> [x00; x00; x01; x00] ->
  scan_loop (S loop_fuel) fuel acc es w =
  scan_loop loop_fuel fuel (acc ++ [inr tag]) 0 (resynchronized tag es w1 w3).
Proof.
  intros Hr Hm He Hne. cbn [scan_loop].
  rewrite (bind_step _ _ _ _ _ Hr).
  unfold bind at 1. unfold tell at 1.
  rewrite (bind_step _ _ _ _ _ Hm), (bind_step _ _ _ _ _ He).
  assert (bytes_eqb tag [x00; x00; x01; x00] = false) as Hb.
  { destruct (bytes_eqb tag [x00; x00; x01; x00]) eqn:E; [| reflexivity].
    apply bytes_eqb_eq in E. contradiction. }
  rewrite Hb. unfold resynchronized.
  destruct (es =? 0); unfold bind, print, emit, ret, seek; simpl;
    rewrite <- ?app_assoc; reflexivity.
Qed.

Lemma scan_loop_stops_at_sentinel loop_fuel fuel acc es w w1 mk w2 w3 :
  read 4 w = (Ok [x00; x00; x01; x00], w1) ->
  _parse_marker (Some [x00; x00; x01; x00]) w1 = (Ok mk, w2) ->
  parse_element fuel mk w2 = (Ok None, w3) ->
  fst (scan_loop (S loop_fuel) fuel acc es w)
  = Ok (acc ++ [inr [x00; x00; x01; x00]]).
Proof.
  intros Hr Hm He. cbn [scan_loop].
  rewrite (bind_step _ _ _ _ _ Hr).
  unfold bind at 1. unfold tell at 1.
  rewrite (bind_step _ _ _ _ _ Hm), (bind_step _ _ _ _ _ He).
  change (bytes_eqb [x00; x00; x01; x00] [x00; x00; x01; x00]) with true.
  destruct (es =? 0); reflexivity.
Qed.

Lemma scan_loop_appends_element loop_fuel fuel acc es w tag w1 mk w2 e w3 :
  read 4 w = (Ok tag, w1) ->
  _parse_marker (Some tag) w1 = (Ok mk, w2) ->
  parse_element fuel mk w2 = (Ok (Some e), w3) ->
  scan_loop (S loop_fuel) fuel acc es w =
  scan_loop loop_fuel fuel (acc ++ [inl e]) (es + 1) w3.
Proof.
  intros Hr Hm He. cbn [scan_loop].
  rewrite (bind_step _ _ _ _ _ Hr).
  unfold bind at 1. unfold tell at 1.
  rewrite (bind_step _ _ _ _ _ Hm), (bind_step _ _ _ _ _ He).
  reflexivity.
Qed.

Lemma scan_loop_aborts loop_fuel fuel acc es w tag w1 mk w2 e w3 :
  read 4 w = (Ok tag, w1) ->
  _parse_marker (Some tag) w1 = (Ok mk, w2) ->
  parse_element fuel mk w2 = (Raise e, w3) ->
  scan_loop (S loop_fuel) fuel acc es w = (Raise e, w3).
Proof.
  intros Hr Hm He. cbn [scan_loop].
  rewrite (bind_step _ _ _ _ _ Hr).
  unfold bind at 1. unfold tell at 1.
  rewrite (bind_step _ _ _ _ _ Hm).
  unfold bind. rewrite He. reflexivity.
Qed.

Lemma parse_jack_shit_checks_magic fuel w m w1 :
  read 4 w = (Ok m, w1) ->
  (m = [x43; x49; x56; x36] ->
   parse_jack_shit fuel w = scan_loop fuel fuel [] 0 w1) /\
  (m <> [x43; x49; x56; x36] ->
   parse_jack_shit fuel w = (Raise AssertionError, w1)).
Proof.
  intros Hr. unfold parse_jack_shit.
  rewrite (bind_step _ _ _ _ _ Hr). split.
  - intros ->. reflexivity.
  - intros Hne.
    destruct (bytes_eqb m [x43; x49; x56; x36]) eqn:E.
    + apply bytes_eqb_eq in E. contradiction.
    + reflexivity.
Qed.

(** C4.  The scan starts once the first 4 bytes are [CIV6]; any other
    start is an [AssertionError].  Each turn of its loop reads a tag and
    decodes an element there.  A decoded element is appended and the scan
    goes on behind it.  Where the decode returns [None], the tag is recorded
    as a fragment: the fragment [00 00 01 00] ends the scan with the list so
    far; after any other tag that was read from the stream, the scan resumes
    right behind the tag.  Where the decode raises, the scan ends with that
    exception and returns no list. *)
Theorem scan_returns_on_sentinel_fragment fuel loop_fuel acc es w :
  (forall m w1,
     read 4 w = (Ok m, w1) ->
     (m = [x43; x49; x56; x36] ->
      parse_jack_shit fuel w = scan_loop fuel fuel [] 0 w1) /\
     (m <> [x43; x49; x56; x36] ->
      parse_jack_shit fuel w = (Raise AssertionError, w1))) /\
  (forall tag w1 mk w2 e w3,
     read 4 w = (Ok tag, w1) ->
     _parse_marker (Some tag) w1 = (Ok mk, w2) ->
     parse_element fuel mk w2 = (Ok (Some e), w3) ->
     scan_loop (S loop_fuel) fuel acc es w =
     scan_loop loop_fuel fuel (acc ++ [inl e]) (es + 1) w3) /\
  (forall w1 mk w2 w3,
     read 4 w = (Ok [x00; x00; x01; x00], w1) ->
     _parse_marker (Some [x00; x00; x01; x00]) w1 = (Ok mk, w2) ->
     parse_element fuel mk w2 = (Ok None, w3) ->
     fst (scan_loop (S loop_fuel) fuel acc es w)
     = Ok (acc ++ [inr [x00; x00; x01; x00]])) /\
  (forall tag w1 mk w2 w3,
     read 4 w = (Ok tag, w1) ->
     tag <> [] ->
     _parse_marker (Some tag) w1 = (Ok mk, w2) ->
     parse_element fuel mk w2 = (Ok None, w3) ->
     tag <> [x00; x00; x01; x00] ->
     scan_loop (S loop_fuel) fuel acc es w =
     scan_loop loop_fuel fuel (acc ++ [inr tag]) 0
               (resynchronized tag es w1 w3)) /\
  (forall tag w1 mk w2 e w3,
     read 4 w = (Ok tag, w1) ->
     _parse_marker (Some tag) w1 = (Ok mk, w2) ->
     parse_element fuel mk w2 = (Raise e, w3) ->
     scan_loop (S loop_fuel) fuel acc es w = (Raise e, w3)).
Proof.
  repeat split.
  - apply (parse_jack_shit_checks_magic fuel w m w1 H).
  - apply (parse_jack_shit_checks_magic fuel w m w1 H).
  - intros tag w1 mk w2 e w3. apply scan_loop_appends_element.
  - intros w1 mk w2 w3. apply scan_loop_stops_at_sentinel.
  - intros tag w1 mk w2 w3 Hr _. apply scan_loop_resynchronizes. exact Hr.
  - intros tag w1 mk w2 e w3. apply scan_loop_aborts.
Qed.

Lemma scan_returns_on_sentinel_fragment_witness :
  parse_jack_shit 3
    (start (magic ++ sample_int 7 ++ [x00; x00; x01; x00]))
  = scan_loop 3 3 [] 0
      (mkWorld (magic ++ sample_int 7 ++ [x00; x00; x01; x00]) 4 []) /\
  parse_jack_shit 3 (start (sample_tag ++ [x00; x00; x01; x00]))
  = (Raise AssertionError,
     mkWorld (sample_tag ++ [x00; x00; x01; x00]) 4 []) /\
  scan_loop 2 1 [] 0 (start (sample_int 7 ++ [x00; x00; x01; x00]))
  = scan_loop 1 1 ([] ++ [inl (IntElement (mkMarker sample_tag 2) 7)]) (0 + 1)
      (mkWorld (sample_int 7 ++ [x00; x00; x01; x00]) 20 []) /\
  fst (scan_loop 1 1 [inr [xaa; xbb; xcc; xdd]] 0
         (start [x00; x00; x01; x00]))
  = Ok ([inr [xaa; xbb; xcc; xdd]] ++ [inr [x00; x00; x01; x00]]) /\
  scan_loop 2 1 [] 3 (start ([xaa; xbb; xcc; xdd] ++ [x00; x00; x01; x00]))
  = scan_loop 1 1 ([] ++ [inr [xaa; xbb; xcc; xdd]]) 0
      (resynchronized [xaa; xbb; xcc; xdd] 3
         (mkWorld ([xaa; xbb; xcc; xdd] ++ [x00; x00; x01; x00]) 4 [])
         (mkWorld ([xaa; xbb; xcc; xdd] ++ [x00; x00; x01; x00]) 8 [])) /\
  scan_loop 1 1 [inr [xaa; xbb; xcc; xdd]] 0
    (start (sample_tag ++ u32 0xA ++ zeros 8))
  = (Raise AssertionError,
     mkWorld (sample_tag ++ u32 0xA ++ zeros 8) 16 []).
Proof.
  repeat apply conj.
  - apply (proj1 (proj1 (scan_returns_on_sentinel_fragment 3 0 [] 0
                           (start (magic ++ sample_int 7
                                     ++ [x00; x00; x01; x00])))
                    magic
                    (mkWorld (magic ++ sample_int 7
                                ++ [x00; x00; x01; x00]) 4 [])
                    eq_refl)).
    reflexivity.
  - apply (proj2 (proj1 (scan_returns_on_sentinel_fragment 3 0 [] 0
                           (start (sample_tag ++ [x00; x00; x01; x00])))
                    sample_tag
                    (mkWorld (sample_tag ++ [x00; x00; x01; x00]) 4 [])
                    eq_refl)).
    discriminate.
  - apply (proj1 (proj2 (scan_returns_on_sentinel_fragment 1 1 [] 0
                           (start (sample_int 7 ++ [x00; x00; x01; x00]))))
             sample_tag
             (mkWorld (sample_int 7 ++ [x00; x00; x01; x00]) 4 [])
             (Some (mkMarker sample_tag 2))
             (mkWorld (sample_int 7 ++ [x00; x00; x01; x00]) 8 [])).
    + reflexivity.
    + reflexivity.
    + reflexivity.
  - apply (proj1 (proj2 (proj2 (scan_returns_on_sentinel_fragment 1 0
                                  [inr [xaa; xbb; xcc; xdd]] 0
                                  (start [x00; x00; x01; x00]))))
             (mkWorld [x00; x00; x01; x00] 4 [])
             (Some (mkMarker [x00; x00; x01; x00] 0))
             (mkWorld [x00; x00; x01; x00] 4 [])
             (mkWorld [x00; x00; x01; x00] 4 [])).
    + reflexivity.
    + reflexivity.
    + reflexivity.
  - apply (proj1 (proj2 (proj2 (proj2
             (scan_returns_on_sentinel_fragment 1 1 [] 3
                (start ([xaa; xbb; xcc; xdd] ++ [x00; x00; x01; x00]))))))
             [xaa; xbb; xcc; xdd]
             (mkWorld ([xaa; xbb; xcc; xdd] ++ [x00; x00; x01; x00]) 4 [])
             (Some (mkMarker [xaa; xbb; xcc; xdd] 0x10000))
             (mkWorld ([xaa; xbb; xcc; xdd] ++ [x00; x00; x01; x00]) 8 [])).
    + reflexivity.
    + discriminate.
    + reflexivity.
    + reflexivity.
    + discriminate.
  - apply (proj2 (proj2 (proj2 (proj2
             (scan_returns_on_sentinel_fragment 1 0
                [inr [xaa; xbb; xcc; xdd]] 0
                (start (sample_tag ++ u32 0xA ++ zeros 8))))))
             sample_tag
             (mkWorld (sample_tag ++ u32 0xA ++ zeros 8) 4 [])
             (Some (mkMarker sample_tag 0xA))
             (mkWorld (sample_tag ++ u32 0xA ++ zeros 8) 8 [])).
    + reflexivity.
    + reflexivity.
    + reflexivity.
Defined.

(** After the magic, a NamedArray marker that is not followed by its fixed
    prefix fails the assertion of the element decode, and the scan ends
    with that exception; without the magic the scan does not start. *)
Lemma scan_aborts_on_bad_marker :
  (~ exists fuel res w',
       parse_jack_shit fuel
         (start (magic ++ sample_tag ++ u32 0xA ++ zeros 8)) = (Ok res, w')) /\
  fst (run (parse_jack_shit 1) (magic ++ sample_tag ++ u32 0xA ++ zeros 8))
  = Raise AssertionError /\
  fst (run (parse_jack_shit 1) (sample_tag ++ [x00; x00; x01; x00]))
  = Raise AssertionError.
Proof.
  split; [| split; vm_compute; reflexivity].
  intros (fuel & res & w' & H).
  destruct fuel; vm_compute in H; discriminate.
Qed.

(** At the end of the stream the scan loop neither returns nor raises:
    [read] gives the empty byte string, which is recorded as a fragment, and
    the loop goes round again, for any number of iterations. *)
Lemma scan_loop_spins_at_eof loop_fuel fuel :
  forall acc es w,
    remaining w = [] ->
    fst (scan_loop loop_fuel (S fuel) acc es w) = OutOfFuel.
Proof.
  induction loop_fuel as [| lf IH]; intros acc es w Hrem.
  - reflexivity.
  - cbn [scan_loop].
    rewrite (bind_step _ _ _ _ _ (read_eof 4 _ Hrem)).
    unfold bind at 1. unfold tell at 1.
    assert (remaining (advance 0 w) = []) as Hrem'.
    { unfold remaining, advance in *. simpl. rewrite Nat.add_0_r. exact Hrem. }
    assert (_parse_marker (Some []) (advance 0 w)
            = (Ok None, advance 0 (advance 0 w))) as Hm.
    { unfold _parse_marker.
      rewrite (bind_step _ _ _ _ _ (read_eof 4 _ Hrem')). reflexivity. }
    rewrite (bind_step _ _ _ _ _ Hm).
    cbn [parse_element]. unfold bind at 1. unfold ret at 1.
    change (bytes_eqb [] [x00; x00; x01; x00]) with false.
    destruct (es =? 0); unfold bind, print, emit, ret, seek; simpl;
      apply IH; unfold remaining in *; simpl;
      rewrite Nat2Z.id, !Nat.add_0_r; exact Hrem.
Qed.

(** ** File system effects *)

(** Decoding a CompressedBlob element opens and writes [debug.bin] and
    [debug2.bin], in the scan as in the strict parse. *)
Lemma blob_decode_writes_files :
  file_events (trace (snd (run (parse_jack_shit 2)
                             (magic ++ sample_blob ++ [x00; x00; x01; x00]))))
  = [OpenWB "debug.bin";
     FileWrite "debug.bin"
       ([xd1; xd2; xd3; xd4] ++ u32 5 ++ u32 2 ++ [xe1; xe2]);
     OpenWB "debug2.bin";
     FileWrite "debug2.bin" [xe1; xe2]] /\
  file_events (trace (snd (run (parse_civ6save 2)
                             (magic ++ [x02; x00; x00; x00] ++ u32 1
                                ++ sample_blob))))
  = [OpenWB "debug.bin";
     FileWrite "debug.bin"
       ([xd1; xd2; xd3; xd4] ++ u32 5 ++ u32 2 ++ [xe1; xe2]);
     OpenWB "debug2.bin";
     FileWrite "debug2.bin" [xe1; xe2]].
Proof. split; vm_compute; reflexivity. Qed.

Lemma quiet_ret {A} (P : A -> Prop) a : P a -> quiet P (ret a).
Proof.
  intros Ha w r w' _ H. unfold ret in H. injection H as <- <-. auto.
Qed.

Lemma quiet_raise {A} (P : A -> Prop) e : quiet P (raise e).
Proof.
  intros w r w' _ H. unfold raise in H. injection H as <- <-. auto.
Qed.

Lemma quiet_out_of_fuel {A} (P : A -> Prop) : quiet P out_of_fuel.
Proof.
  intros w r w' _ H. unfold out_of_fuel in H. injection H as <- <-. auto.
Qed.

Lemma quiet_bind {A B} (P : A -> Prop) (Q : B -> Prop) m (f : A -> M B) :
  quiet P m -> (forall a, P a -> quiet Q (f a)) -> quiet Q (bind m f).
Proof.
  intros Hm Hf w r w' Hc H. unfold bind in H.
  destruct (m w) as [[a | e |] w1] eqn:E;
    destruct (Hm _ _ _ Hc E) as (Hb & Hfe & Hp).
  - assert (clean w1) as Hc1 by (unfold clean; rewrite Hb; exact Hc).
    destruct (Hf a Hp _ _ _ Hc1 H) as (Hb' & Hfe' & Hq).
    repeat split; [congruence | congruence | exact Hq].
  - injection H as <- <-. auto.
  - injection H as <- <-. auto.
Qed.

Lemma quiet_weaken {A} (P Q : A -> Prop) m :
  quiet P m -> (forall a, P a -> Q a) -> quiet Q m.
Proof.
  intros Hm HPQ w r w' Hc H. destruct (Hm _ _ _ Hc H) as (Hb & Hfe & Hp).
  repeat split; auto. destruct r; auto.
Qed.

Lemma quiet_any {A} (P : A -> Prop) m : quiet P m -> quiet (fun _ => True) m.
Proof. intros H. apply (quiet_weaken _ _ _ H). auto. Qed.

Lemma quiet_print msg : quiet (fun _ => True) (print msg).
Proof.
  intros w r w' _ H. unfold print, emit in H. injection H as <- <-. simpl.
  unfold file_events. rewrite filter_app. simpl. rewrite app_nil_r. auto.
Qed.

Lemma quiet_tell : quiet (fun _ => True) tell.
Proof. intros w r w' _ H. unfold tell in H. injection H as <- <-. auto. Qed.

Lemma quiet_seek p : quiet (fun _ => True) (seek p).
Proof. intros w r w' _ H. unfold seek in H. injection H as <- <-. auto. Qed.

Lemma quiet_seek_end : quiet (fun _ => True) seek_end.
Proof.
  intros w r w' _ H. unfold seek_end in H. injection H as <- <-. auto.
Qed.

Lemma quiet_assert c : quiet (fun _ => True) (assert c).
Proof.
  unfold assert. destruct c; [apply quiet_ret; exact I | apply quiet_raise].
Qed.

Lemma in_firstn {A} (x : A) n l : In x (firstn n l) -> In x l.
Proof.
  intros H. rewrite <- (firstn_skipn n l). apply in_or_app. left. exact H.
Qed.

Lemma in_skipn {A} (x : A) n l : In x (skipn n l) -> In x l.
Proof.
  intros H. rewrite <- (firstn_skipn n l). apply in_or_app. right. exact H.
Qed.

Lemma quiet_read n : quiet (fun bs => ~ In x18 bs) (read n).
Proof.
  intros w r w' Hc H. unfold read in H. injection H as <- <-. simpl.
  repeat split. intros Hin. apply Hc.
  destruct (n <? 0); unfold slice_to, remaining in Hin.
  - eapply in_skipn; eassumption.
  - eapply in_skipn, in_firstn; eassumption.
Qed.

Lemma from_bytes_le_0x18 bs : from_bytes_le bs = 0x18 -> In x18 bs.
Proof.
  destruct bs as [| x rest]; cbn [from_bytes_le]; intros H.
  - discriminate H.
  - left. pose proof (byte_to_Z_range x). 
    pose proof (from_bytes_le_nonneg rest).
    symmetry. apply byte_to_Z_inj. change (byte_to_Z x18) with 24. lia.
Qed.

Lemma quiet_parse_int32 : quiet (fun v => v <> 0x18) _parse_int32.
Proof.
  unfold _parse_int32. eapply quiet_bind; [apply quiet_read |].
  intros bs Hbs. apply quiet_ret. intros H. apply Hbs.
  apply from_bytes_le_0x18. exact H.
Qed.

Lemma quiet_parse_marker arg : quiet not_a_blob (_parse_marker arg).
Proof.
  unfold _parse_marker.
  apply quiet_bind with (P := fun _ => True).
  - destruct arg as [[| x r] |];
      try (apply (quiet_any _ _ (quiet_read 4))).
    apply quiet_ret. exact I.
  - intros nm _. destruct nm as [| x r].
    + apply quiet_ret. intros m H. discriminate H.
    + eapply quiet_bind; [apply quiet_parse_int32 |].
      intros t Ht. apply quiet_ret. intros m H. injection H as <-. exact Ht.
Qed.

Lemma quiet_repeatM {A} (P : A -> Prop) body n :
  quiet P body -> quiet (fun _ => True) (repeatM n body).
Proof.
  intros Hb. induction n as [| n IH]; cbn [repeatM].
  - apply quiet_ret. exact I.
  - eapply quiet_bind; [exact Hb |]. intros x _.
    eapply quiet_bind; [exact IH |]. intros xs _. apply quiet_ret. exact I.
Qed.

Create HintDb quiet.
#[local] Hint Resolve quiet_print quiet_tell quiet_seek quiet_seek_end
  quiet_assert quiet_read quiet_parse_int32 quiet_parse_marker
  quiet_raise quiet_out_of_fuel : quiet.

(** One step through a decoder: split a [bind], or decide a branch. *)
Ltac quiet_step :=
  lazymatch goal with
  | |- quiet _ (bind (match ?x with _ => _ end) _) => destruct x eqn:?
  | |- quiet _ (bind (raise _) _) =>
    apply (quiet_bind (fun _ => True)); [apply quiet_raise | intros ? ?]
  | |- quiet _ (bind _ _) =>
    eapply quiet_bind; [solve [eauto with quiet] | intros ? ?]
  | |- quiet _ (ret _) => apply quiet_ret; try exact I
  | |- quiet _ (raise _) => apply quiet_raise
  | |- quiet _ out_of_fuel => apply quiet_out_of_fuel
  | |- quiet _ (if ?c then _ else _) => destruct c eqn:?
  | |- quiet _ (match ?x with _ => _ end) => destruct x eqn:?
  | |- quiet (fun _ => True) _ =>
    solve [eauto with quiet | eapply quiet_any; eauto with quiet]
  end.

Lemma quiet_read_byte_data : quiet (fun _ => True) _read_byte_data.
Proof. unfold _read_byte_data. repeat quiet_step. Qed.

#[local] Hint Resolve quiet_read_byte_data : quiet.

Lemma quiet_chunk_loop fuel :
  forall bs i chunks, quiet (fun _ => True) (chunk_loop fuel bs i chunks).
Proof.
  induction fuel as [| fuel IH]; intros bs i chunks; cbn [chunk_loop].
  - apply quiet_out_of_fuel.
  - repeat quiet_step.
Qed.

Lemma quiet_parse_element fuel :
  forall mk, not_a_blob mk -> quiet (fun _ => True) (parse_element fuel mk).
Proof.
  induction fuel as [| fuel IH]; intros mk Hmk; cbn [parse_element].
  - apply quiet_out_of_fuel.
  - destruct mk as [m |]; [| apply quiet_ret; exact I].
    specialize (Hmk m eq_refl).
    repeat first
      [ match goal with
        | H : (type_ m =? 24) = true |- _ =>
          exfalso; apply Z.eqb_eq in H; contradiction
        | |- quiet _ (parse_element fuel _) => apply IH
        | |- not_a_blob (Some _) =>
          let m' := fresh "m" in
          let E := fresh "E" in
          intros m' E; injection E as <-; simpl; assumption
        | |- not_a_blob _ => assumption
        | |- quiet _ (bind (repeatM _ _) _) =>
          eapply quiet_bind; [eapply quiet_repeatM | intros ? ?]
        end
      | quiet_step ].
Qed.

Lemma quiet_parse_one_element fuel :
  quiet (fun _ => True) (parse_one_element fuel).
Proof.
  unfold parse_one_element.
  eapply quiet_bind; [apply quiet_parse_marker |]. intros mk Hmk.
  eapply quiet_bind; [apply quiet_parse_element; exact Hmk |]. intros e _.
  repeat quiet_step.
Qed.

Lemma quiet_parse_n_elements fuel n :
  quiet (fun _ => True) (parse_n_elements fuel n).
Proof.
  unfold parse_n_elements. eapply quiet_repeatM, quiet_parse_one_element.
Qed.

#[local] Hint Resolve quiet_parse_n_elements : quiet.

Lemma quiet_parse_regular_section fuel :
  quiet (fun _ => True) (parse_regular_section fuel).
Proof. unfold parse_regular_section. repeat quiet_step. Qed.

Lemma quiet_stage1 loop_fuel fuel :
  forall acc, quiet (fun _ => True) (stage1 loop_fuel fuel acc).
Proof.
  induction loop_fuel as [| lf IH]; intros acc; cbn [stage1].
  - apply quiet_out_of_fuel.
  - eapply quiet_bind; [apply quiet_parse_regular_section |]. intros s _.
    destruct (regular_and_empty s); [apply quiet_ret; exact I | apply IH].
Qed.

Lemma quiet_parse_multisection fuel :
  quiet (fun _ => True) (parse_multisection fuel).
Proof.
  unfold parse_multisection. do 4 quiet_step.
  eapply quiet_bind;
    [eapply (quiet_repeatM (fun _ => True)) | intros ? ?];
    repeat quiet_step.
Qed.

Lemma quiet_parse_nameless_section fuel :
  quiet (fun _ => True) (parse_nameless_section fuel).
Proof. unfold parse_nameless_section. repeat quiet_step. Qed.

Lemma quiet_parse_compressed_loop fuel :
  forall data, quiet (fun _ => True) (parse_compressed_loop fuel data).
Proof.
  induction fuel as [| fuel IH]; intros data; cbn [parse_compressed_loop].
  - apply quiet_out_of_fuel.
  - repeat quiet_step.
Qed.

Lemma quiet_parse_compressed fuel :
  quiet (fun _ => True) (parse_compressed fuel).
Proof.
  unfold parse_compressed. do 2 quiet_step. apply quiet_parse_compressed_loop.
Qed.

Lemma quiet_parse_bmap : quiet (fun _ => True) parse_bmap.
Proof.
  unfold parse_bmap. do 6 quiet_step.
  eapply quiet_bind; [eapply quiet_repeatM, quiet_parse_int32 | intros ? ?].
  repeat quiet_step.
Qed.

Lemma quiet_parse_pairs_section : quiet (fun _ => True) parse_pairs_section.
Proof.
  unfold parse_pairs_section. do 6 quiet_step.
  eapply quiet_bind; [eapply quiet_repeatM, quiet_read | intros ? ?].
  repeat quiet_step.
Qed.

Lemma quiet_parse_weird_constant_data :
  quiet (fun _ => True) parse_weird_constant_data.
Proof.
  unfold parse_weird_constant_data. do 5 quiet_step.
  eapply quiet_bind; [eapply quiet_repeatM, quiet_read | intros ? ?].
  repeat quiet_step.
Qed.

Lemma quiet_parse_custom_data fuel :
  quiet (fun _ => True) (parse_custom_data fuel).
Proof. unfold parse_custom_data. repeat quiet_step. Qed.

#[local] Hint Resolve quiet_stage1 quiet_parse_multisection
  quiet_parse_nameless_section quiet_parse_compressed quiet_parse_bmap
  quiet_parse_pairs_section quiet_parse_weird_constant_data
  quiet_parse_custom_data : quiet.

Lemma quiet_parse_stages fuel : quiet (fun _ => True) (parse_stages fuel).
Proof. unfold parse_stages. repeat quiet_step. Qed.

#[local] Hint Resolve quiet_parse_stages : quiet.

Lemma quiet_parse_civ6save fuel : quiet (fun _ => True) (parse_civ6save fuel).
Proof. unfold parse_civ6save, check_end_of_file. repeat quiet_step. Qed.

Lemma quiet_scan_loop loop_fuel fuel :
  forall acc es, quiet (fun _ => True) (scan_loop loop_fuel fuel acc es).
Proof.
  induction loop_fuel as [| lf IH]; intros acc es; cbn [scan_loop].
  - apply quiet_out_of_fuel.
  - do 2 quiet_step.
    eapply quiet_bind; [apply quiet_parse_marker |]. intros mk Hmk.
    eapply quiet_bind; [apply quiet_parse_element; exact Hmk |]. intros e _.
    destruct e as [e |]; [apply IH |].
    eapply quiet_bind with (P := fun _ => True).
    { destruct (es =? 0); [apply quiet_ret; exact I | apply quiet_print]. }
    intros _ _. do 2 quiet_step; [quiet_step |]. quiet_step. apply IH.
Qed.

Lemma quiet_parse_jack_shit fuel :
  quiet (fun _ => True) (parse_jack_shit fuel).
Proof.
  unfold parse_jack_shit. do 2 quiet_step. apply quiet_scan_loop.
Qed.

Lemma has_byte_false x bs : has_byte x bs = false -> ~ In x bs.
Proof.
  unfold has_byte. intros H Hin.
  assert (existsb (Byte.eqb x) bs = true) as Ht.
  { apply existsb_exists. exists x. split; [exact Hin |].
    apply Byte.byte_dec_lb. reflexivity. }
  congruence.
Qed.

(** ** The files that are written *)

Lemma dumps_only_ret {A} (a : A) : dumps_only (ret a).
Proof.
  intros w r w' H. unfold ret in H. injection H as <- <-.
  exists []. split; [symmetry; apply app_nil_r | constructor].
Qed.

Lemma dumps_only_raise {A} e : dumps_only (@raise A e).
Proof.
  intros w r w' H. unfold raise in H. injection H as <- <-.
  exists []. split; [symmetry; apply app_nil_r | constructor].
Qed.

Lemma dumps_only_out_of_fuel {A} : dumps_only (@out_of_fuel A).
Proof.
  intros w r w' H. unfold out_of_fuel in H. injection H as <- <-.
  exists []. split; [symmetry; apply app_nil_r | constructor].
Qed.

Lemma dumps_only_bind {A B} (m : M A) (f : A -> M B) :
  dumps_only m -> (forall a, dumps_only (f a)) -> dumps_only (bind m f).
Proof.
  intros Hm Hf w r w' H. unfold bind in H.
  destruct (m w) as [[a | e |] w1] eqn:E;
    destruct (Hm _ _ _ E) as (evs1 & Ht1 & Hd1).
  - destruct (Hf a _ _ _ H) as (evs2 & Ht2 & Hd2).
    exists (evs1 ++ evs2). split.
    + rewrite Ht2, Ht1. symmetry. apply app_assoc.
    + apply Forall_app. split; assumption.
  - injection H as <- <-. exists evs1. split; assumption.
  - injection H as <- <-. exists evs1. split; assumption.
Qed.

Lemma dumps_only_emit e : is_debug_dump e = true -> dumps_only (emit e).
Proof.
  intros He w r w' H. unfold emit in H. injection H as <- <-.
  exists [e]. split; [reflexivity | constructor; [exact He | constructor]].
Qed.

Lemma dumps_only_print msg : dumps_only (print msg).
Proof. apply dumps_only_emit. reflexivity. Qed.

Lemma dumps_only_tell : dumps_only tell.
Proof.
  intros w r w' H. unfold tell in H. injection H as <- <-.
  exists []. split; [symmetry; apply app_nil_r | constructor].
Qed.

Lemma dumps_only_seek p : dumps_only (seek p).
Proof.
  intros w r w' H. unfold seek in H. injection H as <- <-.
  exists []. split; [symmetry; apply app_nil_r | constructor].
Qed.

Lemma dumps_only_seek_end : dumps_only seek_end.
Proof.
  intros w r w' H. unfold seek_end in H. injection H as <- <-.
  exists []. split; [symmetry; apply app_nil_r | constructor].
Qed.

Lemma dumps_only_read n : dumps_only (read n).
Proof.
  intros w r w' H. unfold read in H. injection H as <- <-.
  exists []. split; [symmetry; apply app_nil_r | constructor].
Qed.

Lemma dumps_only_assert c : dumps_only (assert c).
Proof.
  unfold assert. destruct c; [apply dumps_only_ret | apply dumps_only_raise].
Qed.

Lemma dumps_only_repeatM {A} (body : M A) n :
  dumps_only body -> dumps_only (repeatM n body).
Proof.
  intros Hb. induction n as [| n IH]; cbn [repeatM].
  - apply dumps_only_ret.
  - apply dumps_only_bind; [exact Hb |]. intros x.
    apply dumps_only_bind; [exact IH |]. intros xs. apply dumps_only_ret.
Qed.

Create HintDb dumps.
#[local] Hint Resolve dumps_only_ret dumps_only_raise dumps_only_out_of_fuel
  dumps_only_print dumps_only_tell dumps_only_seek dumps_only_seek_end
  dumps_only_read dumps_only_assert : dumps.

Ltac dumps_step :=
  lazymatch goal with
  | |- dumps_only (bind (match ?x with _ => _ end) _) => destruct x eqn:?
  | |- dumps_only (bind (repeatM _ _) _) =>
    apply dumps_only_bind; [apply dumps_only_repeatM | intros ?]
  | |- dumps_only (bind (emit _) _) =>
    apply dumps_only_bind; [apply dumps_only_emit; reflexivity | intros ?]
  | |- dumps_only (bind _ _) =>
    apply dumps_only_bind; [solve [eauto with dumps] | intros ?]
  | |- dumps_only (if ?c then _ else _) => destruct c eqn:?
  | |- dumps_only (match ?x with _ => _ end) => destruct x eqn:?
  | |- dumps_only _ => solve [eauto with dumps]
  end.

Lemma dumps_only_parse_int32 : dumps_only _parse_int32.
Proof. unfold _parse_int32. repeat dumps_step. Qed.

#[local] Hint Resolve dumps_only_parse_int32 : dumps.

Lemma dumps_only_parse_marker arg : dumps_only (_parse_marker arg).
Proof. unfold _parse_marker. repeat dumps_step. Qed.

Lemma dumps_only_read_byte_data : dumps_only _read_byte_data.
Proof. unfold _read_byte_data. repeat dumps_step. Qed.

#[local] Hint Resolve dumps_only_parse_marker dumps_only_read_byte_data
  : dumps.

Lemma dumps_only_chunk_loop fuel :
  forall bs i chunks, dumps_only (chunk_loop fuel bs i chunks).
Proof.
  induction fuel as [| fuel IH]; intros bs i chunks; cbn [chunk_loop];
    repeat dumps_step.
Qed.

#[local] Hint Resolve dumps_only_chunk_loop : dumps.

Lemma dumps_only_parse_element fuel :
  forall mk, dumps_only (parse_element fuel mk).
Proof.
  induction fuel as [| fuel IH]; intros mk; cbn [parse_element];
    repeat dumps_step.
Qed.

#[local] Hint Resolve dumps_only_parse_element : dumps.

Lemma dumps_only_parse_n_elements fuel n :
  dumps_only (parse_n_elements fuel n).
Proof.
  unfold parse_n_elements. apply dumps_only_repeatM.
  unfold parse_one_element. repeat dumps_step.
Qed.

#[local] Hint Resolve dumps_only_parse_n_elements : dumps.

Lemma dumps_only_stage1 loop_fuel fuel :
  forall acc, dumps_only (stage1 loop_fuel fuel acc).
Proof.
  induction loop_fuel as [| lf IH]; intros acc; cbn [stage1];
    [apply dumps_only_out_of_fuel |].
  apply dumps_only_bind.
  - unfold parse_regular_section. repeat dumps_step.
  - intros s. repeat dumps_step.
Qed.

Lemma dumps_only_parse_compressed_loop fuel :
  forall data, dumps_only (parse_compressed_loop fuel data).
Proof.
  induction fuel as [| fuel IH]; intros data; cbn [parse_compressed_loop];
    repeat dumps_step.
Qed.

#[local] Hint Resolve dumps_only_stage1 dumps_only_parse_compressed_loop
  : dumps.

Lemma dumps_only_parse_stages fuel : dumps_only (parse_stages fuel).
Proof.
  unfold parse_stages. do 3 dumps_step.
  apply dumps_only_bind;
    [unfold parse_multisection; repeat dumps_step | intros ?].
  apply dumps_only_bind;
    [unfold parse_nameless_section; repeat dumps_step | intros ?].
  apply dumps_only_bind;
    [unfold parse_compressed; repeat dumps_step | intros ?].
  apply dumps_only_bind; [unfold parse_bmap; repeat dumps_step | intros ?].
  apply dumps_only_bind;
    [unfold parse_pairs_section; repeat dumps_step | intros ?].
  apply dumps_only_bind;
    [unfold parse_weird_constant_data; repeat dumps_step | intros ?].
  apply dumps_only_bind;
    [unfold parse_custom_data; repeat dumps_step | intros ?].
  apply dumps_only_ret.
Qed.

Lemma dumps_only_parse_civ6save fuel : dumps_only (parse_civ6save fuel).
Proof.
  unfold parse_civ6save, check_end_of_file.
  apply dumps_only_bind; [apply dumps_only_parse_stages | intros ?].
  repeat dumps_step.
Qed.

Lemma dumps_only_scan_loop loop_fuel fuel :
  forall acc es, dumps_only (scan_loop loop_fuel fuel acc es).
Proof.
  induction loop_fuel as [| lf IH]; intros acc es; cbn [scan_loop];
    repeat dumps_step.
Qed.

Lemma dumps_only_parse_jack_shit fuel : dumps_only (parse_jack_shit fuel).
Proof.
  unfold parse_jack_shit. do 2 dumps_step. apply dumps_only_scan_loop.
Qed.

(** C9.  The strict parse and the scan touch no file but the dumps
    [debug.bin] and [debug2.bin] of the CompressedBlob decode; and on an
    input in which the byte [0x18] does not occur, so that no marker carries
    the CompressedBlob type code, they open and write no file at all,
    however the parse ends. *)
Theorem files_written_only_by_blob_decode fuel stream :
  Forall (fun e => is_debug_dump e = true)
         (trace (snd (run (parse_civ6save fuel) stream))) /\
  Forall (fun e => is_debug_dump e = true)
         (trace (snd (run (parse_jack_shit fuel) stream))) /\
  (has_byte x18 stream = false ->
   file_events (trace (snd (run (parse_civ6save fuel) stream))) = [] /\
   file_events (trace (snd (run (parse_jack_shit fuel) stream))) = []).
Proof.
  unfold run. split; [| split].
  - destruct (parse_civ6save fuel (start stream)) as [r w'] eqn:E.
    apply dumps_only_parse_civ6save in E. destruct E as (evs & Ht & Hd).
    simpl. rewrite Ht. exact Hd.
  - destruct (parse_jack_shit fuel (start stream)) as [r w'] eqn:E.
    apply dumps_only_parse_jack_shit in E. destruct E as (evs & Ht & Hd).
    simpl. rewrite Ht. exact Hd.
  - intros H. apply has_byte_false in H. split.
    + destruct (parse_civ6save fuel (start stream)) as [r w'] eqn:E.
      apply quiet_parse_civ6save in E; [| exact H].
      destruct E as (_ & Hfe & _). exact Hfe.
    + destruct (parse_jack_shit fuel (start stream)) as [r w'] eqn:E.
      apply quiet_parse_jack_shit in E; [| exact H].
      destruct E as (_ & Hfe & _). exact Hfe.
Qed.

Lemma files_written_only_by_blob_decode_witness :
  has_byte x18 sample_document = false /\
  file_events (trace (snd (run (parse_civ6save 2) sample_document))) = [] /\
  file_events (trace (snd (run (parse_jack_shit 2) sample_document))) = [].
Proof.
  split; [reflexivity |].
  apply (proj2 (proj2 (files_written_only_by_blob_decode 2 sample_document))).
  reflexivity.
Defined.

(** ** Fuel: the decoders terminate

    A nested element costs one unit of fuel and at least one byte of the
    stream, so fuel above the number of bytes left is never used up. *)

Lemma safe_ret {A} k (a : A) : safe k (ret a).
Proof.
  intros w r w' _ H. unfold ret in H. injection H as <- <-.
  split; [discriminate | lia].
Qed.

Lemma safe_raise {A} k e : safe k (@raise A e).
Proof.
  intros w r w' _ H. unfold raise in H. injection H as <- <-.
  split; [discriminate | lia].
Qed.

Lemma safe_bind {A B} k (m : M A) (f : A -> M B) :
  safe k m -> (forall a, safe k (f a)) -> safe k (bind m f).
Proof.
  intros Hm Hf w r w' Hk H. unfold bind in H.
  destruct (m w) as [[a | e |] w1] eqn:E; destruct (Hm _ _ _ Hk E) as [Hr Hl].
  - assert (bytes_left w1 < k)%nat as Hk1 by lia.
    destruct (Hf a _ _ _ Hk1 H) as [Hr' Hl']. split; [exact Hr' | lia].
  - injection H as <- <-. split; [discriminate | exact Hl].
  - contradiction.
Qed.

Lemma safe_weaken {A} k k' (m : M A) :
  safe k' m -> (k <= k')%nat -> safe k m.
Proof.
  intros Hm Hle w r w' Hk H.
  apply (Hm _ _ _ (Nat.lt_le_trans _ _ _ Hk Hle) H).
Qed.

Lemma safe_print k msg : safe k (print msg).
Proof.
  intros w r w' _ H. unfold print, emit in H. injection H as <- <-.
  split; [discriminate | unfold bytes_left, remaining; simpl; lia].
Qed.

Lemma safe_emit_event k e : safe k (emit e).
Proof.
  intros w r w' _ H. unfold emit in H. injection H as <- <-.
  split; [discriminate | unfold bytes_left, remaining; simpl; lia].
Qed.

Lemma safe_tell k : safe k tell.
Proof.
  intros w r w' _ H. unfold tell in H. injection H as <- <-.
  split; [discriminate | lia].
Qed.

Lemma safe_assert k c : safe k (assert c).
Proof. unfold assert. destruct c; [apply safe_ret | apply safe_raise]. Qed.

Lemma safe_seek_end k : safe k seek_end.
Proof.
  intros w r w' _ H. unfold seek_end in H. injection H as <- <-.
  split; [discriminate |].
  unfold bytes_left, remaining. simpl. rewrite skipn_all. simpl. lia.
Qed.

Lemma bytes_left_advance j w :
  bytes_left (advance j w) = (bytes_left w - j)%nat.
Proof.
  unfold bytes_left, remaining, advance. simpl.
  rewrite !length_skipn. lia.
Qed.

(** What [read] returns and where it leaves the cursor. *)
Lemma read_spec n w :
  exists got,
    read n w = (Ok got, advance (length got) w) /\
    (length got <= bytes_left w)%nat /\
    (0 < n -> got = [] -> bytes_left w = 0%nat).
Proof.
  unfold read, bytes_left.
  destruct (n <? 0) eqn:E.
  - exists (remaining w). split; [reflexivity |]. split; [lia |].
    intros Hn. apply Z.ltb_lt in E. lia.
  - exists (slice_to n (remaining w)). split; [reflexivity |].
    unfold slice_to. rewrite length_firstn. split; [lia |].
    intros Hn Hnil. apply (f_equal (@length byte)) in Hnil.
    rewrite length_firstn in Hnil. simpl in Hnil. lia.
Qed.

Lemma safe_read k n : safe k (read n).
Proof.
  intros w r w' _ H. destruct (read_spec n w) as (got & Hr & Hl & _).
  rewrite Hr in H. injection H as <- <-.
  split; [discriminate | rewrite bytes_left_advance; lia].
Qed.

(** A read that is followed by nested decoding: either it consumed
    something, and the rest runs with fewer bytes left, or the stream is at
    its end. *)
Lemma safe_read_bind {A} k n (f : bytes -> M A) :
  0 < n ->
  (forall got, got <> [] -> safe (k - length got) (f got)) ->
  safe 1 (f []) ->
  safe k (bind (read n) f).
Proof.
  intros Hn Hsome Hnone w r w' Hk H.
  destruct (read_spec n w) as (got & Hr & Hl & Heof).
  rewrite (bind_step _ _ _ _ _ Hr) in H.
  pose proof (bytes_left_advance (length got) w) as Ha.
  destruct got as [| x rest].
  - specialize (Heof Hn eq_refl).
    assert (bytes_left (advance (length (@nil byte)) w) < 1)%nat as Hk1 by lia.
    destruct (Hnone _ _ _ Hk1 H) as [Hr' Hl']. split; [exact Hr' | lia].
  - assert (bytes_left (advance (length (x :: rest)) w)
            < k - length (x :: rest))%nat as Hk1 by lia.
    assert (x :: rest <> []) as Hne by discriminate.
    destruct (Hsome _ Hne _ _ _ Hk1 H) as [Hr' Hl']. split; [exact Hr' | lia].
Qed.

(** At the end of the stream a read gives the empty byte string. *)
Lemma safe_read_eof {A} n (f : bytes -> M A) :
  safe 1 (f []) -> safe 1 (bind (read n) f).
Proof.
  intros Hf w r w' Hk H.
  assert (remaining w = []) as Hrem.
  { unfold bytes_left in Hk. destruct (remaining w); [reflexivity |].
    simpl in Hk. lia. }
  rewrite (bind_step _ _ _ _ _ (read_eof n w Hrem)) in H.
  assert (bytes_left (advance 0 w) < 1)%nat as Hk1
      by (rewrite bytes_left_advance; lia).
  destruct (Hf _ _ _ Hk1 H) as [Hr' Hl']. split; [exact Hr' |].
  rewrite bytes_left_advance in Hl'. lia.
Qed.

Lemma safe_parse_int32 k : safe k _parse_int32.
Proof.
  unfold _parse_int32. apply safe_bind; [apply safe_read |].
  intros bs. apply safe_ret.
Qed.

Lemma safe_parse_marker k arg : safe k (_parse_marker arg).
Proof.
  unfold _parse_marker. apply safe_bind.
  - destruct arg as [[| x r] |]; try apply safe_read. apply safe_ret.
  - intros [| x r]; [apply safe_ret |].
    apply safe_bind; [apply safe_parse_int32 | intros t; apply safe_ret].
Qed.

Lemma safe_repeatM {A} k (body : M A) n :
  safe k body -> safe k (repeatM n body).
Proof.
  intros Hb. induction n as [| n IH]; cbn [repeatM].
  - apply safe_ret.
  - apply safe_bind; [exact Hb |]. intros x.
    apply safe_bind; [exact IH |]. intros xs. apply safe_ret.
Qed.

Create HintDb safe.
#[local] Hint Resolve safe_ret safe_raise safe_print safe_emit_event safe_tell
  safe_assert safe_seek_end safe_read safe_parse_int32 safe_parse_marker
  : safe.

Ltac safe_step :=
  lazymatch goal with
  | |- safe _ (bind (match ?x with _ => _ end) _) => destruct x eqn:?
  | |- safe _ (bind _ _) =>
    apply safe_bind; [solve [eauto with safe] | intros ?]
  | |- safe _ (if ?c then _ else _) => destruct c eqn:?
  | |- safe _ (match ?x with _ => _ end) => destruct x eqn:?
  | |- safe _ _ => solve [eauto with safe]
  end.

Lemma safe_read_byte_data k : safe k _read_byte_data.
Proof. unfold _read_byte_data. repeat safe_step. Qed.

#[local] Hint Resolve safe_read_byte_data : safe.

(** The chunk loop advances by at least 4 bytes of the blob each time. *)
Lemma safe_chunk_loop k fuel :
  forall bs i chunks,
    (1 <= fuel)%nat -> len bs <= i + 4 * (Z.of_nat fuel - 1) -> 0 <= i ->
    safe k (chunk_loop fuel bs i chunks).
Proof.
  induction fuel as [| fuel IH]; intros bs i chunks Hf Hinv Hi; [lia |].
  cbn [chunk_loop].
  destruct ((i <? len bs)
            && negb (bytes_eqb (slice_from i bs) [x00; x00; xff; xff])) eqn:E;
    [| apply safe_ret].
  apply andb_true_iff in E. destruct E as [E _]. apply Z.ltb_lt in E.
  destruct (len bs - i <? 4); [repeat safe_step |].
  pose proof (from_bytes_le_nonneg (slice i (i + 4) bs)).
  apply IH; lia.
Qed.

Lemma safe_bind_raise {A B} k e (f : A -> M B) : safe k (bind (raise e) f).
Proof.
  intros w r w' _ H. unfold bind, raise in H. injection H as <- <-.
  split; [discriminate | lia].
Qed.

Lemma safe_bind_assoc {A B C} k (m : M A) (f : A -> M B) (g : B -> M C) :
  safe k (bind m (fun a => bind (f a) g)) -> safe k (bind (bind m f) g).
Proof.
  intros Hs w r w' Hk H. apply (Hs w r w' Hk). rewrite <- H.
  unfold bind. destruct (m w) as [[a | e |] w1]; reflexivity.
Qed.

(** At the end of the stream [_parse_int32] gives 0. *)
Lemma safe_parse_int32_eof {A} (f : Z -> M A) :
  safe 1 (f 0) -> safe 1 (bind _parse_int32 f).
Proof.
  intros Hf. unfold _parse_int32. apply safe_bind_assoc.
  apply safe_read_eof. exact Hf.
Qed.

Lemma safe_parse_element fuel :
  forall mk, safe fuel (parse_element fuel mk).
Proof.
  induction fuel as [| fuel IH]; intros mk.
  - intros w r w' Hk. lia.
  - cbn [parse_element]. destruct mk as [m |]; [| apply safe_ret].
    destruct (type_ m =? 1); [repeat safe_step |].
    destruct (type_ m =? 2); [repeat safe_step |].
    destruct (type_ m =? 3); [repeat safe_step |].
    destruct ((type_ m =? 4) || (type_ m =? 5)); [repeat safe_step |].
    destruct (type_ m =? 6); [repeat safe_step |].
    destruct (type_ m =? 10).
    { apply safe_read_bind; [lia | intros got Hgot |].
      - apply safe_weaken with (k' := fuel);
          [| destruct got; simpl; [contradiction | lia]].
        do 2 safe_step.
        apply safe_bind; [| intros ?; apply safe_ret].
        apply safe_repeatM, safe_bind; [apply safe_parse_marker |].
        intros mk. apply IH.
      - apply safe_bind_raise. }
    destruct (type_ m =? 11).
    { apply safe_read_bind; [lia | intros got Hgot |].
      - apply safe_weaken with (k' := fuel);
          [| destruct got; simpl; [contradiction | lia]].
        safe_step.
        apply safe_bind; [| intros ?; apply safe_ret].
        apply safe_repeatM, safe_bind; [apply safe_parse_int32 |].
        intros t. apply IH.
      - apply safe_parse_int32_eof. cbn [Z.to_nat repeatM].
        apply safe_bind; [apply safe_ret | intros ?; apply safe_ret]. }
    destruct (type_ m =? 13); [repeat safe_step |].
    destruct (type_ m =? 20); [repeat safe_step |].
    destruct (type_ m =? 24); [| apply safe_ret].
    do 2 safe_step. destruct a as [bd | raw]; [| apply safe_raise].
    safe_step. apply safe_bind; [| intros ?; repeat safe_step].
    apply safe_chunk_loop; unfold len; lia.
Qed.

Lemma safe_parse_one_element fuel : safe fuel (parse_one_element fuel).
Proof.
  unfold parse_one_element. safe_step.
  apply safe_bind; [apply safe_parse_element |]. intros e.
  repeat safe_step.
Qed.

Lemma safe_parse_n_elements fuel n : safe fuel (parse_n_elements fuel n).
Proof.
  unfold parse_n_elements. apply safe_repeatM, safe_parse_one_element.
Qed.

#[local] Hint Resolve safe_parse_n_elements : safe.

Lemma safe_parse_regular_section fuel :
  safe fuel (parse_regular_section fuel).
Proof. unfold parse_regular_section. repeat safe_step. Qed.

Lemma consuming_bind_r {A B} k (m : M A) (f : A -> M B) :
  safe k m -> (forall a, consuming k (f a)) -> consuming k (bind m f).
Proof.
  intros Hm Hf w b w' Hk H. ok_inv H.
  destruct (Hm _ _ _ Hk Hm0) as [_ Hl].
  assert (bytes_left w0 < k)%nat as Hlt by lia.
  specialize (Hf a _ _ _ Hlt Hk0). lia.
Qed.

(** A read of some bytes followed by a computation that cannot return at
    the end of the stream: returning means that bytes were consumed. *)
Lemma consuming_read_bind {A} k n (f : bytes -> M A) :
  (forall got, got <> [] -> safe k (f got)) ->
  (forall w a w', f [] w <> (Ok a, w')) ->
  consuming k (bind (read n) f).
Proof.
  intros Hsome Hnone w a w' Hk H.
  destruct (read_spec n w) as (got & Hr & Hl & _).
  rewrite (bind_step _ _ _ _ _ Hr) in H.
  pose proof (bytes_left_advance (length got) w) as Ha.
  destruct got as [| x rest]; [apply Hnone in H; contradiction |].
  assert (x :: rest <> []) as Hne by discriminate.
  assert (bytes_left (advance (length (x :: rest)) w) < k)%nat as Hk1 by lia.
  destruct (Hsome _ Hne _ _ _ Hk1 H) as [_ Hl'].
  simpl length in *. lia.
Qed.

Lemma consuming_parse_regular_section fuel :
  consuming fuel (parse_regular_section fuel).
Proof.
  unfold parse_regular_section.
  apply consuming_bind_r; [apply safe_tell | intros p].
  apply consuming_bind_r; [apply safe_print | intros _].
  apply consuming_read_bind.
  - intros got Hgot. repeat safe_step.
  - intros w a w' H. ok_inv H.
    change (bytes_eqb [] [x10; x00; x00; x00]) with false in Hk.
    cbv iota in Hk. ok_inv Hk. discriminate Hk0.
Qed.

Lemma safe_stage1 loop_fuel fuel :
  forall acc, (loop_fuel <= fuel)%nat -> safe loop_fuel (stage1 loop_fuel fuel acc).
Proof.
  induction loop_fuel as [| lf IH]; intros acc Hle w r w' Hk H; [lia |].
  cbn [stage1] in H. unfold bind in H.
  assert (bytes_left w < fuel)%nat as Hkf by lia.
  destruct (parse_regular_section fuel w) as [[s | e |] w1] eqn:E;
    destruct (safe_parse_regular_section _ _ _ _ Hkf E) as [Hr Hl].
  - pose proof (consuming_parse_regular_section _ _ _ _ Hkf E) as Hc.
    destruct (regular_and_empty s).
    + unfold ret in H. injection H as <- <-. split; [discriminate | lia].
    + assert (bytes_left w1 < lf)%nat as Hk1 by lia.
      assert (lf <= fuel)%nat as Hle1 by lia.
      destruct (IH _ Hle1 _ _ _ Hk1 H) as [Hr' Hl']. split; [exact Hr' | lia].
  - injection H as <- <-. split; [discriminate | lia].
  - contradiction.
Qed.

Lemma safe_ret_bind {A B} k (a : A) (f : A -> M B) :
  safe k (f a) -> safe k (bind (ret a) f).
Proof. intros Hf w r w' Hk H. apply (Hf w r w' Hk H). Qed.

Lemma safe_parse_compressed_loop fuel :
  forall data, safe fuel (parse_compressed_loop fuel data).
Proof.
  induction fuel as [| fuel IH]; intros data.
  - intros w r w' Hk. lia.
  - cbn [parse_compressed_loop]. unfold _parse_int32.
    apply safe_bind_assoc. apply safe_read_bind; [lia | intros got Hgot |].
    + apply safe_weaken with (k' := fuel);
        [| destruct got; simpl; [contradiction | lia]].
      repeat safe_step.
    + apply safe_ret_bind. cbn [from_bytes_le].
      change (0 <? 65536) with true. repeat safe_step.
Qed.

Lemma safe_parse_compressed fuel : safe fuel (parse_compressed fuel).
Proof.
  unfold parse_compressed. do 2 safe_step. apply safe_parse_compressed_loop.
Qed.

Lemma safe_parse_multisection fuel : safe fuel (parse_multisection fuel).
Proof.
  unfold parse_multisection. do 4 safe_step.
  apply safe_bind; [| intros ?; apply safe_ret].
  apply safe_repeatM. repeat safe_step.
Qed.

Lemma safe_parse_nameless_section fuel :
  safe fuel (parse_nameless_section fuel).
Proof. unfold parse_nameless_section. repeat safe_step. Qed.

Lemma safe_parse_bmap k : safe k parse_bmap.
Proof.
  unfold parse_bmap. do 6 safe_step.
  apply safe_bind; [| intros ?; apply safe_ret].
  apply safe_repeatM, safe_parse_int32.
Qed.

Lemma safe_parse_pairs_section k : safe k parse_pairs_section.
Proof.
  unfold parse_pairs_section. do 6 safe_step.
  apply safe_bind; [| intros ?; apply safe_ret].
  apply safe_repeatM, safe_read.
Qed.

Lemma safe_parse_weird_constant_data k : safe k parse_weird_constant_data.
Proof.
  unfold parse_weird_constant_data. do 5 safe_step.
  apply safe_bind; [apply safe_repeatM, safe_read | intros ?].
  repeat safe_step.
Qed.

Lemma safe_parse_custom_data fuel : safe fuel (parse_custom_data fuel).
Proof. unfold parse_custom_data. repeat safe_step. Qed.

Lemma safe_parse_stages fuel : safe fuel (parse_stages fuel).
Proof.
  unfold parse_stages. do 2 safe_step.
  apply safe_bind; [apply safe_stage1; lia | intros ?].
  apply safe_bind; [apply safe_parse_multisection | intros ?].
  apply safe_bind; [apply safe_parse_nameless_section | intros ?].
  apply safe_bind; [apply safe_parse_compressed | intros ?].
  apply safe_bind; [apply safe_parse_bmap | intros ?].
  apply safe_bind; [apply safe_parse_pairs_section | intros ?].
  apply safe_bind; [apply safe_parse_weird_constant_data | intros ?].
  apply safe_bind; [apply safe_parse_custom_data | intros ?].
  apply safe_ret.
Qed.

Lemma safe_parse_civ6save fuel : safe fuel (parse_civ6save fuel).
Proof.
  unfold parse_civ6save, check_end_of_file.
  apply safe_bind; [apply safe_parse_stages | intros ?].
  repeat safe_step.
Qed.

(** With more fuel than the stream has bytes, the strict parse never runs
    out of fuel: it returns its sections or raises. *)
Lemma parse_civ6save_terminates fuel stream :
  (length stream < fuel)%nat ->
  fst (run (parse_civ6save fuel) stream) <> OutOfFuel.
Proof.
  intros H. unfold run.
  destruct (parse_civ6save fuel (start stream)) as [r w'] eqn:E.
  apply safe_parse_civ6save in E; [apply E |].
  unfold bytes_left, remaining, start. simpl. exact H.
Qed.

(** ** Element lists and stage 1, with termination *)

Lemma _parse_marker_returns w :
  exists mk w1,
    _parse_marker None w = (Ok mk, w1) /\ (mk = None -> remaining w = []).
Proof.
  unfold _parse_marker.
  destruct (read_spec 4 w) as (got & Hr & _ & Heof).
  rewrite (bind_step _ _ _ _ _ Hr).
  destruct got as [| x r].
  - eexists. eexists. split; [reflexivity |].
    intros _. specialize (Heof ltac:(lia) eq_refl).
    unfold bytes_left in Heof.
    destruct (remaining w); [reflexivity | discriminate Heof].
  - eexists. eexists. split; [reflexivity | discriminate].
Qed.

(** A turn of the loop of [parse_n_elements] returns what the element
    decode returned. *)
Lemma parse_one_element_ok_inv fuel w x w' :
  parse_one_element fuel w = (Ok x, w') ->
  exists mk w1 w2,
    _parse_marker None w = (Ok mk, w1) /\
    parse_element fuel mk w1 = (Ok x, w2).
Proof.
  intros H. unfold parse_one_element in H.
  apply bind_ok in H. destruct H as (mk & w1 & Hm & H).
  apply bind_ok in H. destruct H as (el & w2 & He & H).
  exists mk, w1, w2. split; [exact Hm |].
  destruct el as [el |].
  - ok_inv H. exact He.
  - repeat (apply bind_ok in H; destruct H as (? & ? & _ & H)).
    ok_inv H. exact He.
Qed.

(** A turn raises when the element decode raises, or at the end of the
    stream. *)
Lemma parse_one_element_raise_inv fuel w e w' :
  parse_one_element fuel w = (Raise e, w') ->
  exists mk w1,
    _parse_marker None w = (Ok mk, w1) /\
    (parse_element fuel mk w1 = (Raise e, w') \/ remaining w = []).
Proof.
  intros H. destruct (_parse_marker_returns w) as (mk & w1 & Hm & Hnone).
  exists mk, w1. split; [exact Hm |].
  unfold parse_one_element in H. rewrite (bind_step _ _ _ _ _ Hm) in H.
  unfold bind at 1 in H.
  destruct (parse_element fuel mk w1) as [[[el |] | e0 |] w2] eqn:He.
  - discriminate H.
  - destruct mk as [m |].
    + discriminate H.
    + right. apply Hnone. reflexivity.
  - left. injection H as -> ->. reflexivity.
  - discriminate H.
Qed.

Lemma parse_one_element_raises fuel w mk w1 e w' :
  _parse_marker None w = (Ok mk, w1) ->
  parse_element fuel mk w1 = (Raise e, w') ->
  parse_one_element fuel w = (Raise e, w').
Proof.
  intros Hm He. unfold parse_one_element.
  rewrite (bind_step _ _ _ _ _ Hm). unfold bind. rewrite He. reflexivity.
Qed.

(** C10.  When [parse_n_elements] returns, the list has exactly [n]
    entries, and the entry at each position is what the element decode at
    that position returned, a decoded element or [None].  When it raises,
    the elements before some position were decoded and either the element
    decode at that position raised the same exception or the stream had
    ended there.  With more fuel than bytes left it does not run out of
    fuel.  And whenever the elements before a position are decoded and the
    element decode at that position raises, [parse_n_elements] raises the
    same exception. *)
Theorem parse_n_elements_length fuel n w :
  0 <= n ->
  (forall l w',
     parse_n_elements fuel n w = (Ok l, w') ->
     len l = n /\
     forall k, (k < Z.to_nat n)%nat ->
       exists wk mk w1 w2,
         parse_n_elements fuel (Z.of_nat k) w = (Ok (firstn k l), wk) /\
         _parse_marker None wk = (Ok mk, w1) /\
         parse_element fuel mk w1 = (Ok (nth k l None), w2)) /\
  (forall e w',
     parse_n_elements fuel n w = (Raise e, w') ->
     exists k l wk mk w1,
       (k < Z.to_nat n)%nat /\
       parse_n_elements fuel (Z.of_nat k) w = (Ok l, wk) /\
       _parse_marker None wk = (Ok mk, w1) /\
       (parse_element fuel mk w1 = (Raise e, w') \/ remaining wk = [])) /\
  ((bytes_left w < fuel)%nat ->
   fst (parse_n_elements fuel n w) <> OutOfFuel) /\
  (forall k l wk mk w1 e w',
     (k < Z.to_nat n)%nat ->
     parse_n_elements fuel (Z.of_nat k) w = (Ok l, wk) ->
     _parse_marker None wk = (Ok mk, w1) ->
     parse_element fuel mk w1 = (Raise e, w') ->
     parse_n_elements fuel n w = (Raise e, w')).
Proof.
  intros Hn. split; [| split; [| split]].
  - intros l w' E.
    split; [eapply parse_n_elements_returns_n; eassumption |].
    intros k Hlt. unfold parse_n_elements in *. rewrite Nat2Z.id.
    destruct (repeatM_ok_nth _ None _ _ _ _ E k Hlt)
      as (wk & wk' & Hp & Hs).
    apply parse_one_element_ok_inv in Hs.
    destruct Hs as (mk & w1 & w2 & Hm & He).
    exists wk, mk, w1, w2. split; [exact Hp |]. split; assumption.
  - intros e w' E. unfold parse_n_elements in *.
    apply repeatM_raise_inv in E.
    destruct E as (k & l & wk & Hlt & Hp & Hs).
    apply parse_one_element_raise_inv in Hs.
    destruct Hs as (mk & w1 & Hm & Hd).
    exists k, l, wk, mk, w1. rewrite Nat2Z.id.
    split; [exact Hlt |]. split; [exact Hp |]. split; assumption.
  - intros Hk.
    destruct (parse_n_elements fuel n w) as [r w'] eqn:E.
    apply safe_parse_n_elements in E; [| exact Hk]. apply E.
  - intros k l wk mk w1 e w' Hlt Hp Hm He.
    unfold parse_n_elements in *. rewrite Nat2Z.id in Hp.
    apply (repeatM_prefix_raise _ _ k w l wk e w' Hlt Hp).
    apply (parse_one_element_raises _ _ _ _ _ _ Hm He).
Qed.

Lemma parse_n_elements_length_witness :
  (len [None; Some (IntElement (mkMarker sample_tag 2) 7)] = 2 /\
   exists wk mk w1 w2,
     parse_n_elements 41 (Z.of_nat 1) (start (sample_bool 2 ++ sample_int 7))
     = (Ok (firstn 1 [None; Some (IntElement (mkMarker sample_tag 2) 7)]),
        wk) /\
     _parse_marker None wk = (Ok mk, w1) /\
     parse_element 41 mk w1
     = (Ok (nth 1 [None; Some (IntElement (mkMarker sample_tag 2) 7)] None),
        w2)) /\
  (exists k l wk mk w1,
     (k < Z.to_nat 2)%nat /\
     parse_n_elements 33 (Z.of_nat k)
       (start (sample_int 7 ++ sample_tag ++ u32 0x4
                 ++ [x05; x00; x00; x00])) = (Ok l, wk) /\
     _parse_marker None wk = (Ok mk, w1) /\
     (parse_element 33 mk w1
      = (Raise (RuntimeError (UnexpectedStringHeader 32 [x00])),
         mkWorld (sample_int 7 ++ sample_tag ++ u32 0x4
                    ++ [x05; x00; x00; x00]) 32 []) \/
      remaining wk = [])) /\
  fst (parse_n_elements 41 2 (start (sample_bool 2 ++ sample_int 7)))
  <> OutOfFuel /\
  parse_n_elements 33 2
    (start (sample_int 7 ++ sample_tag ++ u32 0x4 ++ [x05; x00; x00; x00]))
  = (Raise (RuntimeError (UnexpectedStringHeader 32 [x00])),
     mkWorld (sample_int 7 ++ sample_tag ++ u32 0x4 ++ [x05; x00; x00; x00])
             32 []).
Proof.
  assert (0 <= 2) as Hn by lia.
  pose proof (parse_n_elements_length 41 2
                (start (sample_bool 2 ++ sample_int 7)) Hn)
    as (Hok & _ & Hfuel & _).
  pose proof (parse_n_elements_length 33 2
                (start (sample_int 7 ++ sample_tag ++ u32 0x4
                          ++ [x05; x00; x00; x00])) Hn)
    as (_ & Hraise & _ & Hfwd).
  split; [split | split; [| split]].
  - apply (Hok _ (snd (parse_n_elements 41 2
                         (start (sample_bool 2 ++ sample_int 7))))).
    vm_compute. reflexivity.
  - destruct (Hok [None; Some (IntElement (mkMarker sample_tag 2) 7)]
                (snd (parse_n_elements 41 2
                        (start (sample_bool 2 ++ sample_int 7)))))
      as [_ Hnth]; [vm_compute; reflexivity |].
    apply (Hnth 1%nat). vm_compute. lia.
  - apply Hraise. vm_compute. reflexivity.
  - apply Hfuel. vm_compute. lia.
  - apply (Hfwd 1%nat [Some (IntElement (mkMarker sample_tag 2) 7)]
             (mkWorld (sample_int 7 ++ sample_tag ++ u32 0x4
                         ++ [x05; x00; x00; x00]) 20 [])
             (Some (mkMarker sample_tag 4))
             (mkWorld (sample_int 7 ++ sample_tag ++ u32 0x4
                         ++ [x05; x00; x00; x00]) 28 [])).
    + vm_compute. lia.
    + vm_compute. reflexivity.
    + vm_compute. reflexivity.
    + vm_compute. reflexivity.
Defined.

(** C2.  When stage 1 returns, the section that ended it is a
    [RegularFileSection] without elements, the last of the list, and every
    section before it is an [EmptyFileSection] or a [RegularFileSection]
    with elements; a section that starts with [10 00 00 00] is decoded as
    [EmptyFileSection], added to the list, and the loop goes on; and with
    more fuel than bytes left the loop does end, returning or raising. *)
Theorem stage1_ends_on_empty_regular_section loop_fuel fuel acc w :
  (forall res w',
     stage1 loop_fuel fuel acc w = (Ok res, w') ->
     exists pre t,
       res = acc ++ pre ++ [RegularFileSection t []] /\
       Forall (fun s => s = EmptyFileSection \/ nonempty_regular s) pre) /\
  (forall rest,
     remaining w = [x10; x00; x00; x00] ++ rest ->
     stage1 (S loop_fuel) fuel acc w =
     stage1 loop_fuel fuel (acc ++ [EmptyFileSection]) (after_sentinel w)) /\
  ((bytes_left w < loop_fuel)%nat -> (loop_fuel <= fuel)%nat ->
   fst (stage1 loop_fuel fuel acc w) <> OutOfFuel).
Proof.
  split; [| split].
  - intros res w'. apply stage1_shape.
  - intros rest Hrem. cbn [stage1].
    rewrite (bind_step _ _ _ _ _ (parse_regular_section_sentinel _ _ _ Hrem)).
    reflexivity.
  - intros Hk Hle.
    destruct (stage1 loop_fuel fuel acc w) as [r w'] eqn:E.
    apply (safe_stage1 _ _ _ Hle _ _ _ Hk) in E. apply E.
Qed.

Lemma stage1_ends_on_empty_regular_section_witness :
  (exists pre t,
     [EmptyFileSection; RegularFileSection 3 []]
     = [] ++ pre ++ [RegularFileSection t []] /\
     Forall (fun s => s = EmptyFileSection \/ nonempty_regular s) pre) /\
  stage1 14 13 []
    (start ([x10; x00; x00; x00] ++ [x03; x00; x00; x00] ++ u32 0))
  = stage1 13 13 ([] ++ [EmptyFileSection])
      (after_sentinel
         (start ([x10; x00; x00; x00] ++ [x03; x00; x00; x00] ++ u32 0))) /\
  fst (stage1 13 13 []
         (start ([x10; x00; x00; x00] ++ [x03; x00; x00; x00] ++ u32 0)))
  <> OutOfFuel.
Proof.
  pose proof (stage1_ends_on_empty_regular_section 13 13 []
                (start ([x10; x00; x00; x00] ++ [x03; x00; x00; x00]
                          ++ u32 0))) as (Hshape & Hstep & Hfuel).
  split; [| split].
  - apply (Hshape _
             (snd (run (stage1 13 13 [])
                     ([x10; x00; x00; x00] ++ [x03; x00; x00; x00]
                        ++ u32 0)))).
    vm_compute. reflexivity.
  - apply (Hstep ([x03; x00; x00; x00] ++ u32 0)). reflexivity.
  - apply Hfuel; vm_compute; lia.
Defined.

(** * Further properties *)

(** ** The 32-bit codec *)

Lemma length_le_digits k : forall x, length (le_digits k x) = k.
Proof.
  induction k as [| k IH]; intros x; simpl; [reflexivity |].
  f_equal. apply IH.
Qed.

Lemma byte_to_Z_of_Z z : 0 <= z < 256 -> byte_to_Z (byte_of_Z z) = z.
Proof.
  intros Hz. unfold byte_to_Z, byte_of_Z.
  destruct (Byte.of_N (Z.to_N z)) as [c |] eqn:E.
  - apply Byte.to_of_N in E. rewrite E. lia.
  - apply Byte.of_N_None_iff in E. lia.
Qed.

Lemma byte_of_Z_to_Z x : byte_of_Z (byte_to_Z x) = x.
Proof.
  unfold byte_to_Z, byte_of_Z. rewrite N2Z.id, Byte.of_to_N. reflexivity.
Qed.

Lemma from_bytes_le_le_digits k :
  forall x, 0 <= x < 256 ^ Z.of_nat k -> from_bytes_le (le_digits k x) = x.
Proof.
  induction k as [| k IH]; intros x Hx.
  - simpl in *. lia.
  - cbn [le_digits from_bytes_le].
    rewrite Nat2Z.inj_succ, Z.pow_succ_r in Hx by lia.
    rewrite byte_to_Z_of_Z by (apply Z.mod_pos_bound; lia).
    rewrite IH.
    + pose proof (Z.div_mod x 256). lia.
    + split; [apply Z.div_pos; lia |].
      apply Z.div_lt_upper_bound; lia.
Qed.

Lemma from_bytes_le_bound bs : from_bytes_le bs < 256 ^ len bs.
Proof.
  unfold len. induction bs as [| x r IH].
  - simpl. lia.
  - cbn [from_bytes_le length]. rewrite Nat2Z.inj_succ, Z.pow_succ_r by lia.
    pose proof (byte_to_Z_range x). lia.
Qed.

Lemma le_digits_from_bytes_le bs :
  le_digits (length bs) (from_bytes_le bs) = bs.
Proof.
  induction bs as [| x r IH]; [reflexivity |].
  cbn [from_bytes_le length le_digits].
  pose proof (byte_to_Z_range x) as Hx.
  assert ((byte_to_Z x + 256 * from_bytes_le r) mod 256 = byte_to_Z x) as ->.
  { symmetry. apply Z.mod_unique with (q := from_bytes_le r); lia. }
  assert ((byte_to_Z x + 256 * from_bytes_le r) / 256 = from_bytes_le r) as ->.
  { symmetry. apply Z.div_unique with (r := byte_to_Z x); lia. }
  rewrite byte_of_Z_to_Z, IH. reflexivity.
Qed.

Lemma _to_bytes_ok x bs :
  _to_bytes x = Ok bs -> 0 <= x < 2 ^ 32 /\ bs = le_digits 4 x.
Proof.
  unfold _to_bytes, to_bytes. intros H.
  destruct ((0 <=? x) && (x <? 256 ^ Z.of_nat 4)) eqn:E; [| discriminate].
  injection H as <-. apply andb_true_iff in E. destruct E as [E1 E2].
  apply Z.leb_le in E1. apply Z.ltb_lt in E2.
  change (256 ^ Z.of_nat 4) with (2 ^ 32) in E2. split; [lia | reflexivity].
Qed.

Lemma _to_bytes_u32 x : 0 <= x < 2 ^ 32 -> _to_bytes x = Ok (le_digits 4 x).
Proof.
  intros Hx. unfold _to_bytes, to_bytes.
  change (256 ^ Z.of_nat 4) with (2 ^ 32).
  assert (((0 <=? x) && (x <? 2 ^ 32)) = true) as ->; [| reflexivity].
  apply andb_true_iff. split; [apply Z.leb_le | apply Z.ltb_lt]; lia.
Qed.

Lemma _parse_int32_app bs rest w :
  remaining w = bs ++ rest -> length bs = 4%nat ->
  _parse_int32 w = (Ok (from_bytes_le bs), advance 4 w).
Proof.
  intros Hrem Hl. unfold _parse_int32.
  assert (4 = len bs) as Hl' by (unfold len; lia).
  rewrite (bind_step _ _ _ _ _ (read_app _ _ 4 _ Hrem Hl')).
  unfold ret. rewrite Hl. reflexivity.
Qed.

(** X1.  What [_to_bytes] writes, [_parse_int32] reads back, and the four
    bytes [_parse_int32] reads are what [_to_bytes] writes for its result;
    [_to_bytes] raises [OverflowError] exactly outside the 32-bit range. *)
Theorem int32_roundtrip w rest :
  (forall x bs,
     _to_bytes x = Ok bs -> remaining w = bs ++ rest ->
     _parse_int32 w = (Ok x, advance 4 w)) /\
  (forall bs,
     remaining w = bs ++ rest -> length bs = 4%nat ->
     exists v, _parse_int32 w = (Ok v, advance 4 w) /\ _to_bytes v = Ok bs) /\
  (forall x, _to_bytes x = Raise OverflowError <-> ~ 0 <= x < 2 ^ 32).
Proof.
  split; [| split].
  - intros x bs Hx Hrem. apply _to_bytes_ok in Hx. destruct Hx as [Hx ->].
    rewrite (_parse_int32_app _ _ _ Hrem (length_le_digits 4 x)).
    rewrite from_bytes_le_le_digits by exact Hx. reflexivity.
  - intros bs Hrem Hl. exists (from_bytes_le bs). split.
    + apply (_parse_int32_app _ _ _ Hrem Hl).
    + rewrite _to_bytes_u32.
      * rewrite <- Hl, le_digits_from_bytes_le. reflexivity.
      * pose proof (from_bytes_le_nonneg bs).
        pose proof (from_bytes_le_bound bs) as Hb. unfold len in Hb.
        rewrite Hl in Hb. change (256 ^ Z.of_nat 4) with (2 ^ 32) in Hb. lia.
  - intros x. split.
    + intros H Hx. rewrite (_to_bytes_u32 x Hx) in H. discriminate.
    + intros Hx. unfold _to_bytes, to_bytes.
      change (256 ^ Z.of_nat 4) with (2 ^ 32).
      destruct ((0 <=? x) && (x <? 2 ^ 32)) eqn:E; [| reflexivity].
      apply andb_true_iff in E. destruct E as [E1 E2].
      apply Z.leb_le in E1. apply Z.ltb_lt in E2. lia.
Qed.

Lemma int32_roundtrip_witness :
  _parse_int32 (start (u32 0x12345678 ++ [xaa]))
  = (Ok 0x12345678, advance 4 (start (u32 0x12345678 ++ [xaa]))) /\
  (exists v,
     _parse_int32 (start ([x78; x56; x34; x12] ++ [xaa]))
     = (Ok v, advance 4 (start ([x78; x56; x34; x12] ++ [xaa]))) /\
     _to_bytes v = Ok [x78; x56; x34; x12]).
Proof.
  split.
  - apply (proj1 (int32_roundtrip (start (u32 0x12345678 ++ [xaa])) [xaa])
             0x12345678 (u32 0x12345678)); reflexivity.
  - apply (proj1 (proj2 (int32_roundtrip
                           (start ([x78; x56; x34; x12] ++ [xaa])) [xaa]))
             [x78; x56; x34; x12]); reflexivity.
Defined.

Lemma from_bytes_le_u32 bs :
  (length bs <= 4)%nat -> is_u32 (from_bytes_le bs) = true.
Proof.
  intros Hl. unfold is_u32. apply andb_true_iff. split.
  - apply Z.leb_le, from_bytes_le_nonneg.
  - apply Z.ltb_lt. pose proof (from_bytes_le_bound bs) as Hb.
    assert (256 ^ len bs <= 256 ^ 4) as Hp
        by (apply Z.pow_le_mono_r; unfold len; lia).
    change (256 ^ 4) with (2 ^ 32) in Hp. lia.
Qed.

(** What a [read] that returned has returned. *)
Lemma read_ok n w bs w' :
  read n w = (Ok bs, w') ->
  w' = advance (length bs) w /\
  (0 <= n -> bs = slice_to n (remaining w) /\ len bs <= n).
Proof.
  unfold read. intros H. injection H as <- <-. split; [reflexivity |].
  intros Hn. assert ((n <? 0) = false) as -> by (apply Z.ltb_ge; lia).
  split; [reflexivity |]. unfold slice_to, len. rewrite length_firstn. lia.
Qed.

Lemma _parse_int32_ok w v w' :
  _parse_int32 w = (Ok v, w') ->
  v = from_bytes_le (slice_to 4 (remaining w)) /\ is_u32 v = true /\
  (bytes_left w' <= bytes_left w)%nat.
Proof.
  unfold _parse_int32. intros H. ok_inv H. ok_inv Hk.
  apply read_ok in Hm. destruct Hm as [-> Hm].
  destruct Hm as [-> Hl]; [lia |]. split; [reflexivity |]. split.
  - apply from_bytes_le_u32. unfold len in Hl. lia.
  - rewrite bytes_left_advance. lia.
Qed.

Lemma _parse_int32_returns w :
  exists v,
    _parse_int32 w
    = (Ok v, advance (length (slice_to 4 (remaining w))) w) /\
    v = from_bytes_le (slice_to 4 (remaining w)) /\
    0 <= v < 2 ^ 32 /\
    (remaining w = [] -> v = 0).
Proof.
  exists (from_bytes_le (slice_to 4 (remaining w))).
  split; [reflexivity |]. split; [reflexivity |]. split.
  - assert (is_u32 (from_bytes_le (slice_to 4 (remaining w))) = true) as H.
    { apply from_bytes_le_u32. unfold slice_to. rewrite length_firstn. lia. }
    unfold is_u32 in H. apply andb_true_iff in H. destruct H as [H1 H2].
    apply Z.leb_le in H1. apply Z.ltb_lt in H2. lia.
  - intros ->. reflexivity.
Qed.

(** X2.  [_parse_int32] never fails: it returns the little-endian value of
    the at most 4 bytes that are left, a 32-bit number, and 0 at the end of
    the stream. *)
Theorem _parse_int32_total w :
  exists v,
    _parse_int32 w
    = (Ok v, advance (length (slice_to 4 (remaining w))) w) /\
    v = from_bytes_le (slice_to 4 (remaining w)) /\
    0 <= v < 2 ^ 32 /\
    (remaining w = [] -> v = 0).
Proof. exact (_parse_int32_returns w). Qed.

Lemma _parse_int32_total_witness :
  exists v,
    _parse_int32 (mkWorld magic 4 [])
    = (Ok v, advance (length (slice_to 4 (remaining (mkWorld magic 4 []))))
               (mkWorld magic 4 [])) /\
    v = 0.
Proof.
  destruct (_parse_int32_total (mkWorld magic 4 []))
    as (v & Hp & _ & _ & Hz).
  exists v. split; [exact Hp |]. apply Hz. reflexivity.
Defined.

(** X3.  [_parse_marker] returns [None] at the end of the stream, where it
    consumes nothing; anywhere else it returns a marker whose name is the
    next at most 4 bytes and whose type code is a 32-bit number. *)
Theorem _parse_marker_end_of_stream w :
  (remaining w = [] -> _parse_marker None w = (Ok None, advance 0 w)) /\
  (remaining w <> [] ->
   exists m w',
     _parse_marker None w = (Ok (Some m), w') /\
     name m = slice_to 4 (remaining w) /\ name m <> [] /\
     0 <= type_ m < 2 ^ 32).
Proof.
  split.
  - intros Hrem. unfold _parse_marker.
    rewrite (bind_step _ _ _ _ _ (read_eof 4 w Hrem)). reflexivity.
  - intros Hne. unfold _parse_marker.
    destruct (read_spec 4 w) as (got & Hr & _ & Heof).
    rewrite (bind_step _ _ _ _ _ Hr).
    pose proof Hr as Hr'. apply read_ok in Hr'. destruct Hr' as [_ Hgot].
    destruct Hgot as [Hgot _]; [lia |].
    destruct got as [| x r].
    + exfalso. apply Hne. specialize (Heof ltac:(lia) eq_refl).
      unfold bytes_left in Heof. destruct (remaining w); [reflexivity |].
      discriminate Heof.
    + destruct (_parse_int32_returns (advance (length (x :: r)) w))
        as (v & Hv & _ & Hb & _).
      rewrite (bind_step _ _ _ _ _ Hv). eexists. eexists.
      split; [reflexivity |]. simpl name. simpl type_.
      split; [exact Hgot |]. split; [discriminate | exact Hb].
Qed.

Lemma _parse_marker_end_of_stream_witness :
  _parse_marker None (start []) = (Ok None, advance 0 (start [])) /\
  (exists m w',
     _parse_marker None (start [x01; x02; x03; x04; x05; x06])
     = (Ok (Some m), w') /\
     name m = slice_to 4 (remaining (start [x01; x02; x03; x04; x05; x06])) /\
     name m <> [] /\ 0 <= type_ m < 2 ^ 32).
Proof.
  split.
  - apply (proj1 (_parse_marker_end_of_stream (start []))). reflexivity.
  - apply (proj2 (_parse_marker_end_of_stream
                    (start [x01; x02; x03; x04; x05; x06]))).
    discriminate.
Defined.

(** ** Decoded elements *)

(** Taking apart every step of a computation that returned. *)
Ltac inv_run :=
  repeat match goal with
  | H : bind _ _ _ = (Ok _, _) |- _ =>
    let a := fresh "a" in
    let w1 := fresh "w" in
    let H1 := fresh "Hm" in
    apply bind_ok in H; destruct H as (a & w1 & H1 & H)
  | H : ret _ _ = (Ok _, _) |- _ =>
    unfold ret in H; inversion H; subst; clear H
  | H : raise _ _ = (Ok _, _) |- _ => discriminate H
  | H : out_of_fuel _ = (Ok _, _) |- _ => discriminate H
  | H : assert ?c _ = (Ok _, _) |- _ =>
    unfold assert in H; destruct c eqn:?; [| discriminate H]
  | H : (if ?c then _ else _) _ = (Ok _, _) |- _ => destruct c eqn:?
  | H : (match ?x with _ => _ end) _ = (Ok _, _) |- _ => destruct x eqn:?
  end.

Lemma repeatM_Forall {A} (P : A -> Prop) (body : M A) n :
  (forall w a w', body w = (Ok a, w') -> P a) ->
  forall w l w', repeatM n body w = (Ok l, w') -> Forall P l.
Proof.
  intros Hb. induction n as [| n IH]; intros w l w' H; cbn [repeatM] in H.
  - inv_run. constructor.
  - inv_run. constructor; eauto.
Qed.

Lemma _read_byte_data_header w h w' :
  _read_byte_data w = (Ok (inr h), w') -> len h <= 8.
Proof.
  unfold _read_byte_data. intros H. inv_run.
  repeat match goal with
         | H : read _ _ = (Ok _, _) |- _ =>
           apply read_ok in H; destruct H as [_ H];
           destruct H as [_ H]; [lia |]
         end.
  unfold len in *. cbn [length]. rewrite length_app. lia.
Qed.

Lemma parse_element_without_marker fuel w o w' :
  parse_element fuel None w = (Ok o, w') -> o = None.
Proof. destruct fuel; cbn [parse_element]; intros H; inv_run; reflexivity. Qed.

Lemma slice_to_len j (bs : bytes) : 0 <= j -> len (slice_to j bs) <= j.
Proof. intros Hj. unfold slice_to, len. rewrite length_firstn. lia. Qed.

Lemma slice_len i j (bs : bytes) :
  0 <= i <= j -> (length (slice i j bs) <= Z.to_nat (j - i))%nat.
Proof.
  intros Hij. unfold slice, slice_from, slice_to.
  rewrite length_skipn, length_firstn. lia.
Qed.

Lemma well_decoded_children (P : GameElement -> bool) l :
  Forall (fun o => match o with None => True | Some x => P x = true end) l ->
  forallb (fun o => match o with None => true | Some x => P x end) l = true.
Proof.
  intros H. apply forallb_forall. intros o Hin.
  rewrite Forall_forall in H. specialize (H o Hin).
  destruct o; [exact H | reflexivity].
Qed.

(** Rewriting with the tests that are known to have succeeded. *)
Ltac use_tests :=
  repeat match goal with
         | H : ?c = true |- context [?c] => rewrite H
         end.

(** What is known of the numbers and byte strings that were read. *)
Ltac read_facts :=
  repeat match goal with
         | H : _parse_int32 _ = (Ok _, _) |- _ =>
           apply _parse_int32_ok in H; destruct H as (_ & H & _)
         | H : read _ _ = (Ok _, _) |- _ =>
           apply read_ok in H; destruct H as [_ H];
           destruct H as [_ H]; [lia |]; apply Z.leb_le in H
         | H : _read_byte_data _ = (Ok (inr _), _) |- _ =>
           apply _read_byte_data_header in H; apply Z.leb_le in H
         end.

Lemma parse_element_well_decoded fuel :
  forall m w e w',
    parse_element fuel (Some m) w = (Ok (Some e), w') ->
    marker_of e = m /\ well_decoded e = true.
Proof.
  induction fuel as [| fuel IH]; intros m w e w' H; cbn [parse_element] in H;
    [discriminate H |].
  destruct (type_ m =? 1) eqn:E1.
  { inv_run. split; [reflexivity |]. cbn [well_decoded]. rewrite E1.
    read_facts.
    match goal with
    | H : is_u32 ?v = true |- _ =>
      unfold is_u32 in H; apply andb_true_iff in H; destruct H as [H _];
        apply Z.leb_le in H
    end.
    repeat match goal with
           | H : (_ <=? _) = true |- _ => apply Z.leb_le in H
           end.
    match goal with
    | |- context [?v =? 0] =>
      destruct (Z.eq_dec v 0) as [-> | Hn]; [reflexivity |];
        assert (v = 1) as -> by lia; reflexivity
    end. }
  destruct (type_ m =? 2) eqn:E2.
  { inv_run. split; [reflexivity |]. cbn [well_decoded]. read_facts.
    use_tests. reflexivity. }
  destruct (type_ m =? 3) eqn:E3.
  { inv_run. split; [reflexivity |]. cbn [well_decoded]. read_facts.
    use_tests. reflexivity. }
  destruct ((type_ m =? 4) || (type_ m =? 5)) eqn:E4.
  { inv_run; (split; [reflexivity |]); cbn [well_decoded]; read_facts;
      use_tests; reflexivity. }
  destruct (type_ m =? 6) eqn:E6.
  { inv_run. split; [reflexivity |]. cbn [well_decoded]. use_tests.
    reflexivity. }
  destruct (type_ m =? 10) eqn:E10.
  { inv_run. split; [reflexivity |]. cbn [well_decoded]. rewrite E10.
    apply well_decoded_children.
    eapply repeatM_Forall; [| eassumption].
    intros w5 o w6 Hb. inv_run. destruct o as [x |]; [| exact I].
    match goal with
    | Hp : parse_element fuel ?mk _ = (Ok (Some _), _) |- _ =>
      destruct mk as [m' |];
        [apply IH in Hp; apply Hp
        | apply parse_element_without_marker in Hp; discriminate Hp]
    end. }
  destruct (type_ m =? 11) eqn:E11.
  { inv_run. split; [reflexivity |]. cbn [well_decoded]. rewrite E11.
    read_facts. use_tests. cbn [andb].
    apply (well_decoded_children
             (fun x => well_decoded x
                       && bytes_eqb (name (marker_of x))
                                    [x00; x00; x00; x00])).
    eapply repeatM_Forall; [| eassumption].
    intros w5 o w6 Hb. inv_run. destruct o as [x |]; [| exact I].
    apply IH in Hb. destruct Hb as [Hmk Hwd]. rewrite Hwd, Hmk.
    reflexivity. }
  destruct (type_ m =? 13) eqn:E13.
  { inv_run. split; [reflexivity |]. cbn [well_decoded]. read_facts.
    use_tests. reflexivity. }
  destruct (type_ m =? 20) eqn:E20.
  { inv_run. split; [reflexivity |]. cbn [well_decoded]. read_facts.
    use_tests. reflexivity. }
  destruct (type_ m =? 24) eqn:E24; [| inv_run].
  inv_run. split; [reflexivity |]. cbn [well_decoded]. rewrite E24.
  match goal with
  | |- context [slice_to 4 ?bs] =>
    pose proof (slice_to_len 4 bs ltac:(lia)) as Hh;
      pose proof (slice_len 4 8 bs ltac:(lia)) as Hs
  end.
  apply Z.leb_le in Hh. rewrite Hh.
  rewrite from_bytes_le_u32; [reflexivity |]. simpl in Hs. lia.
Qed.

(** X4.  Every element the decoder returns, at any depth of nesting, is of
    the class of its marker's type code and carries that marker; its numbers
    are 32-bit, a Boolean is 0 or 1, the strides are 1 for byte strings and
    2 for UTF-16 strings, fixed-size payloads do not exceed their size, and
    the children of an anonymous array carry the all-zero name.  The same
    holds of every entry of a list returned by [parse_n_elements]. *)
Theorem decoded_elements_well_formed fuel :
  (forall m w e w',
     parse_element fuel (Some m) w = (Ok (Some e), w') ->
     marker_of e = m /\ well_decoded e = true) /\
  (forall n w l w',
     parse_n_elements fuel n w = (Ok l, w') ->
     Forall (fun o => match o with
                      | None => True
                      | Some x => well_decoded x = true
                      end) l).
Proof.
  split; [apply parse_element_well_decoded |].
  intros n w l w' H. unfold parse_n_elements in H.
  eapply repeatM_Forall; [| eassumption].
  intros w1 o w2 Hb. unfold parse_one_element in Hb. inv_run; [| exact I].
  match goal with
  | Hp : parse_element fuel ?mk _ = (Ok (Some _), _) |- _ =>
    destruct mk as [m' |];
      [apply parse_element_well_decoded in Hp; apply Hp
      | apply parse_element_without_marker in Hp; discriminate Hp]
  end.
Qed.

Lemma decoded_elements_well_formed_witness :
  (marker_of sample_nested = mkMarker sample_tag 0xB /\
   well_decoded sample_nested = true) /\
  Forall (fun o => match o with
                   | None => True
                   | Some x => well_decoded x = true
                   end)
         [None; Some (IntElement (mkMarker sample_tag 2) 7)].
Proof.
  split.
  - apply (proj1 (decoded_elements_well_formed 3)
             (mkMarker sample_tag 0xB) (start sample_nested_body)
             sample_nested
             (snd (run (parse_element 3 (Some (mkMarker sample_tag 0xB)))
                     sample_nested_body))).
    vm_compute. reflexivity.
  - apply (proj2 (decoded_elements_well_formed 1) 2
             (start (sample_bool 2 ++ sample_int 7)) _
             (snd (run (parse_n_elements 1 2)
                     (sample_bool 2 ++ sample_int 7)))).
    vm_compute. reflexivity.
Defined.

(** ** Truncated and foreign streams *)

Lemma bind_raises {A B} (m : M A) (f : A -> M B) w e w1 :
  m w = (Raise e, w1) -> bind m f w = (Raise e, w1).
Proof. intros H. unfold bind. rewrite H. reflexivity. Qed.

(** X5.  At the end of the stream, [parse_n_elements] asked for at least
    one element raises [AttributeError]: no marker is left, the element
    decode returns [None], and the failure report calls [pretty_str] on the
    missing marker. *)
Theorem parse_n_elements_at_end_of_stream fuel n w :
  0 < n -> remaining w = [] ->
  fst (parse_n_elements (S fuel) n w) = Raise (AttributeError "pretty_str") /\
  trace (snd (parse_n_elements (S fuel) n w))
  = trace w ++ [Print (MsgErrorAt (Z.of_nat (position w)))].
Proof.
  intros Hn Hrem. unfold parse_n_elements.
  destruct (Z.to_nat n) as [| k] eqn:E; [lia |].
  assert (_parse_marker None w = (Ok None, advance 0 w)) as Hm.
  { unfold _parse_marker.
    rewrite (bind_step _ _ _ _ _ (read_eof 4 w Hrem)). reflexivity. }
  assert (parse_one_element (S fuel) w
          = (Raise (AttributeError "pretty_str"),
             mkWorld (input_buffer w) (position w + 0)
                     (trace w
                        ++ [Print (MsgErrorAt
                                     (Z.of_nat (position w + 0)))]))) as Hone.
  { unfold parse_one_element. rewrite (bind_step _ _ _ _ _ Hm).
    reflexivity. }
  cbn [repeatM]. rewrite (bind_raises _ _ _ _ _ Hone). simpl.
  rewrite Nat.add_0_r. split; reflexivity.
Qed.

Lemma parse_n_elements_at_end_of_stream_witness :
  fst (parse_n_elements 1 3 (mkWorld magic 4 []))
  = Raise (AttributeError "pretty_str") /\
  trace (snd (parse_n_elements 1 3 (mkWorld magic 4 [])))
  = [] ++ [Print (MsgErrorAt 4)].
Proof.
  apply (parse_n_elements_at_end_of_stream 0 3 (mkWorld magic 4 [])).
  - lia.
  - reflexivity.
Defined.

Lemma read_all a n w :
  remaining w = a -> len a <= n ->
  read n w = (Ok a, advance (length a) w).
Proof.
  intros Hrem Hn. unfold read.
  assert ((n <? 0) = false) as -> by (apply Z.ltb_ge; unfold len in Hn; lia).
  rewrite Hrem. unfold slice_to.
  rewrite firstn_all2 by (unfold len in *; lia). reflexivity.
Qed.

Lemma parse_regular_section_at_eof fuel w :
  remaining w = [] ->
  fst (parse_regular_section fuel w) = Raise IndexError.
Proof.
  intros Hrem. unfold parse_regular_section.
  unfold bind at 1. unfold tell at 1. unfold bind at 1.
  unfold print at 1. unfold emit at 1.
  match goal with
  | |- fst (bind (read 4) _ ?w0) = _ =>
    assert (remaining w0 = []) as Hrem0 by exact Hrem;
      rewrite (bind_step _ _ _ _ _ (read_eof 4 w0 Hrem0))
  end.
  unfold bind at 1. unfold print at 1. unfold emit at 1.
  change (bytes_eqb [] [x10; x00; x00; x00]) with false. cbv iota.
  unfold bind, _parse_int32, read, ret, raise. simpl. reflexivity.
Qed.

Lemma parse_regular_section_truncated_type fuel w t0 r :
  remaining w = t0 :: r -> (length r < 3)%nat ->
  fst (parse_regular_section fuel w)
  = Ok (RegularFileSection (byte_to_Z t0) []).
Proof.
  intros Hrem Hlen. unfold parse_regular_section.
  unfold bind at 1. unfold tell at 1. unfold bind at 1.
  unfold print at 1. unfold emit at 1.
  match goal with
  | |- fst (bind (read 4) _ ?w0) = _ =>
    assert (remaining w0 = t0 :: r) as Hrem0 by exact Hrem;
      assert (len (t0 :: r) <= 4) as Hle
        by (unfold len; cbn [length]; lia);
      rewrite (bind_step _ _ _ _ _ (read_all _ 4 w0 Hrem0 Hle));
      pose proof (remaining_advance (t0 :: r) [] w0) as Hend;
      rewrite app_nil_r in Hend; specialize (Hend Hrem0)
  end.
  unfold bind at 1. unfold print at 1. unfold emit at 1.
  destruct (bytes_eqb (t0 :: r) [x10; x00; x00; x00]) eqn:E.
  { apply bytes_eqb_eq in E. apply (f_equal (@length byte)) in E.
    cbn [length] in E. lia. }
  unfold _parse_int32. unfold bind at 1. unfold bind at 1.
  match goal with
  | |- context [read 4 ?w1] =>
    assert (remaining w1 = []) as Hrem1 by exact Hend;
      rewrite (read_eof 4 w1 Hrem1)
  end.
  unfold ret at 1. cbn [from_bytes_le].
  assert (regular_count t0 0 = 0) as ->.
  { unfold regular_count. rewrite andb_false_r. reflexivity. }
  reflexivity.
Qed.

(** X6.  When a section starts at the end of the stream,
    [parse_regular_section] raises [IndexError] (the empty type field has
    no first byte), and so does stage 1 of the strict parse in the turn
    that starts there.  When a section starts with 1 to 3 bytes left, the
    truncated type field is taken as it is: the section decodes to a
    [RegularFileSection] of the first byte's type without elements, and
    stage 1 ends there with the list it has. *)
Theorem regular_section_at_end_of_stream loop_fuel fuel acc w :
  (remaining w = [] ->
   fst (parse_regular_section fuel w) = Raise IndexError /\
   fst (stage1 (S loop_fuel) fuel acc w) = Raise IndexError) /\
  (forall t0 r,
     remaining w = t0 :: r -> (length r < 3)%nat ->
     fst (parse_regular_section fuel w)
     = Ok (RegularFileSection (byte_to_Z t0) []) /\
     fst (stage1 (S loop_fuel) fuel acc w)
     = Ok (acc ++ [RegularFileSection (byte_to_Z t0) []])).
Proof.
  split.
  - intros Hrem.
    pose proof (parse_regular_section_at_eof fuel w Hrem) as H.
    split; [exact H |].
    cbn [stage1]. unfold bind.
    destruct (parse_regular_section fuel w) as [[s | e |] w1];
      simpl in H; try discriminate H.
    injection H as ->. reflexivity.
  - intros t0 r Hrem Hlen.
    pose proof (parse_regular_section_truncated_type fuel w t0 r Hrem Hlen)
      as H.
    split; [exact H |].
    cbn [stage1]. unfold bind.
    destruct (parse_regular_section fuel w) as [[s | e |] w1];
      simpl in H; try discriminate H.
    injection H as ->. reflexivity.
Qed.

Lemma regular_section_at_end_of_stream_witness :
  (fst (parse_regular_section 1 (mkWorld magic 4 [])) = Raise IndexError /\
   fst (stage1 1 1 [] (mkWorld magic 4 [])) = Raise IndexError) /\
  (fst (parse_regular_section 1 (mkWorld (magic ++ [x02; x00]) 4 []))
   = Ok (RegularFileSection (byte_to_Z x02) []) /\
   fst (stage1 1 1 [EmptyFileSection] (mkWorld (magic ++ [x02; x00]) 4 []))
   = Ok ([EmptyFileSection] ++ [RegularFileSection (byte_to_Z x02) []])).
Proof.
  split.
  - apply (proj1 (regular_section_at_end_of_stream 0 1 []
                    (mkWorld magic 4 []))).
    reflexivity.
  - apply (proj2 (regular_section_at_end_of_stream 0 1 [EmptyFileSection]
                    (mkWorld (magic ++ [x02; x00]) 4 []))
             x02 [x00]).
    + reflexivity.
    + simpl. lia.
Defined.

(** X7.  On a stream that does not start with the 4 bytes [CIV6], the empty
    stream included, the strict parse and the scan both raise
    [AssertionError] and print nothing. *)
Theorem magic_mismatch_is_an_assertion_error fuel w :
  slice_to 4 (remaining w) <> magic ->
  (fst (parse_civ6save fuel w) = Raise AssertionError /\
   trace (snd (parse_civ6save fuel w)) = trace w) /\
  (fst (parse_jack_shit fuel w) = Raise AssertionError /\
   trace (snd (parse_jack_shit fuel w)) = trace w).
Proof.
  intros Hne.
  assert (bytes_eqb (slice_to 4 (remaining w)) [x43; x49; x56; x36] = false)
    as Hb.
  { destruct (bytes_eqb (slice_to 4 (remaining w)) [x43; x49; x56; x36])
      eqn:E; [| reflexivity].
    apply bytes_eqb_eq in E. contradiction. }
  unfold parse_civ6save, parse_stages, parse_jack_shit, bind, read, assert.
  simpl. rewrite Hb. simpl. repeat split; reflexivity.
Qed.

Lemma magic_mismatch_is_an_assertion_error_witness :
  (fst (parse_civ6save 1 (start [])) = Raise AssertionError /\
   trace (snd (parse_civ6save 1 (start []))) = trace (start [])) /\
  (fst (parse_jack_shit 1 (start [])) = Raise AssertionError /\
   trace (snd (parse_jack_shit 1 (start []))) = trace (start [])).
Proof.
  apply (magic_mismatch_is_an_assertion_error 1 (start [])). discriminate.
Defined.

(** ** Which sections can be written back *)

Lemma RegularFileSection_serialize_ok t elements r :
  RegularFileSection_serialize t elements = Ok r ->
  elements = [] /\ 0 <= t < 2 ^ 32 /\ r = le_digits 4 t ++ le_digits 4 0.
Proof.
  unfold RegularFileSection_serialize. intros H.
  destruct (_to_bytes t) as [tb | |] eqn:Et; try discriminate H.
  cbn [obind] in H.
  destruct (_to_bytes (reported_size t (len elements))) as [sb | |] eqn:Es;
    try discriminate H.
  cbn [obind] in H.
  destruct (join_serialize elements) as [eb | |] eqn:Ee; try discriminate H.
  cbn [obind] in H. injection H as <-.
  apply join_serialize_ok in Ee. destruct Ee as [-> ->].
  apply _to_bytes_ok in Et. destruct Et as [Ht ->].
  apply _to_bytes_ok in Es. destruct Es as [_ ->].
  split; [reflexivity |]. split; [exact Ht |].
  unfold reported_size. simpl len.
  rewrite andb_false_r. rewrite app_nil_r. reflexivity.
Qed.

Lemma section_serialize_shapes s r :
  section_serialize s = Ok (Some r) ->
  (s = EmptyFileSection /\ r = [x10; x00; x00; x00]) \/
  (exists t, s = RegularFileSection t [] /\ 0 <= t < 2 ^ 32 /\
             r = le_digits 4 t ++ le_digits 4 0) \/
  (exists t, s = NamelessSection t [] /\ 0 <= t < 2 ^ 32 /\
             r = le_digits 4 0) \/
  (exists v flagged_ints, s = AlmostConstantSection (BytesValue v) flagged_ints).
Proof.
  destruct s as [t es | t es | | subs | data | t sz bm | entries | bf fl
                 | label es]; cbn [section_serialize]; intros H.
  - destruct (RegularFileSection_serialize t es) as [x | |] eqn:E;
      try discriminate H.
    cbn [obind] in H. injection H as <-.
    apply RegularFileSection_serialize_ok in E. destruct E as (-> & Ht & ->).
    right. left. exists t. auto.
  - destruct (RegularFileSection_serialize t es) as [x | |] eqn:E;
      try discriminate H.
    cbn [obind] in H. injection H as <-.
    apply RegularFileSection_serialize_ok in E. destruct E as (-> & Ht & ->).
    right. right. left. exists t. auto.
  - injection H as <-. left. auto.
  - discriminate H.
  - destruct (join_chunks data); discriminate H.
  - destruct (_to_bytes t); discriminate H.
  - destruct (_to_bytes (len entries)); discriminate H.
  - destruct bf as [| v]; [discriminate H |]. right. right. right. eauto.
  - destruct (_to_bytes (len label)); discriminate H.
Qed.

(** X8.  [serialize] gives a byte string for four shapes of section only:
    the empty sentinel, a regular or nameless section without elements
    whose type is a 32-bit number, and an AlmostConstantSection whose blob
    is a byte string.  Every section with an element, and every Multi,
    Compressed, Bitmap, Pairs and CustomData section, raises or returns
    [None]. *)
Theorem section_serialize_gives_bytes s r :
  section_serialize s = Ok (Some r) ->
  (s = EmptyFileSection /\ r = [x10; x00; x00; x00]) \/
  (exists t, s = RegularFileSection t [] /\ 0 <= t < 2 ^ 32 /\
             r = le_digits 4 t ++ le_digits 4 0) \/
  (exists t, s = NamelessSection t [] /\ 0 <= t < 2 ^ 32 /\
             r = le_digits 4 0) \/
  (exists v flagged_ints, s = AlmostConstantSection (BytesValue v) flagged_ints).
Proof. exact (section_serialize_shapes s r). Qed.

Lemma section_serialize_gives_bytes_witness :
  (RegularFileSection 3 [] = EmptyFileSection /\
   u32 3 ++ u32 0 = [x10; x00; x00; x00]) \/
  (exists t, RegularFileSection 3 [] = RegularFileSection t [] /\
             0 <= t < 2 ^ 32 /\ u32 3 ++ u32 0 = le_digits 4 t ++ le_digits 4 0) \/
  (exists t, RegularFileSection 3 [] = NamelessSection t [] /\
             0 <= t < 2 ^ 32 /\ u32 3 ++ u32 0 = le_digits 4 0) \/
  (exists v flagged_ints,
     RegularFileSection 3 [] = AlmostConstantSection (BytesValue v) flagged_ints).
Proof.
  apply (section_serialize_gives_bytes (RegularFileSection 3 [])
           (u32 3 ++ u32 0)).
  reflexivity.
Defined.

(** ** Regular sections without elements *)

Lemma le_digits_byte t :
  0 <= t < 256 -> le_digits 4 t = [byte_of_Z t; x00; x00; x00].
Proof.
  intros Ht. cbn [le_digits].
  rewrite (Z.mod_small t 256) by lia. rewrite (Z.div_small t 256) by lia.
  reflexivity.
Qed.

Lemma parse_regular_section_no_elements fuel w t0 t1 t2 t3 rest :
  remaining w = [t0; t1; t2; t3] ++ u32 0 ++ rest ->
  [t0; t1; t2; t3] <> [x10; x00; x00; x00] ->
  fst (parse_regular_section fuel w)
  = Ok (RegularFileSection (byte_to_Z t0) []).
Proof.
  intros Hrem Hne. unfold parse_regular_section.
  unfold bind at 1. unfold tell at 1. unfold bind at 1.
  unfold print at 1. unfold emit at 1.
  match goal with
  | |- fst (bind (read 4) _ ?w0) = _ =>
    assert (remaining w0 = [t0; t1; t2; t3] ++ u32 0 ++ rest) as Hrem0
        by exact Hrem;
      rewrite (bind_step _ _ _ _ _ (read_app _ _ 4 _ Hrem0 eq_refl));
      apply remaining_advance in Hrem0
  end.
  unfold bind at 1. unfold print at 1. unfold emit at 1.
  assert (bytes_eqb [t0; t1; t2; t3] [x10; x00; x00; x00] = false) as ->.
  { destruct (bytes_eqb [t0; t1; t2; t3] [x10; x00; x00; x00]) eqn:E;
      [| reflexivity].
    apply bytes_eqb_eq in E. contradiction. }
  match goal with
  | |- fst (bind _parse_int32 _ ?w1) = _ =>
    assert (remaining w1 = u32 0 ++ rest) as Hrem1 by exact Hrem0;
      rewrite (bind_step _ _ _ _ _
                 (_parse_int32_app _ _ _ Hrem1 (length_le_digits 4 0)))
  end.
  change (from_bytes_le (u32 0)) with 0.
  assert (regular_count t0 0 = 0) as ->.
  { unfold regular_count. rewrite andb_false_r. reflexivity. }
  reflexivity.
Qed.

(** X9.  A regular section without elements survives both round trips: the
    8 bytes of a type byte other than [0x10], three zero bytes and a zero
    count decode to a section that serializes to those 8 bytes, and a
    section of type [t] below 256 other than [0x10] serializes to bytes that
    decode to it. *)
Theorem empty_regular_section_roundtrip fuel w rest :
  (forall t0,
     t0 <> x10 ->
     remaining w = [t0; x00; x00; x00] ++ u32 0 ++ rest ->
     exists s,
       fst (parse_regular_section fuel w) = Ok s /\
       section_serialize s = Ok (Some ([t0; x00; x00; x00] ++ u32 0))) /\
  (forall t r,
     0 <= t < 256 -> t <> 0x10 ->
     section_serialize (RegularFileSection t []) = Ok (Some r) ->
     remaining w = r ++ rest ->
     fst (parse_regular_section fuel w) = Ok (RegularFileSection t [])).
Proof.
  split.
  - intros t0 Ht0 Hrem. exists (RegularFileSection (byte_to_Z t0) []). split.
    + apply (parse_regular_section_no_elements _ _ _ _ _ _ _ Hrem).
      intros E. injection E as E. contradiction.
    + cbn [section_serialize]. unfold RegularFileSection_serialize.
      pose proof (byte_to_Z_range t0) as Hr.
      rewrite _to_bytes_u32 by lia. cbn [obind].
      assert (reported_size (byte_to_Z t0) (len (@nil (option GameElement)))
              = 0) as ->.
      { unfold reported_size. simpl len. rewrite andb_false_r. reflexivity. }
      rewrite _to_bytes_u32 by lia. cbn [obind join_serialize].
      rewrite le_digits_byte by exact Hr. rewrite byte_of_Z_to_Z.
      rewrite app_nil_r. reflexivity.
  - intros t r Ht Hne Hs Hrem.
    apply section_serialize_shapes in Hs.
    destruct Hs as [[E _] | [(t' & E & _ & ->) | [(t' & E & _) | (v & f & E)]]];
      try discriminate E.
    injection E as <-. rewrite le_digits_byte in Hrem by exact Ht.
    rewrite <- app_assoc in Hrem.
    rewrite (parse_regular_section_no_elements _ _ _ _ _ _ _ Hrem).
    + rewrite byte_to_Z_of_Z by exact Ht. reflexivity.
    + intros E. injection E as E.
      apply (f_equal byte_to_Z) in E. rewrite byte_to_Z_of_Z in E by exact Ht.
      change (byte_to_Z x10) with 16 in E. lia.
Qed.

Lemma empty_regular_section_roundtrip_witness :
  (exists s,
     fst (parse_regular_section 1 (start ([x07; x00; x00; x00] ++ u32 0 ++ [])))
     = Ok s /\
     section_serialize s = Ok (Some ([x07; x00; x00; x00] ++ u32 0))) /\
  fst (parse_regular_section 1 (start ([x07; x00; x00; x00] ++ u32 0 ++ [])))
  = Ok (RegularFileSection 7 []).
Proof.
  split.
  - apply (proj1 (empty_regular_section_roundtrip 1
                    (start ([x07; x00; x00; x00] ++ u32 0 ++ [])) [])
             x07).
    + discriminate.
    + reflexivity.
  - apply (proj2 (empty_regular_section_roundtrip 1
                    (start ([x07; x00; x00; x00] ++ u32 0 ++ [])) [])
             7 ([x07; x00; x00; x00] ++ u32 0)).
    + lia.
    + lia.
    + reflexivity.
    + reflexivity.
Defined.

(** ** The sections of a parsed document *)

Lemma parse_compressed_loop_kind fuel :
  forall data w s w',
    parse_compressed_loop fuel data w = (Ok s, w') ->
    exists data', s = CompressedSection data'.
Proof.
  induction fuel as [| fuel IH]; intros data w s w' H;
    cbn [parse_compressed_loop] in H; [discriminate H |].
  inv_run; eauto.
Qed.

Lemma _to_bytes_negative x : x < 0 -> _to_bytes x = Raise OverflowError.
Proof.
  intros Hx. unfold _to_bytes, to_bytes.
  assert ((0 <=? x) = false) as -> by (apply Z.leb_gt; exact Hx).
  reflexivity.
Qed.

(** X10.  When the stages of the strict parse return, the list is the
    sections of stage 1, ending with a regular section without elements,
    followed by exactly seven sections of the kinds of stages 2 to 8 in
    order; the nameless section has type -1 and the AlmostConstantSection
    holds the builtin [bytes] instead of its blob, and none of the seven
    can be serialized to a byte string. *)
Theorem parsed_document_shape fuel w res w' :
  parse_stages fuel w = (Ok res, w') ->
  exists pre t subsections elements data bt size bmap entries flagged_ints
         label custom,
    res = (pre ++ [RegularFileSection t []])
          ++ [MultiSection subsections; NamelessSection (-1) elements;
              CompressedSection data; BitmapSection bt size bmap;
              PairsSection entries;
              AlmostConstantSection BuiltinBytesType flagged_ints;
              CustomDataSection label custom] /\
    8 <= len res /\
    Forall gives_no_bytes
           [MultiSection subsections; NamelessSection (-1) elements;
            CompressedSection data; BitmapSection bt size bmap;
            PairsSection entries;
            AlmostConstantSection BuiltinBytesType flagged_ints;
            CustomDataSection label custom].
Proof.
  intros H. unfold parse_stages in H. inv_run.
  match goal with
  | Hs : stage1 _ _ _ _ = (Ok _, _) |- _ =>
    apply stage1_shape in Hs; destruct Hs as (pre & t & -> & _)
  end.
  repeat match goal with
         | Hp : parse_multisection _ _ = (Ok _, _) |- _ =>
           unfold parse_multisection in Hp; inv_run
         | Hp : parse_nameless_section _ _ = (Ok _, _) |- _ =>
           unfold parse_nameless_section in Hp; inv_run
         | Hp : parse_compressed _ _ = (Ok _, _) |- _ =>
           unfold parse_compressed in Hp; inv_run
         | Hp : parse_compressed_loop _ _ _ = (Ok _, _) |- _ =>
           apply parse_compressed_loop_kind in Hp; destruct Hp as (? & ->)
         | Hp : parse_bmap _ = (Ok _, _) |- _ =>
           unfold parse_bmap in Hp; inv_run
         | Hp : parse_pairs_section _ = (Ok _, _) |- _ =>
           unfold parse_pairs_section in Hp; inv_run
         | Hp : parse_weird_constant_data _ = (Ok _, _) |- _ =>
           unfold parse_weird_constant_data in Hp; inv_run
         | Hp : parse_custom_data _ _ = (Ok _, _) |- _ =>
           unfold parse_custom_data in Hp; inv_run
         end.
  do 12 eexists. split; [reflexivity |]. split.
  - unfold len. rewrite !length_app. simpl. lia.
  - repeat constructor; intros r Hr;
      apply section_serialize_shapes in Hr;
      destruct Hr as [[E _] | [(t' & E & _) | [(t' & E & Ht & _)
                                              | (v & f & E)]]];
      try discriminate E.
    injection E as <- _. lia.
Qed.

Lemma parsed_document_shape_witness :
  exists pre t subsections elements data bt size bmap entries flagged_ints
         label custom,
    [RegularFileSection 2 [None]; RegularFileSection 3 [];
     MultiSection []; NamelessSection (-1) []; CompressedSection [[]];
     BitmapSection 7 (0, 0) []; PairsSection [];
     AlmostConstantSection BuiltinBytesType []; CustomDataSection [] []]
    = (pre ++ [RegularFileSection t []])
      ++ [MultiSection subsections; NamelessSection (-1) elements;
          CompressedSection data; BitmapSection bt size bmap;
          PairsSection entries;
          AlmostConstantSection BuiltinBytesType flagged_ints;
          CustomDataSection label custom] /\
    8 <= len [RegularFileSection 2 [None]; RegularFileSection 3 [];
              MultiSection []; NamelessSection (-1) []; CompressedSection [[]];
              BitmapSection 7 (0, 0) []; PairsSection [];
              AlmostConstantSection BuiltinBytesType [];
              CustomDataSection [] []] /\
    Forall gives_no_bytes
           [MultiSection subsections; NamelessSection (-1) elements;
            CompressedSection data; BitmapSection bt size bmap;
            PairsSection entries;
            AlmostConstantSection BuiltinBytesType flagged_ints;
            CustomDataSection label custom].
Proof.
  apply (parsed_document_shape 2 (start sample_document) _
           (snd (run (parse_stages 2) sample_document))).
  vm_compute. reflexivity.
Defined.

(** ** Bitmap and pairs sections *)

Lemma repeatM_int32_total n :
  forall w, exists l w',
      repeatM n _parse_int32 w = (Ok l, w') /\
      length l = n /\ Forall (fun v => 0 <= v < 2 ^ 32) l /\
      (remaining w = [] -> l = repeat 0 n).
Proof.
  induction n as [| n IH]; intros w.
  - exists [], w. repeat split; auto.
  - destruct (_parse_int32_returns w) as (v & Hv & _ & Hb & H0).
    destruct (IH (advance (length (slice_to 4 (remaining w))) w))
      as (l & w' & Hl & Hlen & Hall & Hz).
    exists (v :: l), w'. cbn [repeatM].
    rewrite (bind_step _ _ _ _ _ Hv), (bind_step _ _ _ _ _ Hl).
    split; [reflexivity |]. split; [simpl; lia |].
    split; [constructor; assumption |].
    intros Hrem. rewrite (H0 Hrem). simpl. f_equal. apply Hz.
    rewrite Hrem. unfold remaining, advance in *. simpl.
    rewrite Nat.add_0_r. exact Hrem.
Qed.

Lemma bytes_left_after_int32 u :
  bytes_left (advance (length (slice_to 4 (remaining u))) u)
  = (bytes_left u - 4)%nat.
Proof.
  rewrite bytes_left_advance. unfold slice_to, bytes_left.
  rewrite length_firstn. lia.
Qed.

(** X11.  [parse_bmap] never fails: whatever is left of the stream, it
    returns a bitmap whose cell list has exactly width times height entries,
    all 32-bit numbers; where the stream ends before the cells, the missing
    cells are 0. *)
Theorem parse_bmap_total w :
  exists t width height bmap w',
    parse_bmap w = (Ok (BitmapSection t (width, height) bmap), w') /\
    len bmap = width * height /\
    Forall (fun v => 0 <= v < 2 ^ 32) bmap /\
    ((bytes_left w <= 12)%nat ->
     bmap = repeat 0 (Z.to_nat (width * height))).
Proof.
  unfold parse_bmap.
  unfold bind at 1. unfold tell at 1. unfold bind at 1.
  unfold print at 1. unfold emit at 1.
  match goal with
  | |- context [bind _parse_int32 _ ?w0] => set (wa := w0)
  end.
  destruct (_parse_int32_returns wa) as (t & Ht & _ & _ & _).
  rewrite (bind_step _ _ _ _ _ Ht).
  set (wb := advance (length (slice_to 4 (remaining wa))) wa) in *.
  destruct (_parse_int32_returns wb) as (wd & Hwd & _ & Hbw & _).
  rewrite (bind_step _ _ _ _ _ Hwd).
  set (wc := advance (length (slice_to 4 (remaining wb))) wb) in *.
  destruct (_parse_int32_returns wc) as (h & Hh & _ & Hbh & _).
  rewrite (bind_step _ _ _ _ _ Hh).
  set (wd' := advance (length (slice_to 4 (remaining wc))) wc) in *.
  unfold bind at 1. unfold print at 1. unfold emit at 1.
  match goal with
  | |- context [bind (repeatM ?n _parse_int32) _ ?w0] =>
    destruct (repeatM_int32_total n w0) as (l & w' & Hl & Hlen & Hall & Hz);
      rewrite (bind_step _ _ _ _ _ Hl)
  end.
  exists t, wd, h, l, w'. split; [reflexivity |].
  split; [unfold len; rewrite Hlen; nia |]. split; [exact Hall |].
  intros Hshort. apply Hz.
  assert (bytes_left wa = bytes_left w) as Ea by reflexivity.
  assert (bytes_left wd' = 0)%nat as Hend.
  { unfold wd', wc, wb. rewrite !bytes_left_after_int32. lia. }
  unfold bytes_left in Hend.
  match goal with
  | |- remaining ?u = [] =>
    assert (remaining u = remaining wd') as -> by reflexivity
  end.
  destruct (remaining wd'); [reflexivity | discriminate Hend].
Qed.

Lemma read_len n w bs w' :
  0 <= n -> read n w = (Ok bs, w') -> len bs <= n.
Proof. intros Hn H. apply read_ok in H. apply H. exact Hn. Qed.

Lemma Z0_le_10 : 0 <= 10.
Proof. lia. Qed.

(** X12.  [parse_pairs_section] raises [AssertionError] unless the next 4
    bytes are [A5 A5 00 00]; when it returns, the section has exactly as
    many entries as the count field says, none longer than 10 bytes. *)
Theorem parse_pairs_section_entries w :
  (slice_to 4 (remaining w) <> [xa5; xa5; x00; x00] ->
   fst (parse_pairs_section w) = Raise AssertionError) /\
  (forall s w',
     parse_pairs_section w = (Ok s, w') ->
     exists entries,
       s = PairsSection entries /\
       slice_to 4 (remaining w) = [xa5; xa5; x00; x00] /\
       len entries = from_bytes_le (slice_to 4 (skipn 4 (remaining w))) /\
       Forall (fun e => len e <= 10) entries).
Proof.
  split.
  - intros Hne. unfold parse_pairs_section, bind, tell, print, emit, read,
      assert. simpl.
    assert (bytes_eqb (slice_to 4 (remaining w)) [xa5; xa5; x00; x00] = false)
      as Hb.
    { destruct (bytes_eqb (slice_to 4 (remaining w)) [xa5; xa5; x00; x00])
        eqn:E; [| reflexivity].
      apply bytes_eqb_eq in E. contradiction. }
    unfold remaining in *. simpl. rewrite Hb. reflexivity.
  - intros s w' H. unfold parse_pairs_section in H. inv_run.
    repeat match goal with
           | Ht : tell _ = (Ok _, _) |- _ =>
             unfold tell in Ht; inversion Ht; subst; clear Ht
           | Hp : print _ _ = (Ok _, _) |- _ =>
             unfold print, emit in Hp; inversion Hp; subst; clear Hp
           end.
    match goal with
    | Hr : read 4 _ = (Ok ?a, _), Hb : bytes_eqb ?a _ = true |- _ =>
      apply bytes_eqb_eq in Hb; subst a;
        pose proof Hr as Hr'; apply read_ok in Hr';
        destruct Hr' as [-> Hr']; destruct Hr' as [Hmagic _]; [lia |]
    end.
    match goal with
    | Hi : _parse_int32 _ = (Ok _, _) |- _ =>
      pose proof Hi as Hi'; apply _parse_int32_ok in Hi';
        destruct Hi' as (Hv & _ & _)
    end.
    match goal with
    | Hrep : repeatM _ (read 10) _ = (Ok ?l, _) |- _ =>
      exists l; split; [reflexivity |];
        pose proof (repeatM_length _ _ _ _ _ Hrep) as Hlen;
        pose proof (repeatM_Forall (fun e => len e <= 10) _ _
                      (fun w0 a0 w1 => read_len 10 w0 a0 w1 Z0_le_10)
                      _ _ _ Hrep) as Hall
    end.
    split; [symmetry; exact Hmagic |]. split; [| exact Hall].
    unfold len. rewrite Hlen.
    match goal with
    | Hu : is_u32 _ = true |- _ => clear Hu
    | _ => idtac
    end.
    rewrite Z2Nat.id.
    + rewrite Hv. f_equal. f_equal. unfold remaining, advance. simpl.
      rewrite Nat.add_comm, <- skipn_skipn. reflexivity.
    + rewrite Hv. apply from_bytes_le_nonneg.
Qed.

Lemma parse_bmap_total_witness :
  exists t width height bmap w',
    parse_bmap (start (u32 7 ++ u32 2 ++ u32 3))
    = (Ok (BitmapSection t (width, height) bmap), w') /\
    bmap = repeat 0 (Z.to_nat (width * height)).
Proof.
  destruct (parse_bmap_total (start (u32 7 ++ u32 2 ++ u32 3)))
    as (t & width & height & bmap & w' & Hp & _ & _ & Hz).
  exists t, width, height, bmap, w'. split; [exact Hp |].
  apply Hz. vm_compute. lia.
Defined.

Lemma parse_pairs_section_entries_witness :
  fst (parse_pairs_section (start [xa5; xa5; x00])) = Raise AssertionError /\
  (exists entries,
     PairsSection [zeros 10; [x01; x02]] = PairsSection entries /\
     slice_to 4 (remaining (start ([xa5; xa5; x00; x00] ++ u32 2 ++ zeros 10
                                     ++ [x01; x02])))
     = [xa5; xa5; x00; x00] /\
     len entries
     = from_bytes_le
         (slice_to 4
            (skipn 4 (remaining (start ([xa5; xa5; x00; x00] ++ u32 2
                                          ++ zeros 10 ++ [x01; x02]))))) /\
     Forall (fun e => len e <= 10) entries).
Proof.
  split.
  - apply (proj1 (parse_pairs_section_entries (start [xa5; xa5; x00]))).
    discriminate.
  - apply (proj2 (parse_pairs_section_entries
                    (start ([xa5; xa5; x00; x00] ++ u32 2 ++ zeros 10
                              ++ [x01; x02])))
             _
             (snd (run parse_pairs_section
                     ([xa5; xa5; x00; x00] ++ u32 2 ++ zeros 10
                        ++ [x01; x02])))).
    vm_compute. reflexivity.
Defined.

(** ** Length-prefixed chunks and records *)

Lemma remaining_with_trace w t :
  remaining (mkWorld (input_buffer w) (position w) t) = remaining w.
Proof. reflexivity. Qed.

Lemma parse_compressed_loop_framed data :
  forall fuel acc w bs rest,
    framed data = true -> (length data <= fuel)%nat ->
    join_chunks data = Ok bs -> remaining w = bs ++ rest ->
    exists w',
      parse_compressed_loop fuel acc w
      = (Ok (CompressedSection (acc ++ data)), w') /\
      remaining w' = rest.
Proof.
  induction data as [| c data IH]; intros fuel acc w bs rest Hf Hfuel Hj Hrem;
    [discriminate Hf |].
  destruct fuel as [| fuel]; [simpl in Hfuel; lia |].
  cbn [join_chunks] in Hj.
  destruct (_to_bytes (len c)) as [lb | |] eqn:El; try discriminate Hj.
  cbn [obind] in Hj.
  destruct (join_chunks data) as [y | |] eqn:Ey; try discriminate Hj.
  cbn [obind] in Hj. injection Hj as <-.
  apply _to_bytes_ok in El. destruct El as [Hc ->].
  rewrite <- !app_assoc in Hrem.
  cbn [parse_compressed_loop].
  rewrite (bind_step _ _ _ _ _
             (_parse_int32_app _ _ _ Hrem (length_le_digits 4 (len c)))).
  rewrite from_bytes_le_le_digits by exact Hc.
  assert (remaining (advance 4 w) = c ++ y ++ rest) as Hrem1.
  { rewrite <- (length_le_digits 4 (len c)).
    apply (remaining_advance _ _ _ Hrem). }
  rewrite (bind_step _ _ _ _ _ (read_app _ _ (len c) _ Hrem1 eq_refl)).
  apply remaining_advance in Hrem1.
  destruct data as [| c' data'].
  - cbn [framed] in Hf. rewrite Hf.
    cbn [join_chunks] in Ey. injection Ey as <-.
    eexists. split; [reflexivity |]. exact Hrem1.
  - assert ((len c <? 65536) = false) as Hge.
    { cbn [framed] in Hf. apply andb_true_iff in Hf. destruct Hf as [Hf _].
      apply andb_true_iff in Hf. destruct Hf as [Hf _].
      apply Z.leb_le in Hf. apply Z.ltb_ge. exact Hf. }
    rewrite Hge.
    assert (framed (c' :: data') = true) as Hf'.
    { cbn [framed] in Hf. apply andb_true_iff in Hf. apply Hf. }
    destruct (IH fuel (acc ++ [c]) _ y rest Hf' ltac:(simpl in *; lia)
                eq_refl Hrem1) as (w' & Hp & Hr).
    exists w'. split; [| exact Hr].
    rewrite Hp. rewrite <- app_assoc. reflexivity.
Qed.

(** X13.  The length-prefixed chunk stream that
    [CompressedSection.serialize] builds decodes back under
    [parse_compressed] to the same chunk list, with the cursor right after
    the last chunk, provided every chunk but the last is at least [0x10000]
    bytes long and the last is shorter. *)
Theorem compressed_section_roundtrip fuel data w bs rest :
  framed data = true -> (length data <= fuel)%nat ->
  join_chunks data = Ok bs -> remaining w = bs ++ rest ->
  fst (parse_compressed fuel w) = Ok (CompressedSection data) /\
  remaining (snd (parse_compressed fuel w)) = rest.
Proof.
  intros Hf Hfuel Hj Hrem. unfold parse_compressed.
  unfold bind at 1. unfold tell at 1. unfold bind at 1.
  unfold print at 1. unfold emit at 1.
  unfold bind at 2. unfold tell at 1. unfold bind at 1.
  unfold print at 1. unfold emit at 1.
  match goal with
  | |- context [parse_compressed_loop fuel [] ?w0] =>
    destruct (parse_compressed_loop_framed data fuel [] w0 bs rest
                Hf Hfuel Hj Hrem) as (w' & Hp & Hr);
      rewrite Hp
  end.
  split; [reflexivity | exact Hr].
Qed.

Lemma compressed_section_roundtrip_witness :
  fst (parse_compressed 1 (start (u32 2 ++ [xe1; xe2] ++ [xaa])))
  = Ok (CompressedSection [[xe1; xe2]]) /\
  remaining (snd (parse_compressed 1 (start (u32 2 ++ [xe1; xe2] ++ [xaa]))))
  = [xaa].
Proof.
  apply (compressed_section_roundtrip 1 [[xe1; xe2]]
           (start (u32 2 ++ [xe1; xe2] ++ [xaa]))
           (u32 2 ++ [xe1; xe2]) [xaa]); reflexivity.
Defined.

(** Reading back records of a fixed size. *)
Lemma repeatM_read_concat k (records : list bytes) :
  forall w rest,
    Forall (fun e => len e = k) records ->
    remaining w = concat records ++ rest ->
    exists w',
      repeatM (length records) (read k) w = (Ok records, w') /\
      remaining w' = rest /\ trace w' = trace w.
Proof.
  induction records as [| e records IH]; intros w rest Hall Hrem.
  - exists w. repeat split. exact Hrem.
  - inversion Hall as [| ? ? He Hall']; subst.
    cbn [concat] in Hrem. rewrite <- app_assoc in Hrem.
    cbn [length repeatM].
    rewrite (bind_step _ _ _ _ _ (read_app _ _ (len e) _ Hrem eq_refl)).
    apply remaining_advance in Hrem.
    destruct (IH _ rest Hall' Hrem) as (w' & Hp & Hr & Ht).
    exists w'. rewrite (bind_step _ _ _ _ _ Hp).
    repeat split; assumption.
Qed.

Lemma bind_tell {A} (f : Z -> M A) w :
  bind tell f w = f (Z.of_nat (position w)) w.
Proof. reflexivity. Qed.

Lemma bind_print {A} msg (f : unit -> M A) w :
  bind (print msg) f w
  = f tt (mkWorld (input_buffer w) (position w) (trace w ++ [Print msg])).
Proof. reflexivity. Qed.

Lemma parse_weird_constant_data_serialized v flagged_ints w rest :
  Forall (fun e => len e = 5) flagged_ints ->
  0 <= len v < 2 ^ 32 -> 0 <= len flagged_ints < 2 ^ 32 ->
  remaining w
  = le_digits 4 (len v) ++ v ++ le_digits 4 (len flagged_ints)
      ++ concat flagged_ints
      ++ ([x01; x00; x00; x00] ++ [x01; x00; x00; x00]
            ++ [x01; x00; x00; x00]) ++ rest ->
  exists w',
    parse_weird_constant_data w
    = (Ok (AlmostConstantSection BuiltinBytesType flagged_ints), w') /\
    remaining w' = rest.
Proof.
  intros Hall Hv Hf Hrem. unfold parse_weird_constant_data.
  rewrite bind_tell, bind_print.
  match goal with
  | |- context [bind _parse_int32 _ ?w0] =>
    assert (remaining w0 = remaining w) as Hw0 by reflexivity;
      rewrite <- Hw0 in Hrem
  end.
  rewrite (bind_step _ _ _ _ _
             (_parse_int32_app _ _ _ Hrem (length_le_digits 4 (len v)))).
  rewrite from_bytes_le_le_digits by exact Hv.
  apply remaining_advance in Hrem. rewrite length_le_digits in Hrem.
  rewrite (bind_step _ _ _ _ _ (read_app _ _ (len v) _ Hrem eq_refl)).
  apply remaining_advance in Hrem.
  rewrite (bind_step _ _ _ _ _
             (_parse_int32_app _ _ _ Hrem
                (length_le_digits 4 (len flagged_ints)))).
  rewrite from_bytes_le_le_digits by exact Hf.
  apply remaining_advance in Hrem. rewrite length_le_digits in Hrem.
  unfold len at 1. rewrite Nat2Z.id.
  destruct (repeatM_read_concat 5 flagged_ints _ _ Hall Hrem)
    as (w3 & Hp & Hr3 & _).
  rewrite (bind_step _ _ _ _ _ Hp).
  rewrite (bind_step _ _ _ _ _ (read_app _ _ 12 _ Hr3 eq_refl)).
  apply remaining_advance in Hr3.
  eexists. split; [reflexivity | exact Hr3].
Qed.

(** X14.  Decoding what [AlmostConstantSection.serialize] writes gives the
    5-byte records back but not the blob: the section that
    [parse_weird_constant_data] returns holds the builtin [bytes], and the
    cursor is right after the trailer. *)
Theorem almost_constant_section_loses_blob v flagged_ints r w rest :
  Forall (fun e => len e = 5) flagged_ints ->
  section_serialize (AlmostConstantSection (BytesValue v) flagged_ints)
  = Ok (Some r) ->
  remaining w = r ++ rest ->
  fst (parse_weird_constant_data w)
  = Ok (AlmostConstantSection BuiltinBytesType flagged_ints) /\
  remaining (snd (parse_weird_constant_data w)) = rest.
Proof.
  intros Hall Hs Hrem. cbn [section_serialize] in Hs.
  destruct (_to_bytes (len v)) as [lb | |] eqn:El; try discriminate Hs.
  cbn [obind] in Hs.
  match type of Hs with
  | context [_to_bytes ?x] =>
    destruct (_to_bytes x) as [fb | |] eqn:Ef; try discriminate Hs
  end.
  cbn [obind] in Hs. injection Hs as <-.
  apply _to_bytes_ok in El. destruct El as [Hv ->].
  apply _to_bytes_ok in Ef. destruct Ef as [Hf ->].
  rewrite <- !app_assoc in Hrem.
  destruct (parse_weird_constant_data_serialized v flagged_ints w rest
              Hall Hv Hf Hrem) as (w' & Hp & Hr).
  rewrite Hp. split; [reflexivity | exact Hr].
Qed.

Lemma almost_constant_section_loses_blob_witness :
  fst (parse_weird_constant_data
         (start ((u32 2 ++ [xb1; xb2] ++ u32 1 ++ [x01; x02; x03; x04; x05]
                    ++ [x01; x00; x00; x00] ++ [x01; x00; x00; x00]
                    ++ [x01; x00; x00; x00]) ++ [xaa])))
  = Ok (AlmostConstantSection BuiltinBytesType [[x01; x02; x03; x04; x05]]) /\
  remaining
    (snd (parse_weird_constant_data
            (start ((u32 2 ++ [xb1; xb2] ++ u32 1
                       ++ [x01; x02; x03; x04; x05]
                       ++ [x01; x00; x00; x00] ++ [x01; x00; x00; x00]
                       ++ [x01; x00; x00; x00]) ++ [xaa]))))
  = [xaa].
Proof.
  apply (almost_constant_section_loses_blob [xb1; xb2]
           [[x01; x02; x03; x04; x05]]
           (u32 2 ++ [xb1; xb2] ++ u32 1 ++ [x01; x02; x03; x04; x05]
              ++ [x01; x00; x00; x00] ++ [x01; x00; x00; x00]
              ++ [x01; x00; x00; x00])).
  - repeat constructor.
  - reflexivity.
  - reflexivity.
Defined.

(** ** The analysis of a scan result *)

Lemma fragments_app {A} (l1 l2 : list (A + bytes)) :
  fragments (l1 ++ l2) = fragments l1 ++ fragments l2.
Proof. unfold fragments. apply flat_map_app. Qed.

Lemma counts_app (l1 l2 : list (Z + bytes)) :
  counts (l1 ++ l2) = counts l1 ++ counts l2.
Proof. unfold counts. apply flat_map_app. Qed.

Lemma sum_Z_app l1 l2 : sum_Z (l1 ++ l2) = sum_Z l1 + sum_Z l2.
Proof.
  unfold sum_Z. induction l1 as [| x l1 IH]; simpl; [reflexivity |].
  rewrite IH. lia.
Qed.

Lemma element_count_nonneg l : 0 <= element_count l.
Proof. unfold element_count, len. lia. Qed.

Lemma element_count_nil : element_count [] = 0.
Proof. reflexivity. Qed.

Lemma element_count_inl e l :
  element_count (inl e :: l) = element_count l + 1.
Proof. unfold element_count, len. cbn [filter length]. lia. Qed.

Lemma element_count_inr f l : element_count (inr f :: l) = element_count l.
Proof. reflexivity. Qed.

Lemma counts_inl n : counts [inl n] = [n].
Proof. reflexivity. Qed.

Lemma counts_inr f : counts [inr f] = [].
Proof. reflexivity. Qed.

Lemma sum_Z_one n : sum_Z [n] = n.
Proof. unfold sum_Z. simpl. lia. Qed.

Lemma raw_byte_analysis_loop_facts l :
  forall res n,
    0 <= n ->
    fragments (raw_byte_analysis_loop l res n) = fragments res ++ fragments l /\
    (Forall (fun c => 0 < c) (counts res) ->
     Forall (fun c => 0 < c) (counts (raw_byte_analysis_loop l res n))) /\
    sum_Z (counts (raw_byte_analysis_loop l res n))
    <= sum_Z (counts res) + n + element_count l.
Proof.
  induction l as [| x l IH]; intros res n Hn; cbn [raw_byte_analysis_loop].
  - split; [symmetry; apply app_nil_r |]. split; [auto |].
    rewrite element_count_nil. lia.
  - destruct x as [e | f].
    + destruct (IH res (n + 1) ltac:(lia)) as (Hf & Hp & Hs).
      split; [exact Hf |]. split; [exact Hp |].
      rewrite element_count_inl. lia.
    + rewrite element_count_inr. destruct (n =? 0) eqn:E.
      * destruct (IH (res ++ [inr f]) 0 ltac:(lia)) as (Hf & Hp & Hs).
        apply Z.eqb_eq in E. subst n.
        rewrite fragments_app in Hf. rewrite counts_app, counts_inr in Hp, Hs.
        rewrite app_nil_r in Hp, Hs.
        split; [rewrite Hf, <- app_assoc; reflexivity |].
        split; [exact Hp | lia].
      * destruct (IH ((res ++ [inl n]) ++ [inr f]) 0 ltac:(lia))
          as (Hf & Hp & Hs).
        apply Z.eqb_neq in E.
        rewrite !fragments_app in Hf.
        rewrite !counts_app, counts_inr, counts_inl in Hp, Hs.
        rewrite !app_nil_r in Hf, Hp, Hs. rewrite sum_Z_app, sum_Z_one in Hs.
        split; [rewrite Hf, <- app_assoc; reflexivity |]. split.
        -- intros Hres. apply Hp. apply Forall_app. split; [exact Hres |].
           constructor; [lia | constructor].
        -- lia.
Qed.

Lemma raw_byte_analysis_loop_ends_in_fragment pre f :
  forall res n,
    0 <= n ->
    sum_Z (counts (raw_byte_analysis_loop (pre ++ [inr f]) res n))
    = sum_Z (counts res) + n + element_count pre.
Proof.
  induction pre as [| x pre IH]; intros res n Hn;
    cbn [app raw_byte_analysis_loop].
  - rewrite element_count_nil. destruct (n =? 0) eqn:E.
    + apply Z.eqb_eq in E. subst n.
      rewrite counts_app, counts_inr, app_nil_r. lia.
    + rewrite !counts_app, counts_inr, counts_inl, app_nil_r.
      rewrite sum_Z_app, sum_Z_one. lia.
  - destruct x as [e | g].
    + rewrite IH by lia. rewrite element_count_inl. lia.
    + rewrite element_count_inr. destruct (n =? 0) eqn:E.
      * apply Z.eqb_eq in E. subst n. rewrite IH by lia.
        rewrite counts_app, counts_inr, app_nil_r. lia.
      * rewrite IH by lia.
        rewrite !counts_app, counts_inr, counts_inl, app_nil_r.
        rewrite sum_Z_app, sum_Z_one. lia.
Qed.

(** X15.  [raw_byte_analysis] keeps the raw fragments of its input, in
    order; every count it inserts is positive; the counts add up to at most
    the number of elements, and to exactly that number when the input ends
    with a fragment (elements after the last fragment are not counted).
    Every list that the scan returns ends with a fragment, so its analysis
    counts all its elements. *)
Theorem raw_byte_analysis_counts l :
  fragments (raw_byte_analysis l) = fragments l /\
  Forall (fun c => 0 < c) (counts (raw_byte_analysis l)) /\
  sum_Z (counts (raw_byte_analysis l)) <= element_count l /\
  (forall pre f,
     l = pre ++ [inr f] ->
     sum_Z (counts (raw_byte_analysis l)) = element_count l) /\
  (forall fuel w w',
     parse_jack_shit fuel w = (Ok l, w') ->
     sum_Z (counts (raw_byte_analysis l)) = element_count l).
Proof.
  unfold raw_byte_analysis.
  destruct (raw_byte_analysis_loop_facts l [] 0 ltac:(lia)) as (Hf & Hp & Hs).
  assert (forall pre f,
             l = pre ++ [inr f] ->
             sum_Z (counts (raw_byte_analysis_loop l [] 0)) = element_count l)
    as Hend.
  { intros pre f ->. rewrite raw_byte_analysis_loop_ends_in_fragment by lia.
    unfold element_count. rewrite filter_app. cbn [filter].
    rewrite app_nil_r. change (sum_Z (counts [])) with 0. lia. }
  split; [exact Hf |]. split; [apply Hp; constructor |].
  split; [change (sum_Z (counts [])) with 0 in Hs; lia |].
  split; [exact Hend |].
  intros fuel w w' H. unfold parse_jack_shit in H. inv_run.
  match goal with
  | Hs : scan_loop _ _ _ _ _ = (Ok _, _) |- _ =>
    apply scan_loop_shape in Hs; destruct Hs as (pre & Hl)
  end.
  simpl in Hl. apply (Hend pre _ Hl).
Qed.

Lemma raw_byte_analysis_counts_witness :
  sum_Z (counts (raw_byte_analysis
                   [inl (IntElement (mkMarker sample_tag 2) 7);
                    inr [xaa; xbb; xcc; xdd]; inr [x00; x00; x01; x00]]))
  = element_count [inl (IntElement (mkMarker sample_tag 2) 7);
                   inr [xaa; xbb; xcc; xdd]; inr [x00; x00; x01; x00]].
Proof.
  apply (proj2 (proj2 (proj2 (proj2
           (raw_byte_analysis_counts
              [inl (IntElement (mkMarker sample_tag 2) 7);
               inr [xaa; xbb; xcc; xdd]; inr [x00; x00; x01; x00]]))))
           3%nat
           (start (magic ++ sample_int 7 ++ [xaa; xbb; xcc; xdd]
                     ++ [x00; x00; x01; x00]))
           (snd (run (parse_jack_shit 3%nat)
                   (magic ++ sample_int 7 ++ [xaa; xbb; xcc; xdd]
                      ++ [x00; x00; x01; x00])))).
  vm_compute. reflexivity.
Defined.

(** ** The count rule, both ways *)

(** X18.  The count that [RegularFileSection.serialize] reports for a
    decoded section is the raw count the decoder read, for every type byte
    and raw count except type byte 1 with raw count [0x40]. *)
Theorem reported_size_inverts_regular_count t0 raw :
  t0 <> x01 \/ raw <> 0x40 ->
  reported_size (byte_to_Z t0) (regular_count t0 raw) = raw.
Proof.
  intros H. unfold reported_size, regular_count.
  destruct (byte_to_Z t0 =? 1) eqn:Et.
  - apply Z.eqb_eq in Et. change 1 with (byte_to_Z x01) in Et.
    apply byte_to_Z_inj in Et.
    destruct H as [H | H]; [contradiction |].
    cbn [andb]. destruct (raw >? 64) eqn:E.
    + assert ((raw + 4 >=? 64) = true) as -> by lia. lia.
    + assert ((raw >=? 64) = false) as -> by lia. reflexivity.
  - reflexivity.
Qed.

Lemma reported_size_inverts_regular_count_witness :
  reported_size (byte_to_Z x01) (regular_count x01 0x41) = 0x41.
Proof.
  apply (reported_size_inverts_regular_count x01 0x41). right. lia.
Defined.

(** ** Uncompressed serialization *)

(** X19.  [serialize_uncompressed] raises for every element, whatever the
    decompressor does: it is [serialize] for every class but
    [CompressedElement], whose own version starts by serializing the
    marker. *)
Theorem serialize_uncompressed_raises inflate e :
  exists x, serialize_uncompressed inflate e = Raise x.
Proof.
  destruct e; cbn [serialize_uncompressed];
    try apply serialize_raises.
  simpl. eauto.
Qed.

(** ** Termination *)

(** X16.  Once the scan is at the end of the stream it never returns and
    never raises: every iteration reads the empty byte string, records it as
    a fragment and starts again, whatever the number of iterations allowed.
    So a scan of a stream that holds the magic and nothing else does not
    end. *)
Theorem scan_never_ends_at_end_of_stream loop_fuel fuel acc es w :
  (remaining w = [] ->
   fst (scan_loop loop_fuel (S fuel) acc es w) = OutOfFuel) /\
  (remaining w = magic ->
   fst (parse_jack_shit (S fuel) w) = OutOfFuel).
Proof.
  split.
  - intros Hrem. apply scan_loop_spins_at_eof. exact Hrem.
  - intros Hrem. unfold parse_jack_shit.
    rewrite <- (app_nil_r magic) in Hrem.
    rewrite (bind_step _ _ _ _ _ (read_app _ _ 4 _ Hrem eq_refl)).
    apply remaining_advance in Hrem.
    change (bytes_eqb magic [x43; x49; x56; x36]) with true.
    unfold assert.
    rewrite bind_step with (a := tt) (w1 := advance (length magic) w)
      by reflexivity.
    apply scan_loop_spins_at_eof. exact Hrem.
Qed.

Lemma scan_never_ends_at_end_of_stream_witness :
  fst (scan_loop 50 (S 0) [] 0 (mkWorld magic 4 [])) = OutOfFuel /\
  fst (parse_jack_shit (S 20) (start magic)) = OutOfFuel.
Proof.
  split.
  - apply (proj1 (scan_never_ends_at_end_of_stream 50 0 [] 0
                    (mkWorld magic 4 []))).
    reflexivity.
  - apply (proj2 (scan_never_ends_at_end_of_stream 0 20 [] 0 (start magic))).
    reflexivity.
Defined.

(** X17.  With more fuel than bytes left in the stream, neither the element
    decode nor the strict parse runs out of fuel, so both end by returning
    or raising; nesting costs at least one byte per level, and neither
    moves the cursor backwards. *)
Theorem decoders_terminate fuel w :
  (bytes_left w < fuel)%nat ->
  (forall mk,
     fst (parse_element fuel mk w) <> OutOfFuel /\
     (bytes_left (snd (parse_element fuel mk w)) <= bytes_left w)%nat) /\
  fst (parse_civ6save fuel w) <> OutOfFuel /\
  (bytes_left (snd (parse_civ6save fuel w)) <= bytes_left w)%nat.
Proof.
  intros Hk. split.
  - intros mk. destruct (parse_element fuel mk w) as [r w'] eqn:E.
    apply (safe_parse_element fuel mk _ _ _ Hk E).
  - destruct (parse_civ6save fuel w) as [r w'] eqn:E.
    apply (safe_parse_civ6save fuel _ _ _ Hk E).
Qed.

Lemma decoders_terminate_witness :
  (forall mk,
     fst (parse_element 101 mk (start sample_document)) <> OutOfFuel /\
     (bytes_left (snd (parse_element 101 mk (start sample_document)))
      <= bytes_left (start sample_document))%nat) /\
  fst (parse_civ6save 101 (start sample_document)) <> OutOfFuel /\
  (bytes_left (snd (parse_civ6save 101 (start sample_document)))
   <= bytes_left (start sample_document))%nat.
Proof.
  apply (decoders_terminate 101 (start sample_document)). vm_compute. lia.
Defined.

(** ** Decoding laid-out blobs *)

Lemma slice_from_app (p s : bytes) : slice_from (len p) (p ++ s) = s.
Proof.
  unfold slice_from, len. rewrite Nat2Z.id.
  rewrite skipn_app, skipn_all, Nat.sub_diag. reflexivity.
Qed.

Lemma slice_mid (p m t : bytes) i j :
  i = len p -> j = len p + len m -> slice i j (p ++ m ++ t) = m.
Proof.
  intros -> ->. unfold slice, slice_to.
  assert (Z.to_nat (Z.min (len p + len m)
                          (Z.of_nat (length (p ++ m ++ t))))
          = (length p + length m)%nat) as ->.
  { unfold len. rewrite !length_app. lia. }
  rewrite app_assoc, firstn_app.
  rewrite <- length_app, firstn_all, Nat.sub_diag. cbn [firstn].
  rewrite app_nil_r. apply slice_from_app.
Qed.

Lemma _read_byte_data_laid_out n stride data rest w :
  0 <= n < 2 ^ 24 -> 0 <= stride < 2 ^ 32 ->
  len data = n * stride \/ (len data < n * stride /\ rest = []) ->
  remaining w
  = le_digits 3 n ++ [x21] ++ le_digits 4 stride ++ data ++ rest ->
  _read_byte_data w
  = (Ok (inl (mkByteData data stride)), advance (8 + length data) w) /\
  remaining (advance (8 + length data) w) = rest.
Proof.
  intros Hn Hs Hlen Hrem. unfold _read_byte_data.
  rewrite (bind_step _ _ _ _ _ (read_app _ _ 3 _ Hrem eq_refl)).
  apply remaining_advance in Hrem.
  rewrite (bind_step _ _ _ _ _ (read_app _ _ 1 _ Hrem eq_refl)).
  apply remaining_advance in Hrem.
  change (bytes_eqb [x21] [x21]) with true. cbv iota.
  rewrite (bind_step _ _ _ _ _
             (_parse_int32_app _ _ _ Hrem (length_le_digits 4 stride))).
  apply remaining_advance in Hrem. rewrite length_le_digits in Hrem.
  rewrite !from_bytes_le_le_digits
    by (try exact Hs; change (256 ^ Z.of_nat 3) with (2 ^ 24); exact Hn).
  assert (read (n * stride)
            (advance 4 (advance (length [x21])
                          (advance (length (le_digits 3 n)) w)))
          = (Ok data,
             advance (length data)
               (advance 4 (advance (length [x21])
                             (advance (length (le_digits 3 n)) w)))) /\
          remaining
            (advance (length data)
               (advance 4 (advance (length [x21])
                             (advance (length (le_digits 3 n)) w)))) = rest)
    as [Hr Hrest].
  { destruct Hlen as [Hlen | [Hlen ->]].
    - split; [apply (read_app _ _ _ _ Hrem); lia |].
      apply (remaining_advance _ _ _ Hrem).
    - rewrite app_nil_r in Hrem. split; [apply (read_all _ _ _ Hrem); lia |].
      rewrite <- (app_nil_r data) in Hrem.
      apply (remaining_advance _ _ _ Hrem). }
  rewrite (bind_step _ _ _ _ _ Hr).
  assert (advance (length data)
            (advance 4 (advance (length [x21])
                          (advance (length (le_digits 3 n)) w)))
          = advance (8 + length data) w) as Hw.
  { unfold advance. simpl. f_equal. lia. }
  rewrite Hw in *. split; [reflexivity | exact Hrest].
Qed.

(** X21.  [_read_byte_data] on a count of 3 bytes, the byte [0x21], a
    4-byte stride and the data returns the data with its stride and leaves
    the cursor right after it when the data are count times stride bytes
    long; when the stream ends early, the shorter data are returned all
    the same, with no error. *)
Theorem _read_byte_data_framed n stride data rest w :
  0 <= n < 2 ^ 24 -> 0 <= stride < 2 ^ 32 ->
  len data = n * stride \/ (len data < n * stride /\ rest = []) ->
  remaining w
  = le_digits 3 n ++ [x21] ++ le_digits 4 stride ++ data ++ rest ->
  _read_byte_data w
  = (Ok (inl (mkByteData data stride)), advance (8 + length data) w) /\
  remaining (advance (8 + length data) w) = rest.
Proof. exact (_read_byte_data_laid_out n stride data rest w). Qed.

Lemma _read_byte_data_framed_witness :
  _read_byte_data
    (start (le_digits 3 2 ++ [x21] ++ le_digits 4 2
              ++ [x41; x00; x42; x00] ++ [xaa]))
  = (Ok (inl (mkByteData [x41; x00; x42; x00] 2)),
     advance (8 + length [x41; x00; x42; x00])
       (start (le_digits 3 2 ++ [x21] ++ le_digits 4 2
                 ++ [x41; x00; x42; x00] ++ [xaa]))) /\
  remaining
    (advance (8 + length [x41; x00; x42; x00])
       (start (le_digits 3 2 ++ [x21] ++ le_digits 4 2
                 ++ [x41; x00; x42; x00] ++ [xaa])))
  = [xaa].
Proof.
  apply (_read_byte_data_framed 2 2 [x41; x00; x42; x00] [xaa]).
  - lia.
  - lia.
  - left. reflexivity.
  - reflexivity.
Defined.

Lemma join_chunks_cons c chunks bs :
  join_chunks (c :: chunks) = Ok bs ->
  exists y,
    join_chunks chunks = Ok y /\ 0 <= len c < 2 ^ 32 /\
    bs = le_digits 4 (len c) ++ c ++ y.
Proof.
  cbn [join_chunks]. intros H.
  destruct (_to_bytes (len c)) as [lb | |] eqn:El; try discriminate H.
  cbn [obind] in H.
  destruct (join_chunks chunks) as [y | |] eqn:Ey; try discriminate H.
  cbn [obind] in H. injection H as <-.
  apply _to_bytes_ok in El. destruct El as [Hc ->].
  exists y. auto.
Qed.

Lemma join_chunks_length chunks :
  forall bs, join_chunks chunks = Ok bs -> (length chunks <= length bs)%nat.
Proof.
  induction chunks as [| c chunks IH]; intros bs H; [simpl; lia |].
  apply join_chunks_cons in H. destruct H as (y & Hy & _ & ->).
  apply IH in Hy. rewrite !length_app, length_le_digits. simpl. lia.
Qed.

Lemma chunk_loop_framed chunks :
  forall fuel pre acc bs w,
    join_chunks chunks = Ok bs -> (length chunks < fuel)%nat ->
    chunk_loop fuel (pre ++ bs) (len pre) acc w = (Ok (acc ++ chunks), w).
Proof.
  induction chunks as [| c chunks IH]; intros fuel pre acc bs w Hj Hfuel;
    (destruct fuel as [| fuel]; [simpl in Hfuel; lia |]).
  - cbn [join_chunks] in Hj. injection Hj as <-. cbn [chunk_loop].
    rewrite app_nil_r. rewrite Z.ltb_irrefl. cbn [andb].
    rewrite app_nil_r. reflexivity.
  - apply join_chunks_cons in Hj. destruct Hj as (y & Hy & Hc & ->).
    cbn [chunk_loop].
    assert (len (pre ++ le_digits 4 (len c) ++ c ++ y)
            = len pre + 4 + len c + len y) as Hlen.
    { unfold len. rewrite !length_app, length_le_digits. lia. }
    assert ((len pre <? len (pre ++ le_digits 4 (len c) ++ c ++ y)) = true)
      as ->.
    { apply Z.ltb_lt. rewrite Hlen. unfold len. lia. }
    rewrite slice_from_app.
    assert (bytes_eqb (le_digits 4 (len c) ++ c ++ y) [x00; x00; xff; xff]
            = false) as ->.
    { destruct (bytes_eqb (le_digits 4 (len c) ++ c ++ y)
                          [x00; x00; xff; xff]) eqn:E; [| reflexivity].
      apply bytes_eqb_eq in E. exfalso.
      pose proof (f_equal (@length byte) E) as El.
      rewrite !length_app, length_le_digits in El. simpl in El.
      assert (length c = 0%nat) as Hc0 by lia.
      destruct c; [| discriminate Hc0]. destruct y; [| simpl in El; lia].
      discriminate E. }
    cbn [negb andb].
    assert ((len (pre ++ le_digits 4 (len c) ++ c ++ y) - len pre <? 4)
            = false) as ->.
    { apply Z.ltb_ge. rewrite Hlen. unfold len. lia. }
    rewrite (slice_mid pre (le_digits 4 (len c)) (c ++ y))
      by (unfold len; rewrite ?length_le_digits; lia).
    rewrite from_bytes_le_le_digits by exact Hc.
    assert (slice (len pre + 4) (len pre + 4 + len c)
                  (pre ++ le_digits 4 (len c) ++ c ++ y) = c) as ->.
    { rewrite (app_assoc pre).
      apply slice_mid; unfold len; rewrite !length_app, length_le_digits; lia. }
    assert (pre ++ le_digits 4 (len c) ++ c ++ y
            = (pre ++ le_digits 4 (len c) ++ c) ++ y) as ->
        by (rewrite <- !app_assoc; reflexivity).
    assert (len pre + 4 + len c = len (pre ++ le_digits 4 (len c) ++ c)) as ->.
    { unfold len. rewrite !length_app, length_le_digits. lia. }
    rewrite (IH fuel _ (acc ++ [c]) y w Hy) by (simpl in Hfuel; lia).
    rewrite <- app_assoc. reflexivity.
Qed.

Lemma bind_emit {A} e (f : unit -> M A) w :
  bind (emit e) f w
  = f tt (mkWorld (input_buffer w) (position w) (trace w ++ [e])).
Proof. reflexivity. Qed.

(** X20.  A CompressedBlob element laid out as a ByteData of stride 1
    holding a 4-byte header, the declared size and length-prefixed chunks
    decodes to a [CompressedElement] with that header, size and chunk list;
    the decode dumps the blob to [debug.bin] and the joined chunks to
    [debug2.bin] and leaves the cursor right after the blob. *)
Theorem compressed_blob_decode fuel m w header size chunks bs rest :
  type_ m = 0x18 -> length header = 4%nat -> 0 <= size < 2 ^ 32 ->
  join_chunks chunks = Ok bs ->
  len (header ++ le_digits 4 size ++ bs) < 2 ^ 24 ->
  remaining w
  = le_digits 3 (len (header ++ le_digits 4 size ++ bs)) ++ [x21]
      ++ le_digits 4 1 ++ (header ++ le_digits 4 size ++ bs) ++ rest ->
  fst (parse_element (S fuel) (Some m) w)
  = Ok (Some (CompressedElement m header size chunks)) /\
  trace (snd (parse_element (S fuel) (Some m) w))
  = trace w
      ++ [OpenWB "debug.bin";
          FileWrite "debug.bin" (header ++ le_digits 4 size ++ bs);
          OpenWB "debug2.bin";
          FileWrite "debug2.bin" (concat chunks)] /\
  remaining (snd (parse_element (S fuel) (Some m) w)) = rest.
Proof.
  intros Ht Hh Hsize Hj Hlen Hrem.
  set (blob := header ++ le_digits 4 size ++ bs) in *.
  assert (0 <= len blob) as Hpos by (unfold len; lia).
  destruct (_read_byte_data_laid_out (len blob) 1 blob rest w
              ltac:(lia) ltac:(lia) ltac:(left; lia) Hrem) as [Hr Hrest].
  assert (parse_element (S fuel) (Some m) w
          = (Ok (Some (CompressedElement m header size chunks)),
             mkWorld (input_buffer w) (position w + (8 + length blob))
                     ((((trace w ++ [OpenWB "debug.bin"])
                          ++ [FileWrite "debug.bin" blob])
                         ++ [OpenWB "debug2.bin"])
                        ++ [FileWrite "debug2.bin" (concat chunks)])))
    as Hp.
  { cbn [parse_element]. rewrite Ht. decide_type_tests.
    rewrite (bind_step _ _ _ _ _ Hr). rewrite bind_emit, bind_emit.
    cbn [b].
    assert (blob = (header ++ le_digits 4 size) ++ bs) as Hb
        by (unfold blob; rewrite <- app_assoc; reflexivity).
    assert (8 = len (header ++ le_digits 4 size)) as H8.
    { unfold len. rewrite length_app, length_le_digits, Hh. reflexivity. }
    assert (length chunks < S (length blob))%nat as Hfuel.
    { pose proof (join_chunks_length _ _ Hj). unfold blob.
      rewrite !length_app. lia. }
    match goal with
    | |- bind (chunk_loop _ _ _ _) _ ?w0 = _ =>
      pose proof (chunk_loop_framed chunks (S (length blob))
                    (header ++ le_digits 4 size) [] bs w0 Hj Hfuel) as Hc
    end.
    rewrite <- Hb, <- H8 in Hc. rewrite (bind_step _ _ _ _ _ Hc).
    rewrite bind_emit, bind_emit. unfold ret. cbn [app].
    assert (slice_to 4 blob = header) as ->.
    { unfold blob. apply slice_to_app. unfold len. lia. }
    assert (from_bytes_le (slice 4 8 blob) = size) as ->.
    { unfold blob.
      rewrite (slice_mid header (le_digits 4 size) bs)
        by (unfold len; rewrite ?length_le_digits; lia).
      apply from_bytes_le_le_digits. exact Hsize. }
    reflexivity. }
  rewrite Hp. cbn [fst snd trace]. split; [reflexivity |].
  split; [rewrite <- !app_assoc; reflexivity |].
  exact Hrest.
Qed.

Lemma compressed_blob_decode_witness :
  fst (parse_element 1 (Some (mkMarker sample_tag 0x18))
         (start (skipn 8 sample_blob ++ [xaa])))
  = Ok (Some (CompressedElement (mkMarker sample_tag 0x18)
                [xd1; xd2; xd3; xd4] 5 [[xe1; xe2]])) /\
  trace (snd (parse_element 1 (Some (mkMarker sample_tag 0x18))
                (start (skipn 8 sample_blob ++ [xaa]))))
  = trace (start (skipn 8 sample_blob ++ [xaa]))
      ++ [OpenWB "debug.bin";
          FileWrite "debug.bin"
            ([xd1; xd2; xd3; xd4] ++ le_digits 4 5 ++ (u32 2 ++ [xe1; xe2]));
          OpenWB "debug2.bin";
          FileWrite "debug2.bin" (concat [[xe1; xe2]])] /\
  remaining (snd (parse_element 1 (Some (mkMarker sample_tag 0x18))
                    (start (skipn 8 sample_blob ++ [xaa]))))
  = [xaa].
Proof.
  apply (compressed_blob_decode 0 (mkMarker sample_tag 0x18)
           (start (skipn 8 sample_blob ++ [xaa]))
           [xd1; xd2; xd3; xd4] 5 [[xe1; xe2]] (u32 2 ++ [xe1; xe2]) [xaa]).
  - reflexivity.
  - reflexivity.
  - lia.
  - reflexivity.
  - vm_compute. reflexivity.
  - reflexivity.
Defined.

(** ** Strings, timestamps and arrays *)

(** X22.  A string element laid out as count, [0x21], stride and data
    decodes to a [StringElement] (type codes 4 and 5) when the stride is 1
    and to a [UtfStringElement] (type code 6) when the stride is 2; with any
    other stride the decode fails its assertion. *)
Theorem string_element_decode fuel m w n stride data rest :
  0 <= n < 2 ^ 24 -> 0 <= stride < 2 ^ 32 -> len data = n * stride ->
  remaining w
  = le_digits 3 n ++ [x21] ++ le_digits 4 stride ++ data ++ rest ->
  (type_ m = 0x4 \/ type_ m = 0x5 ->
   fst (parse_element (S fuel) (Some m) w)
   = if stride =? 1 then Ok (Some (StringElement m (mkByteData data stride)))
     else Raise AssertionError) /\
  (type_ m = 0x6 ->
   fst (parse_element (S fuel) (Some m) w)
   = if stride =? 2
     then Ok (Some (UtfStringElement m (mkByteData data stride)))
     else Raise AssertionError).
Proof.
  intros Hn Hs Hlen Hrem.
  destruct (_read_byte_data_laid_out n stride data rest w Hn Hs
              (or_introl Hlen) Hrem) as [Hr _].
  split.
  - intros Ht. cbn [parse_element].
    destruct Ht as [Ht | Ht]; rewrite Ht; decide_type_tests;
      rewrite (bind_step _ _ _ _ _ Hr); cbn [b_per_element];
      unfold bind, assert; destruct (stride =? 1); reflexivity.
  - intros Ht. cbn [parse_element]. rewrite Ht. decide_type_tests.
    rewrite (bind_step _ _ _ _ _ Hr). cbn [b_per_element].
    unfold bind, assert. destruct (stride =? 2); reflexivity.
Qed.

Lemma string_element_decode_witness :
  fst (parse_element 1 (Some (mkMarker sample_tag 0x5))
         (start (le_digits 3 2 ++ [x21] ++ le_digits 4 1
                   ++ [x68; x69] ++ [xaa])))
  = (if 1 =? 1
     then Ok (Some (StringElement (mkMarker sample_tag 0x5)
                      (mkByteData [x68; x69] 1)))
     else Raise AssertionError) /\
  fst (parse_element 1 (Some (mkMarker sample_tag 0x6))
         (start (le_digits 3 2 ++ [x21] ++ le_digits 4 1
                   ++ [x68; x69] ++ [xaa])))
  = (if 1 =? 2
     then Ok (Some (UtfStringElement (mkMarker sample_tag 0x6)
                      (mkByteData [x68; x69] 1)))
     else Raise AssertionError).
Proof.
  split.
  - apply (proj1 (string_element_decode 0 (mkMarker sample_tag 0x5)
                    (start (le_digits 3 2 ++ [x21] ++ le_digits 4 1
                              ++ [x68; x69] ++ [xaa]))
                    2 1 [x68; x69] [xaa]
                    ltac:(lia) ltac:(lia) eq_refl eq_refl)).
    right. reflexivity.
  - apply (proj2 (string_element_decode 0 (mkMarker sample_tag 0x6)
                    (start (le_digits 3 2 ++ [x21] ++ le_digits 4 1
                              ++ [x68; x69] ++ [xaa]))
                    2 1 [x68; x69] [xaa]
                    ltac:(lia) ltac:(lia) eq_refl eq_refl)).
    reflexivity.
Defined.

(** X24.  A Timestamp element decodes when its 16 bytes are the prefix
    [00 00 00 80 00 00 00 00], the epoch and four zero bytes, and then
    consumes exactly those 16 bytes; a different prefix is not a [None]
    result, as bad padding is for Boolean and Int32, but a failed
    assertion. *)
Theorem timestamp_decode fuel m w :
  type_ m = 0x14 ->
  (forall epoch rest,
     0 <= epoch < 2 ^ 32 ->
     remaining w
     = [x00; x00; x00; x80; x00; x00; x00; x00] ++ le_digits 4 epoch
         ++ zeros 4 ++ rest ->
     parse_element (S fuel) (Some m) w
     = (Ok (Some (TimestampElement m epoch)), advance 16 w)) /\
  (slice_to 8 (remaining w) <> [x00; x00; x00; x80; x00; x00; x00; x00] ->
   fst (parse_element (S fuel) (Some m) w) = Raise AssertionError).
Proof.
  intros Ht. split.
  - intros epoch rest He Hrem. cbn [parse_element]. rewrite Ht.
    decide_type_tests.
    rewrite (bind_step _ _ _ _ _ (read_app _ _ 8 _ Hrem eq_refl)).
    apply remaining_advance in Hrem.
    change (bytes_eqb [x00; x00; x00; x80; x00; x00; x00; x00]
                      [x00; x00; x00; x80; x00; x00; x00; x00]) with true.
    unfold assert at 1. rewrite bind_step with (a := tt)
      (w1 := advance (length [x00; x00; x00; x80; x00; x00; x00; x00]) w)
      by reflexivity.
    rewrite (bind_step _ _ _ _ _
               (_parse_int32_app _ _ _ Hrem (length_le_digits 4 epoch))).
    apply remaining_advance in Hrem. rewrite length_le_digits in Hrem.
    rewrite (bind_step _ _ _ _ _ (read_app _ _ 4 _ Hrem eq_refl)).
    change (bytes_eqb (zeros 4) [x00; x00; x00; x00]) with true.
    rewrite from_bytes_le_le_digits by exact He.
    unfold bind, assert, ret, advance. simpl. f_equal. f_equal. lia.
  - intros Hne. cbn [parse_element]. rewrite Ht. decide_type_tests.
    assert (bytes_eqb (slice_to 8 (remaining w))
                      [x00; x00; x00; x80; x00; x00; x00; x00] = false) as Hb.
    { destruct (bytes_eqb (slice_to 8 (remaining w))
                          [x00; x00; x00; x80; x00; x00; x00; x00]) eqn:E;
        [| reflexivity].
      apply bytes_eqb_eq in E. contradiction. }
    unfold bind, read, assert. simpl. rewrite Hb. reflexivity.
Qed.

Lemma timestamp_decode_witness :
  parse_element 1 (Some (mkMarker sample_tag 0x14))
    (start ([x00; x00; x00; x80; x00; x00; x00; x00] ++ le_digits 4 1700000000
              ++ zeros 4 ++ [xaa]))
  = (Ok (Some (TimestampElement (mkMarker sample_tag 0x14) 1700000000)),
     advance 16
       (start ([x00; x00; x00; x80; x00; x00; x00; x00]
                 ++ le_digits 4 1700000000 ++ zeros 4 ++ [xaa]))) /\
  fst (parse_element 1 (Some (mkMarker sample_tag 0x14)) (start (zeros 16)))
  = Raise AssertionError.
Proof.
  split.
  - apply (proj1 (timestamp_decode 0 (mkMarker sample_tag 0x14)
                    (start ([x00; x00; x00; x80; x00; x00; x00; x00]
                              ++ le_digits 4 1700000000 ++ zeros 4 ++ [xaa]))
                    eq_refl)
             1700000000 [xaa]).
    + lia.
    + reflexivity.
  - apply (proj2 (timestamp_decode 0 (mkMarker sample_tag 0x14)
                    (start (zeros 16)) eq_refl)).
    discriminate.
Defined.

(** X23.  An array element that the decoder returns has exactly as many
    children as its count field says, failed children included: a named
    array after its fixed 8-byte prefix, an anonymous array after its
    header, which is the next at most 8 bytes of the stream. *)
Theorem array_child_count fuel m w e w' :
  parse_element fuel (Some m) w = (Ok (Some e), w') ->
  match e with
  | Array0AElement _ elements =>
    slice_to 8 (remaining w) = [x00; x00; x00; x05; x00; x00; x00; x00] /\
    len elements = from_bytes_le (slice_to 4 (skipn 8 (remaining w)))
  | Array0BElement _ header content =>
    header = slice_to 8 (remaining w) /\
    len content
    = from_bytes_le (slice_to 4 (skipn (length header) (remaining w)))
  | _ => True
  end.
Proof.
  destruct fuel as [| fuel]; cbn [parse_element]; intros H;
    [discriminate H |].
  destruct (type_ m =? 1); [inv_run; exact I |].
  destruct (type_ m =? 2); [inv_run; exact I |].
  destruct (type_ m =? 3); [inv_run; exact I |].
  destruct ((type_ m =? 4) || (type_ m =? 5)); [inv_run; exact I |].
  destruct (type_ m =? 6); [inv_run; exact I |].
  assert (forall n w0 v w1,
             _parse_int32 (advance n w0) = (Ok v, w1) ->
             v = from_bytes_le (slice_to 4 (skipn n (remaining w0)))) as Hint.
  { intros n w0 v w1 Hi. apply _parse_int32_ok in Hi.
    destruct Hi as (-> & _). f_equal. f_equal. unfold remaining, advance.
    simpl. rewrite Nat.add_comm, <- skipn_skipn. reflexivity. }
  destruct (type_ m =? 10).
  { inv_run.
    match goal with
    | Hr : read 8 _ = (Ok ?a, _), Hb : bytes_eqb ?a _ = true |- _ =>
      apply bytes_eqb_eq in Hb; subst a;
        apply read_ok in Hr; destruct Hr as [-> Hr];
        destruct Hr as [Hpre _]; [lia |]
    end.
    match goal with
    | Hi : _parse_int32 _ = (Ok _, _) |- _ => apply Hint in Hi; subst
    end.
    split; [symmetry; exact Hpre |].
    match goal with
    | Hrep : repeatM _ _ _ = (Ok _, _) |- _ =>
      apply repeatM_length in Hrep; unfold len; rewrite Hrep
    end.
    rewrite Z2Nat.id by apply from_bytes_le_nonneg. reflexivity. }
  destruct (type_ m =? 11).
  { inv_run.
    match goal with
    | Hr : read 8 _ = (Ok _, _) |- _ =>
      apply read_ok in Hr; destruct Hr as [-> Hr];
        destruct Hr as [Hhd _]; [lia |]
    end.
    match goal with
    | Hi : _parse_int32 _ = (Ok _, _) |- _ => apply Hint in Hi; subst
    end.
    split; [reflexivity |].
    match goal with
    | Hrep : repeatM _ _ _ = (Ok _, _) |- _ =>
      apply repeatM_length in Hrep; unfold len; rewrite Hrep
    end.
    rewrite Z2Nat.id by apply from_bytes_le_nonneg. reflexivity. }
  destruct (type_ m =? 13); [inv_run; exact I |].
  destruct (type_ m =? 20); [inv_run; exact I |].
  destruct (type_ m =? 24); inv_run. exact I.
Qed.

Lemma array_child_count_witness :
  [xf0; xf1; xf2; xf3; xf4; xf5; xf6; xf7]
  = slice_to 8 (remaining (start sample_nested_body)) /\
  len [Some (BooleanElement (mkMarker [x00; x00; x00; x00] 0x1) 1);
       Some (Array0AElement (mkMarker [x00; x00; x00; x00] 0xA)
               [Some (IntElement (mkMarker sample_tag 0x2) 7)])]
  = from_bytes_le
      (slice_to 4
         (skipn (length [xf0; xf1; xf2; xf3; xf4; xf5; xf6; xf7])
                (remaining (start sample_nested_body)))).
Proof.
  apply (array_child_count 3 (mkMarker sample_tag 0xB)
           (start sample_nested_body) sample_nested
           (snd (run (parse_element 3 (Some (mkMarker sample_tag 0xB)))
                   sample_nested_body))).
  vm_compute. reflexivity.
Defined.
